(** * MaiBot LLM request dispatcher: a shallow embedding of
    [src/llm_models/utils_model.py] and the properties of its selection,
    retry, failover, tool validation and reasoning extraction code. *)

From Stdlib Require Import ZArith Lia Bool List Ascii String.
From stdpp Require Import base option list strings gmap.
Import ListNotations.

Local Open Scope Z_scope.
#[local] Set Warnings "-register-all".

(** ** Python exceptions seen by the dispatcher *)

(** The three messages [_attempt_request_on_model] gives a
    [ModelAttemptFailed]: retries used up, a hard error, never attempted. *)
Inductive FailMsg : Type :=
| RetriesExhausted
| HardError
| NotAttempted.

(** The exception classes the code raises, catches or tells apart.
    [CancelledError] stands for the exceptions that are not subclasses of
    [Exception] (task cancellation): no [except Exception] catches them. *)
Inductive PyExc : Type :=
| EmptyResponseException
| NetworkConnectionError
| RespNotOkException (status_code : Z)
| ModelAttemptFailed (msg : FailMsg) (original_exception : option PyExc)
| RuntimeError (msg : string)
| AssertionError
| TypeError
| IndexError
| KeyError (key : string)
| OtherException (tag : string)
| CancelledError.

(** What a call produces: a value, or a raised exception. *)
Inductive Outcome (A : Type) : Type :=
| Return (a : A)
| Raise (e : PyExc).
Arguments Return {A} a.
Arguments Raise {A} e.

(** ** [_extract_reasoning]: strings, [str.strip] and the regular expression *)

Module Reasoning.

(** Strings are sequences of code points below 256. [str.strip()] removes
    the characters Python's [str.isspace] accepts; below 256 these are
    U+0009..U+000D, U+001C..U+0020, U+0085 and U+00A0. *)
Definition py_isspace (c : ascii) : bool :=
  let n := nat_of_ascii c in
  ((9 <=? n)%nat && (n <=? 13)%nat)
  || ((28 <=? n)%nat && (n <=? 32)%nat)
  || (n =? 133)%nat || (n =? 160)%nat.

Fixpoint lstrip (s : string) : string :=
  match s with
  | EmptyString => EmptyString
  | String c s' => if py_isspace c then lstrip s' else s
  end.

(** [rstrip s]: [s] without its trailing white space. *)
Fixpoint rstrip (s : string) : string :=
  match s with
  | EmptyString => EmptyString
  | String c s' =>
      match rstrip s' with
      | EmptyString => if py_isspace c then EmptyString else String c EmptyString
      | r => String c r
      end
  end.

Definition strip (s : string) : string := rstrip (lstrip s).

(** [strip_prefix p s]: what follows the literal [p] at the start of [s]. *)
Fixpoint strip_prefix (p s : string) : option string :=
  match p, s with
  | EmptyString, _ => Some s
  | String a p', String b s' => if Ascii.eqb a b then strip_prefix p' s' else None
  | String _ _, EmptyString => None
  end.

(** Python's [m in s] on strings. *)
Fixpoint contains (m s : string) : bool :=
  match strip_prefix m s with
  | Some _ => true
  | None => match s with
            | EmptyString => false
            | String _ s' => contains m s'
            end
  end.

Definition think_open : string := "<think>".
Definition think_close : string := "</think>".

(** [(.*?)</think>] under [re.DOTALL], anchored at the start of [s]: the
    lazy [.*?] takes the fewest characters (any character, line ends
    included) that let the literal match. The result is the text of group 1
    and what is left of [s] after the match. *)
Fixpoint lazy_until_close (s : string) : option (string * string) :=
  match strip_prefix think_close s with
  | Some rest => Some (EmptyString, rest)
  | None =>
      match s with
      | EmptyString => None
      | String c s' =>
          match lazy_until_close s' with
          | Some (g, rest) => Some (String c g, rest)
          | None => None
          end
      end
  end.

(** [(?:<think>)?(.*?)</think>] anchored at the start of [s]: the optional
    group is greedy, so the matcher first takes [<think>] when it is there,
    and backtracks to the empty alternative when the rest then fails. *)
Definition match_here (s : string) : option (string * string) :=
  match strip_prefix think_open s with
  | Some s' =>
      match lazy_until_close s' with
      | Some r => Some r
      | None => lazy_until_close s
      end
  | None => lazy_until_close s
  end.

(** [re.search]: the match at the leftmost start position that has one.
    Returns the text before the match, group 1, and the text after it. *)
Fixpoint re_search (s : string) : option (string * string * string) :=
  match match_here s with
  | Some (g, rest) => Some (EmptyString, g, rest)
  | None =>
      match s with
      | EmptyString => None
      | String c s' =>
          match re_search s' with
          | Some (before, g, rest) => Some (String c before, g, rest)
          | None => None
          end
      end
  end.

(** [re.sub(pattern, "", content, count=1)]: the first match removed. *)
Definition re_sub_first (s : string) : string :=
  match re_search s with
  | Some (before, _, rest) => before +:+ rest
  | None => s
  end.

Definition _extract_reasoning (content : string) : string * string :=
  let match_ := re_search content in
  let content := strip (re_sub_first content) in
  let reasoning :=
    match match_ with
    | Some (_, g, _) => strip g
    | None => EmptyString
    end in
  (content, reasoning).

End Reasoning.

(** ** [_build_tool_options]: validation of tool descriptors *)

Module Tools.

(** The values a tool descriptor is built from. [E] is the enumeration
    [ToolParamType], which is declared outside this file's sources. A
    dictionary is the list of its items, in insertion order. *)
Inductive PyVal (E : Type) : Type :=
| PyNone
| PyBool (b : bool)
| PyInt (z : Z)
| PyStr (s : string)
| PyEnum (e : E)
| PyList (l : list (PyVal E))
| PyTuple (l : list (PyVal E))
| PyDict (items : list (PyVal E * PyVal E)).
Arguments PyNone {E}.
Arguments PyBool {E} b.
Arguments PyInt {E} z.
Arguments PyStr {E} s.
Arguments PyEnum {E} e.
Arguments PyList {E} l.
Arguments PyTuple {E} l.
Arguments PyDict {E} items.

(** [ToolOptionBuilder] and [ToolParamType] live in
    [payload_content/tool_option.py], outside the sources at hand: they are
    taken as an interface. [add_param] is called inside the [try] and gives
    [None] when it raises (a synchronous call: what it raises is an
    [Exception], which one of the two handlers catches); [set_name],
    [set_description] and [build] are called outside any [try], so a raise
    there would leave [_build_tool_options] altogether and they are taken
    as returning. *)
Class ToolOptionAPI : Type := {
  ToolParamType : Type;
  ToolOption : Type;
  ToolOptionBuilder : Type;
  new_builder : ToolOptionBuilder;
  set_name : PyVal ToolParamType -> ToolOptionBuilder -> ToolOptionBuilder;
  set_description : PyVal ToolParamType -> ToolOptionBuilder -> ToolOptionBuilder;
  add_param : string -> ToolParamType -> string -> bool ->
              option (list (PyVal ToolParamType)) ->
              ToolOptionBuilder -> option ToolOptionBuilder;
  build : ToolOptionBuilder -> ToolOption
}.

Section ToolDefs.
Context {api : ToolOptionAPI}.

Local Abbreviation Val := (PyVal ToolParamType).

(** The six assertions on a parameter, in the order of the source; the
    result is the argument list handed to [add_param]. *)
Definition check_param (param : Val)
  : option (string * ToolParamType * string * bool * option (list Val)) :=
  match param with
  | PyTuple [p0; p1; p2; p3; p4] =>
      match p0, p1, p2, p3 with
      | PyStr n, PyEnum t, PyStr d, PyBool r =>
          match p4 with
          | PyList l => Some (n, t, d, r, Some l)
          | PyNone => Some (n, t, d, r, None)
          | _ => None
          end
      | _, _, _, _ => None
      end
  | _ => None
  end.

(** A dictionary key equal to [0]: the integer zero, or [False]. *)
Definition is_zero_key (key : Val) : bool :=
  match key with
  | PyInt z => z =? 0
  | PyBool b => negb b
  | _ => false
  end.

(** [param[0]], which the [AssertionError] handler formats into its log
    line: [None] when the subscript succeeds, else the exception it
    raises. A sequence is indexed, a dictionary is looked up at the key
    [0], and the other values cannot be subscripted. *)
Definition getitem0 (param : Val) : option PyExc :=
  match param with
  | PyTuple (_ :: _) | PyList (_ :: _) | PyStr (String _ _) => None
  | PyTuple [] | PyList [] | PyStr EmptyString => Some IndexError
  | PyDict items =>
      if existsb (fun kv => is_zero_key kv.1) items then None else Some (KeyError "0")
  | PyNone | PyBool _ | PyInt _ | PyEnum _ => Some TypeError
  end.

(** [for param in parameters]: the elements (the keys, for a dictionary),
    or [TypeError] when the value is not iterable. *)
Definition py_iter (v : Val) : Outcome (list Val) :=
  match v with
  | PyList l | PyTuple l => Return l
  | PyDict items => Return (List.map fst items)
  | PyStr s => Return (List.map (fun c => PyStr (String c EmptyString)) (list_ascii_of_string s))
  | _ => Raise TypeError
  end.

(** One pass of the inner loop's [try] statement. *)
Definition param_step (param : Val) (st : ToolOptionBuilder * bool)
  : Outcome (ToolOptionBuilder * bool) :=
  let '(builder, tool_legal) := st in
  match check_param param with
  | None =>
      (* except AssertionError: the log line reads param[0] *)
      match getitem0 param with
      | None => Return (builder, false)
      | Some e => Raise e
      end
  | Some (n, t, d, r, ev) =>
      match add_param n t d r ev builder with
      | Some builder' => Return (builder', tool_legal)
      | None => Return (builder, false)
      end
  end.

Fixpoint params_loop (parameters : list Val) (st : ToolOptionBuilder * bool)
  : Outcome (ToolOptionBuilder * bool) :=
  match parameters with
  | [] => Return st
  | param :: rest =>
      match param_step param st with
      | Return st' => params_loop rest st'
      | Raise e => Raise e
      end
  end.

(** [tool.get(key, default)]. *)
Definition dict_get_default (tool : gmap string Val) (key : string) (dflt : Val) : Val :=
  default dflt (tool !! key).

(** The body of the outer loop for one tool: the builder and [tool_legal]. *)
Definition tool_step (tool : gmap string Val) : Outcome (ToolOptionBuilder * bool) :=
  let b := set_name (dict_get_default tool "name" (PyStr "")) new_builder in
  let b := set_description (dict_get_default tool "description" (PyStr "")) b in
  match py_iter (dict_get_default tool "parameters" (PyList [])) with
  | Raise e => Raise e
  | Return parameters => params_loop parameters (b, true)
  end.

Fixpoint tools_loop (tools : list (gmap string Val)) (tool_options : list ToolOption)
  : Outcome (list ToolOption) :=
  match tools with
  | [] => Return tool_options
  | tool :: rest =>
      match tool_step tool with
      | Raise e => Raise e
      | Return (b, tool_legal) =>
          tools_loop rest (if tool_legal then tool_options ++ [build b] else tool_options)
      end
  end.

Definition _build_tool_options (tools : option (list (gmap string Val)))
  : Outcome (option (list ToolOption)) :=
  match tools with
  | None | Some [] => Return None
  | Some tools =>
      match tools_loop tools [] with
      | Raise e => Raise e
      | Return [] => Return None
      | Return tool_options => Return (Some tool_options)
      end
  end.

(** The parameter passes the six assertions. *)
Definition passes_checks (param : Val) : bool :=
  match check_param param with Some _ => true | None => false end.

(** The handler's log line can read [param[0]]. *)
Definition loggable (param : Val) : bool :=
  match getitem0 param with None => true | Some _ => false end.

Definition parameters_of (tool : gmap string Val) : Outcome (list Val) :=
  py_iter (dict_get_default tool "parameters" (PyList [])).

(** Some parameter of the tool fails an assertion. *)
Definition has_invalid_param (tool : gmap string Val) : bool :=
  match parameters_of tool with
  | Return ps => existsb (fun p => negb (passes_checks p)) ps
  | Raise _ => false
  end.

(** Every parameter of the tool that fails an assertion can be logged. *)
Definition rejections_loggable (tool : gmap string Val) : bool :=
  match parameters_of tool with
  | Return ps => forallb (fun p => passes_checks p || loggable p) ps
  | Raise _ => false
  end.

(** Every parameter of the tool passes the assertions. *)
Definition all_params_valid (tool : gmap string Val) : bool :=
  match parameters_of tool with
  | Return ps => forallb passes_checks ps
  | Raise _ => false
  end.

End ToolDefs.

(** A builder that records what it is given, for concrete runs. *)
Inductive ParamKind : Type := STRING | INTEGER.

Definition recording_api : ToolOptionAPI := {|
  ToolParamType := ParamKind;
  ToolOption := PyVal ParamKind * PyVal ParamKind * list string;
  ToolOptionBuilder := PyVal ParamKind * PyVal ParamKind * list string;
  new_builder := (PyStr "", PyStr "", []);
  set_name n b := (n, b.1.2, b.2);
  set_description d b := (b.1.1, d, b.2);
  add_param n _ _ _ _ b := Some (b.1, b.2 ++ [n]);
  build b := b
|}.

Definition good_tool : gmap string (PyVal ParamKind) :=
  {[ "name" := PyStr "search";
     "description" := PyStr "web search";
     "parameters" := PyList [PyTuple [PyStr "q"; PyEnum STRING; PyStr "query"; PyBool true; PyNone]] ]}.

Definition bad_tool : gmap string (PyVal ParamKind) :=
  {[ "name" := PyStr "broken";
     "description" := PyStr "bad arity";
     "parameters" := PyList [PyTuple [PyStr "q"; PyEnum STRING; PyStr "query"]] ]}.

Definition crashing_tool : gmap string (PyVal ParamKind) :=
  {[ "name" := PyStr "crash";
     "description" := PyStr "empty parameter tuple";
     "parameters" := PyList [PyTuple []] ]}.

End Tools.

(** ** The dispatcher: score table, selector, retry engine, failover loop *)

Module Dispatcher.

Inductive RequestType : Type := RESPONSE | EMBEDDING | AUDIO.

(** The fields of the configuration records that the dispatcher reads. *)
Record APIProvider : Type := {
  provider_name : string;
  max_retry : Z;
  retry_interval : Z
}.

Record ModelInfo : Type := {
  name : string;
  api_provider : string
}.

(** [client_registry.get_client_class_instance(api_provider, force_new)]. *)
Record Client : Type := {
  client_provider : APIProvider;
  force_new : bool
}.

(** The three client methods the retry loop awaits. [P] gathers the
    generation parameters (tool options, response format, handlers,
    temperature, token limit, extra parameters): they are passed on to the
    client untouched and no branch of the dispatcher reads them. *)
Inductive Request (M P : Type) : Type :=
| ReqResponse (client : Client) (model_info : ModelInfo) (message_list : list M) (params : P)
| ReqEmbedding (client : Client) (model_info : ModelInfo) (embedding_input : string)
| ReqAudio (client : Client) (model_info : ModelInfo) (audio_base64 : string).
Arguments ReqResponse {M P}.
Arguments ReqEmbedding {M P}.
Arguments ReqAudio {M P}.

(** The calls a request makes to its collaborators, in order. *)
Inductive Event (M P : Type) : Type :=
| EvSelect (model : string)
| EvCall (r : Request M P)
| EvSleep (seconds : Z)
| EvCompress (message_list : list M).
Arguments EvSelect {M P}.
Arguments EvCall {M P}.
Arguments EvSleep {M P}.
Arguments EvCompress {M P}.

(** The collaborators: the model configuration, the provider clients (a
    transition on the state of the outside world) and [compress_messages]
    from [utils.py]. *)
Class Backend : Type := {
  Message : Type;
  GenParams : Type;
  APIResponse : Type;
  World : Type;
  model_api_provider : string -> string;
  get_provider : string -> APIProvider;
  client_call : Request Message GenParams -> World -> Outcome APIResponse * World;
  compress_messages : list Message -> list Message;
  default_params : GenParams
}.

(** [model_config.get_model_info(name)]: the configured record of that
    name. *)
Definition get_model_info `{Backend} (model_name : string) : ModelInfo :=
  {| name := model_name; api_provider := model_api_provider model_name |}.

Record Env `{Backend} : Type := {
  world : World;
  trace : list (Event Message GenParams)
}.

Definition log `{Backend} (ev : Event Message GenParams) (env : Env) : Env :=
  {| world := world env; trace := trace env ++ [ev] |}.

(** *** Score table *)

(** (total_tokens, penalty, usage_penalty) *)
Definition Score : Type := Z * Z * Z.

(** A [dict] with string keys keeps its keys in insertion order. *)
Fixpoint dict_get {V : Type} (k : string) (d : list (string * V)) : option V :=
  match d with
  | [] => None
  | (k', v) :: d' => if String.eqb k k' then Some v else dict_get k d'
  end.

(** [d[k] = v]: in place for a key that is there, at the end for a new one. *)
Fixpoint dict_set {V : Type} (k : string) (v : V) (d : list (string * V)) : list (string * V) :=
  match d with
  | [] => [(k, v)]
  | (k', v') :: d' => if String.eqb k k' then (k, v) :: d' else (k', v') :: dict_set k v d'
  end.

Record LLMRequest : Type := {
  model_list : list string;
  request_type : string;
  model_usage : list (string * Score)
}.

Definition set_usage (self : LLMRequest) (usage : list (string * Score)) : LLMRequest :=
  {| model_list := model_list self; request_type := request_type self; model_usage := usage |}.

(** [LLMRequest.__init__]: one (0, 0, 0) entry per configured model. *)
Definition init (models : list string) (request_type : string) : LLMRequest :=
  {| model_list := models;
     request_type := request_type;
     model_usage := fold_left (fun d model => dict_set model (0, 0, 0) d) models [] |}.

Definition usage_penalty_of (self : LLMRequest) (model : string) : option Z :=
  match dict_get model (model_usage self) with
  | Some (_, _, usage_penalty) => Some usage_penalty
  | None => None
  end.

Definition penalty_of (self : LLMRequest) (model : string) : option Z :=
  match dict_get model (model_usage self) with
  | Some (_, penalty, _) => Some penalty
  | None => None
  end.

Definition total_tokens_of (self : LLMRequest) (model : string) : option Z :=
  match dict_get model (model_usage self) with
  | Some (total_tokens, _, _) => Some total_tokens
  | None => None
  end.

(** *** [_select_model] *)

Definition cost (scores : Score) : Z :=
  let '(total_tokens, penalty, usage_penalty) := scores in
  total_tokens + penalty * 300 + usage_penalty * 1000.

(** [not exclude_models or model not in exclude_models] *)
Definition is_available (exclude_models : option (gset string)) (model : string) : bool :=
  match exclude_models with
  | None => true
  | Some ex => bool_decide (ex = ∅) || negb (bool_decide (model ∈ ex))
  end.

Definition available_models (usage : list (string * Score))
    (exclude_models : option (gset string)) : list (string * Score) :=
  List.filter (fun kv => is_available exclude_models kv.1) usage.

(** [min(iterable, key=...)]: the first element whose key is least. *)
Fixpoint min_from {A : Type} (key : A -> Z) (best : A) (l : list A) : A :=
  match l with
  | [] => best
  | x :: l' => min_from key (if key x <? key best then x else best) l'
  end.

Definition py_min {A : Type} (key : A -> Z) (l : list A) : option A :=
  match l with
  | [] => None
  | x :: l' => Some (min_from key x l')
  end.

Definition no_model_available : PyExc :=
  RuntimeError "no model left to select: every model has been tried and failed".

Definition _select_model `{Backend} (self : LLMRequest) (exclude_models : option (gset string))
  : Outcome (ModelInfo * APIProvider * Client) * LLMRequest :=
  let available := available_models (model_usage self) exclude_models in
  match py_min (fun kv => cost kv.2) available with
  | None => (Raise no_model_available, self)
  | Some (least_used_model_name, _) =>
      let model_info := get_model_info least_used_model_name in
      let provider := get_provider (api_provider model_info) in
      let force_new_client := String.eqb (request_type self) "embedding" in
      let client := {| client_provider := provider; force_new := force_new_client |} in
      match dict_get (name model_info) (model_usage self) with
      | None => (Raise (KeyError (name model_info)), self)
      | Some (total_tokens, penalty, usage_penalty) =>
          (Return (model_info, provider, client),
           set_usage self (dict_set (name model_info)
                             (total_tokens, penalty, usage_penalty + 1) (model_usage self)))
      end
  end.

(** The model record, provider and client that [_select_model] returns for
    the model of a given name, in a dispatcher of request type [rt_name]. *)
Definition endpoint `{Backend} (rt_name : string) (model : string)
  : ModelInfo * APIProvider * Client :=
  let model_info := get_model_info model in
  let provider := get_provider (api_provider model_info) in
  (model_info, provider,
   {| client_provider := provider; force_new := String.eqb rt_name "embedding" |}).

(** The model is in the exclusion set handed to the selector. *)
Definition excludes (exclude_models : option (gset string)) (model : string) : Prop :=
  match exclude_models with
  | Some ex => model ∈ ex
  | None => False
  end.

(** The name of the model a selection returned. *)
Definition chosen (o : Outcome (ModelInfo * APIProvider * Client)) : option string :=
  match o with
  | Return (model_info, _, _) => Some (name model_info)
  | Raise _ => None
  end.

(** *** [_attempt_request_on_model] *)

(** Truth value of a list, and of an optional list. *)
Definition truthy {A : Type} (l : list A) : bool :=
  match l with [] => false | _ :: _ => true end.

Definition truthy_opt {A : Type} (o : option (list A)) : bool :=
  match o with Some l => truthy l | None => false end.

(** [compressed_messages or message_list] *)
Definition py_or {A : Type} (o : option (list A)) (l : list A) : list A :=
  match o with
  | Some (x :: l') => x :: l'
  | _ => l
  end.

(** The failures the retry engine counts as transient: a network error, an
    empty response, HTTP 429 and HTTP 5xx and above. *)
Definition is_transient (e : PyExc) : bool :=
  match e with
  | EmptyResponseException | NetworkConnectionError => true
  | RespNotOkException status_code => (status_code =? 429) || (500 <=? status_code)
  | _ => false
  end.

(** One pass of the [while] loop either leaves the function or goes round
    again with a new payload cache and retry budget. *)
Inductive StepResult `{Backend} : Type :=
| Done (o : Outcome APIResponse)
| Again (compressed_messages : option (list Message)) (retry_remain : Z).

Section Attempt.
Context `{Backend}.
Variables (model_info : ModelInfo) (provider : APIProvider) (client : Client)
          (request_type : RequestType) (message_list : list Message)
          (params : GenParams) (embedding_input audio_base64 : option string).

Definition call (r : Request Message GenParams) (env : Env) : Outcome APIResponse * Env :=
  let '(o, w) := client_call r (world env) in
  (o, {| world := w; trace := trace env ++ [EvCall r] |}).

(** The client method the [try] body awaits for the request type, with its
    arguments; [None] when the [assert] on the input fails. *)
Definition request_for (compressed_messages : option (list Message))
  : option (Request Message GenParams) :=
  match request_type with
  | RESPONSE =>
      Some (ReqResponse client model_info (py_or compressed_messages message_list) params)
  | EMBEDDING =>
      match embedding_input with
      | None => None
      | Some input => Some (ReqEmbedding client model_info input)
      end
  | AUDIO =>
      match audio_base64 with
      | None => None
      | Some audio => Some (ReqAudio client model_info audio)
      end
  end.

(** The body of the [try]. *)
Definition send (compressed_messages : option (list Message)) (env : Env)
  : Outcome APIResponse * Env :=
  match request_for compressed_messages with
  | Some r => call r env
  | None => (Raise AssertionError, env)
  end.

(** The handler shared by the transient errors: one retry less, then give
    up or sleep [retry_interval] and go round again. *)
Definition transient (e : PyExc) (compressed_messages : option (list Message))
    (retry_remain : Z) (env : Env) : StepResult * Env :=
  let retry_remain := retry_remain - 1 in
  if retry_remain <=? 0
  then (Done (Raise (ModelAttemptFailed RetriesExhausted (Some e))), env)
  else (Again compressed_messages retry_remain, log (EvSleep (retry_interval provider)) env).

Definition attempt_step (compressed_messages : option (list Message))
    (retry_remain : Z) (env : Env) : StepResult * Env :=
  match send compressed_messages env with
  | (Return response, env1) => (Done (Return response), env1)
  | (Raise e, env1) =>
      match e with
      | EmptyResponseException | NetworkConnectionError =>
          transient e compressed_messages retry_remain env1
      | RespNotOkException status_code =>
          if (status_code =? 429) || (status_code >=? 500)
          then transient e compressed_messages retry_remain env1
          else if (status_code =? 413) && truthy message_list
                  && negb (truthy_opt compressed_messages)
          then (Again (Some (compress_messages message_list)) retry_remain,
                log (EvCompress message_list) env1)
          else (Done (Raise (ModelAttemptFailed HardError (Some e))), env1)
      | CancelledError => (Done (Raise CancelledError), env1)
      | _ => (Done (Raise (ModelAttemptFailed HardError (Some e))), env1)
      end
  end.

(** The shapes a pass of the loop can take: the result and the environment
    it leaves, given the environment [env1] the client call left. *)
Inductive step_shape (c : option (list Message)) (r : Z) (env1 : Env)
  : StepResult * Env -> Prop :=
| shape_return resp : step_shape c r env1 (Done (Return resp), env1)
| shape_cancel : step_shape c r env1 (Done (Raise CancelledError), env1)
| shape_exhausted e :
    is_transient e = true -> r - 1 <= 0 ->
    step_shape c r env1 (Done (Raise (ModelAttemptFailed RetriesExhausted (Some e))), env1)
| shape_hard e :
    is_transient e = false ->
    step_shape c r env1 (Done (Raise (ModelAttemptFailed HardError (Some e))), env1)
| shape_sleep e :
    is_transient e = true -> 0 < r - 1 ->
    step_shape c r env1 (Again c (r - 1), log (EvSleep (retry_interval provider)) env1)
| shape_compress :
    truthy message_list = true -> truthy_opt c = false ->
    step_shape c r env1 (Again (Some (compress_messages message_list)) r,
                         log (EvCompress message_list) env1).

(** [while retry_remain > 0: ...], then the final [raise]. The loop can go
    round without using up the budget (the 413 branch), so it runs on
    [fuel]: [None] means the fuel ran out first. *)
Fixpoint attempt_loop (fuel : nat) (compressed_messages : option (list Message))
    (retry_remain : Z) (env : Env) : option (Outcome APIResponse * Env) :=
  if retry_remain >? 0 then
    match fuel with
    | O => None
    | S fuel' =>
        match attempt_step compressed_messages retry_remain env with
        | (Done o, env1) => Some (o, env1)
        | (Again compressed_messages' retry_remain', env1) =>
            attempt_loop fuel' compressed_messages' retry_remain' env1
        end
    end
  else Some (Raise (ModelAttemptFailed NotAttempted None), env).

Definition _attempt_request_on_model (fuel : nat)
    (compressed_messages : option (list Message)) (env : Env)
  : option (Outcome APIResponse * Env) :=
  attempt_loop fuel compressed_messages (max_retry provider) env.

End Attempt.

(** *** [_execute_request] *)

(** The [except ModelAttemptFailed] handler's update of the score table;
    [None] is the [KeyError] of the subscript. *)
Definition penalize (self : LLMRequest) (model : string) : option LLMRequest :=
  match dict_get model (model_usage self) with
  | None => None
  | Some (total_tokens, penalty, usage_penalty) =>
      Some (set_usage self (dict_set model (total_tokens, penalty + 1, usage_penalty)
                              (model_usage self)))
  end.

(** The [finally] clause. *)
Definition release (self : LLMRequest) (model : string) : option LLMRequest :=
  match dict_get model (model_usage self) with
  | None => None
  | Some (total_tokens, penalty, usage_penalty) =>
      Some (if usage_penalty >? 0
            then set_usage self (dict_set model (total_tokens, penalty, usage_penalty - 1)
                                   (model_usage self))
            else self)
  end.

(** [isinstance(last_exception, RespNotOkException) and
    last_exception.status_code == 400] *)
Definition is_bad_request (e : PyExc) : bool :=
  match e with
  | RespNotOkException status_code => status_code =? 400
  | _ => false
  end.

(** [e.original_exception or e] *)
Definition surfaced (e : PyExc) : PyExc :=
  match e with
  | ModelAttemptFailed _ (Some original) => original
  | _ => e
  end.

(** How one pass of the [for] loop ends: [return], an exception that
    leaves [_execute_request], or the next pass with the loop variables
    [failed_models_this_request] and [last_exception]. *)
Inductive LoopResult `{Backend} : Type :=
| LoopReturn (response : APIResponse) (model_info : ModelInfo)
| LoopRaise (e : PyExc)
| LoopNext (failed_models_this_request : gset string) (last_exception : option PyExc).

Definition all_models_failed : PyExc :=
  RuntimeError "request failed: every available model has been tried and failed".

Section Execute.
Context `{Backend}.
Variables (request_type : RequestType)
          (message_factory : option (Client -> Outcome (list Message)))
          (params : GenParams) (embedding_input audio_base64 : option string).

(** [message_list = []], then [message_factory(client)] when a factory was
    given. The factory is the caller's function: it returns the message
    list or raises. *)
Definition build_messages (client : Client) : Outcome (list Message) :=
  match message_factory with
  | Some factory => factory client
  | None => Return []
  end.

(** Leaving the [try] statement through its [finally] clause. *)
Definition finally_ (self : LLMRequest) (model : string) (r : LoopResult) (env : Env)
  : LoopResult * LLMRequest * Env :=
  match release self model with
  | Some self' => (r, self', env)
  | None => (LoopRaise (KeyError model), self, env)
  end.

(** One pass of [for _attempt in range(max_attempts)]. The message list is
    built after the selection and before the [try] statement: an exception
    of the factory leaves [_execute_request] without passing through the
    [finally] clause. *)
Definition iteration (fuel : nat) (compressed_messages : option (list Message))
    (self : LLMRequest) (env : Env)
    (failed_models_this_request : gset string) (last_exception : option PyExc)
  : option (LoopResult * LLMRequest * Env) :=
  match _select_model self (Some failed_models_this_request) with
  | (Raise e, self1) => Some (LoopRaise e, self1, env)
  | (Return (model_info, provider, client), self1) =>
      let env1 := log (EvSelect (name model_info)) env in
      match build_messages client with
      | Raise e => Some (LoopRaise e, self1, env1)
      | Return message_list =>
          match _attempt_request_on_model model_info provider client request_type
                  message_list params embedding_input audio_base64
                  fuel compressed_messages env1 with
          | None => None
          | Some (Return response, env2) =>
              Some (finally_ self1 (name model_info) (LoopReturn response model_info) env2)
          | Some (Raise (ModelAttemptFailed msg original as e), env2) =>
              let last_exception := surfaced e in
              match penalize self1 (name model_info) with
              | None => Some (finally_ self1 (name model_info)
                                (LoopRaise (KeyError (name model_info))) env2)
              | Some self2 =>
                  let failed := failed_models_this_request ∪ {[ name model_info ]} in
                  if is_bad_request last_exception
                  then Some (finally_ self2 (name model_info)
                               (LoopRaise last_exception) env2)
                  else Some (finally_ self2 (name model_info)
                               (LoopNext failed (Some last_exception)) env2)
              end
          | Some (Raise e, env2) =>
              Some (finally_ self1 (name model_info) (LoopRaise e) env2)
          end
      end
  end.

Fixpoint execute_loop (fuel : nat) (compressed_messages : option (list Message))
    (attempts : nat) (self : LLMRequest) (env : Env)
    (failed_models_this_request : gset string) (last_exception : option PyExc)
  : option (LoopResult * LLMRequest * Env) :=
  match attempts with
  | O => Some (LoopNext failed_models_this_request last_exception, self, env)
  | S attempts' =>
      match iteration fuel compressed_messages self env
              failed_models_this_request last_exception with
      | None => None
      | Some (LoopNext failed last, self', env') =>
          execute_loop fuel compressed_messages attempts' self' env' failed last
      | Some r => Some r
      end
  end.

(** The dispatcher. [compressed_messages] is set to [None] before the loop
    and is not assigned again; every pass hands it to the attempt. [fuel]
    bounds each attempt's retry loop. *)
Definition _execute_request (fuel : nat) (self : LLMRequest) (env : Env)
  : option (Outcome (APIResponse * ModelInfo) * LLMRequest * Env) :=
  let max_attempts := length (model_list self) in
  let compressed_messages : option (list Message) := None in
  match execute_loop fuel compressed_messages max_attempts self env ∅ None with
  | None => None
  | Some (LoopReturn response model_info, self', env') =>
      Some (Return (response, model_info), self', env')
  | Some (LoopRaise e, self', env') => Some (Raise e, self', env')
  | Some (LoopNext _ (Some last_exception), self', env') =>
      Some (Raise last_exception, self', env')
  | Some (LoopNext _ None, self', env') => Some (Raise all_models_failed, self', env')
  end.

End Execute.

(** The factory returns a message list for every client; so does a request
    made without a factory. *)
Definition factory_returns `{Backend}
    (message_factory : option (Client -> Outcome (list Message))) : Prop :=
  forall client, exists message_list,
    build_messages message_factory client = Return message_list.

(** The dispatching part of [get_embedding] and
    [generate_response_for_voice]: neither passes a message factory. *)
Definition get_embedding `{Backend} (fuel : nat) (embedding_input : string)
    (self : LLMRequest) (env : Env) :=
  _execute_request EMBEDDING None default_params (Some embedding_input) None fuel self env.

Definition generate_response_for_voice `{Backend} (fuel : nat) (voice_base64 : string)
    (self : LLMRequest) (env : Env) :=
  _execute_request AUDIO None default_params None (Some voice_base64) fuel self env.

(** *** Observations on a trace *)

Definition is_compress `{Backend} (ev : Event Message GenParams) : bool :=
  match ev with EvCompress _ => true | _ => false end.

Definition is_call `{Backend} (ev : Event Message GenParams) : bool :=
  match ev with EvCall _ => true | _ => false end.

Definition is_sleep `{Backend} (ev : Event Message GenParams) : bool :=
  match ev with EvSleep _ => true | _ => false end.

Definition is_select `{Backend} (ev : Event Message GenParams) : bool :=
  match ev with EvSelect _ => true | _ => false end.

Definition count `{Backend} (p : Event Message GenParams -> bool)
    (t : list (Event Message GenParams)) : nat :=
  length (List.filter p t).

(** A score with its failure penalty raised by one. *)
Definition bump (scores : Score) : Score :=
  let '(total_tokens, penalty, usage_penalty) := scores in
  (total_tokens, penalty + 1, usage_penalty).

(** Every in-flight penalty of the table is non-negative. *)
Definition usage_nonneg (self : LLMRequest) : Prop :=
  Forall (fun kv => 0 <= kv.2.2) (model_usage self).

(** *** A scripted backend for concrete runs

    The outside world is the list of answers the providers will give, one
    per call; a provider that is asked beyond the script does not answer.
    The provider of model [off] is configured with no retry. *)
Definition scripted : Backend := {|
  Message := string;
  GenParams := unit;
  APIResponse := string;
  World := list (Outcome string);
  model_api_provider := fun m => m;
  get_provider := fun p =>
    {| provider_name := p;
       max_retry := if String.eqb p "off" then 0 else 3;
       retry_interval := 10 |};
  client_call := fun _ w =>
    match w with
    | [] => (Raise NetworkConnectionError, [])
    | o :: w' => (o, w')
    end;
  compress_messages := List.map (fun m => String.append "short " m);
  default_params := tt
|}.

Definition start (script : list (Outcome string)) : @Env scripted :=
  @Build_Env scripted script [].

(** The client, and the [get_response] call, for a model of the scripted
    backend in a dispatcher that is not an embedding one. *)
Definition client_of (model : string) : Client :=
  (@endpoint scripted "chat" model).2.

Definition chat_call (model : string) (messages : list string)
  : Event string unit :=
  EvCall (ReqResponse (client_of model) (@get_model_info scripted model) messages tt).

Definition too_large : Outcome string := Raise (RespNotOkException 413).

(** The factory of [generate_response_async]: one message, the prompt. *)
Definition prompt_factory (prompt : string)
  : option (Client -> Outcome (list string)) :=
  Some (fun _ => Return [prompt]).

(** A factory that raises for every client, as a factory does that cannot
    build its message for what the client supports. *)
Definition failing_factory (e : PyExc) : option (Client -> Outcome (list string)) :=
  Some (fun _ => Raise e).

End Dispatcher.

(** ** Observations on a request, and a backend for edge cases *)

Module Observe.
Import Dispatcher.

(** The models selected along a trace, in order. *)
Fixpoint selected_models `{Backend} (t : list (Event Message GenParams)) : list string :=
  match t with
  | [] => []
  | EvSelect m :: t' => m :: selected_models t'
  | _ :: t' => selected_models t'
  end.

(** What a request may change in a dispatcher: the configuration, the keys
    of the table and their order, and the token totals stay; failure
    penalties do not go down. *)
Definition table_frame (self self' : LLMRequest) : Prop :=
  model_list self' = model_list self
  /\ request_type self' = request_type self
  /\ (model_usage self').*1 = (model_usage self).*1
  /\ (forall m, total_tokens_of self' m = total_tokens_of self m)
  /\ (forall m p, penalty_of self m = Some p ->
                  exists p', penalty_of self' m = Some p' /\ p <= p').

(** A score with its in-flight penalty raised by one, as the selection
    leaves it. *)
Definition hold (scores : Score) : Score :=
  let '(total_tokens, penalty, usage_penalty) := scores in
  (total_tokens, penalty, usage_penalty + 1).

(** A backend whose compressor returns no message at all and whose
    providers answer 413 to every call. *)
Definition stubborn : Backend := {|
  Message := string;
  GenParams := unit;
  APIResponse := string;
  World := unit;
  model_api_provider := fun m => m;
  get_provider := fun p => {| provider_name := p; max_retry := 2; retry_interval := 1 |};
  client_call := fun _ w => (Raise (RespNotOkException 413), w);
  compress_messages := fun _ => [];
  default_params := tt
|}.

End Observe.
(** ** The ends of a string *)

Module Edges.
Import Reasoning.

Definition first_char (s : string) : option ascii :=
  match s with
  | EmptyString => None
  | String c _ => Some c
  end.

Fixpoint last_char (s : string) : option ascii :=
  match s with
  | EmptyString => None
  | String c EmptyString => Some c
  | String _ s' => last_char s'
  end.

(** The string neither starts nor ends with white space. *)
Definition trimmed (s : string) : Prop :=
  (forall c, first_char s = Some c -> py_isspace c = false)
  /\ (forall c, last_char s = Some c -> py_isspace c = false).

End Edges.

(** ** What the entry points return from a response *)

Module Replies.
Import Reasoning.

(** [s or ""] on an optional string. *)
Definition or_empty (s : option string) : string := default EmptyString s.

(** Python's truth value of a string. *)
Definition nonempty (s : string) : bool :=
  match s with EmptyString => false | String _ _ => true end.

(** The content and the reasoning [generate_response_for_image] returns,
    from [response.content] and [response.reasoning_content]. *)
Definition reply_for_image (content reasoning_content : option string)
  : string * string :=
  let content := or_empty content in
  let reasoning_content := or_empty reasoning_content in
  if negb (nonempty reasoning_content) && nonempty content
  then _extract_reasoning content
  else (content, reasoning_content).

(** The content and the reasoning [generate_response_async] returns: the
    content is taken as the response has it. *)
Definition reply_async (content reasoning_content : option string)
  : option string * string :=
  let reasoning_content := or_empty reasoning_content in
  match content with
  | Some (String c s) =>
      if negb (nonempty reasoning_content)
      then (Some (_extract_reasoning (String c s)).1, (_extract_reasoning (String c s)).2)
      else (content, reasoning_content)
  | _ => (content, reasoning_content)
  end.

(** What [generate_response_for_voice] returns: [response.content or None]. *)
Definition reply_for_voice (content : option string) : option string :=
  match content with
  | Some (String c s) => Some (String c s)
  | _ => None
  end.

End Replies.
(** ** The image proxy: [webui/image_proxy/proxy_manager.py] and
    [webui/image_proxy/transcoder.py] *)

From Stdlib Require DecimalString.

Module ImageProxy.

(** *** Paths and names *)

(** [os.path.join(a, b)] on a POSIX system. *)
Definition os_path_join (a b : string) : string :=
  match b with
  | String "/" _ => b
  | _ =>
      match a with
      | EmptyString => b
      | _ => if String.eqb (String.substring (String.length a - 1) 1 a) "/"
             then a +:+ b
             else a +:+ "/" +:+ b
      end
  end.

Definition PROXY_DIR : string := os_path_join "data" "emoji_proxy".
Definition MAX_CONCURRENT_TRANSCODE : nat := 2.
Definition MAX_ANIMATION_FRAMES : Z := 150.
Definition SUPPORTED_FORMATS : list string := ["png"; "jpg"; "jpeg"; "gif"; "webp"; "bmp"].

(** [str.lower()] on code points below 256: the letters A-Z and the
    Latin-1 capitals U+00C0..U+00DE other than the multiplication sign. *)
Definition lower_char (c : ascii) : ascii :=
  let n := nat_of_ascii c in
  if ((65 <=? n)%nat && (n <=? 90)%nat)
     || ((192 <=? n)%nat && (n <=? 222)%nat && negb (n =? 215)%nat)
  then ascii_of_nat (n + 32)
  else c.

Fixpoint lower (s : string) : string :=
  match s with
  | EmptyString => EmptyString
  | String c s' => String (lower_char c) (lower s')
  end.

(** The part of [s] before its last ["."]; [None] when it has none. *)
Fixpoint before_last_dot (s : string) : option string :=
  match s with
  | EmptyString => None
  | String c s' =>
      match before_last_dot s' with
      | Some r => Some (String c r)
      | None => if Ascii.eqb c "." then Some EmptyString else None
      end
  end.

(** [filename.rsplit(".", 1)[0]] *)
Definition hash_part (filename : string) : string :=
  default filename (before_last_dot filename).

Record Emoji : Type := {
  emoji_hash : string;
  format : string;
  full_path : string
}.

Definition get_cache_path (emoji_hash : string) : string :=
  os_path_join PROXY_DIR (emoji_hash +:+ ".webp").

Definition get_skip_marker_path (emoji_hash : string) : string :=
  os_path_join PROXY_DIR (emoji_hash +:+ ".skip").

(** *** The file system: the files that exist, with their sizes *)

Definition exists_ (fs : gmap string nat) (path : string) : bool :=
  bool_decide (is_Some (fs !! path)).

Definition get_cached_proxy_path (fs : gmap string nat) (emoji : Emoji) : option string :=
  let cache_path := get_cache_path (emoji_hash emoji) in
  if exists_ fs cache_path then Some cache_path else None.

Definition should_skip_transcode (fs : gmap string nat) (emoji : Emoji) : bool :=
  exists_ fs (get_skip_marker_path (emoji_hash emoji)).

(** *** The manager *)

Inductive Task : Type :=
| WorkerTask (worker_id : nat)
| CleanupTask.

Record ProxyManager : Type := {
  _pending_hashes : gset string;
  _transcode_queue : list (string * string);
  _workers_started : bool;
  _worker_tasks : list Task
}.

(** [ProxyManager.__init__] *)
Definition new_manager : ProxyManager :=
  {| _pending_hashes := ∅; _transcode_queue := [];
     _workers_started := false; _worker_tasks := [] |}.

(** [enqueue_transcode]: the answer and the manager it leaves. *)
Definition enqueue_transcode (fs : gmap string nat) (emoji : Emoji) (self : ProxyManager)
  : bool * ProxyManager :=
  if negb (bool_decide (lower (format emoji) ∈ SUPPORTED_FORMATS)) then (false, self)
  else if bool_decide (emoji_hash emoji ∈ _pending_hashes self) then (false, self)
  else if bool_decide (is_Some (get_cached_proxy_path fs emoji))
          || should_skip_transcode fs emoji then (false, self)
  else if negb (exists_ fs (full_path emoji)) then (false, self)
  else (true,
        {| _pending_hashes := _pending_hashes self ∪ {[ emoji_hash emoji ]};
           _transcode_queue := _transcode_queue self ++ [(emoji_hash emoji, full_path emoji)];
           _workers_started := _workers_started self;
           _worker_tasks := _worker_tasks self |}).

(** [start_workers] and [stop_workers], each run to its end. *)
Definition start_workers (self : ProxyManager) : ProxyManager :=
  if _workers_started self then self
  else {| _pending_hashes := _pending_hashes self;
          _transcode_queue := _transcode_queue self;
          _workers_started := true;
          _worker_tasks := _worker_tasks self
                           ++ List.map WorkerTask (seq 0 MAX_CONCURRENT_TRANSCODE)
                           ++ [CleanupTask] |}.

Definition stop_workers (self : ProxyManager) : ProxyManager :=
  if negb (_workers_started self) then self
  else {| _pending_hashes := _pending_hashes self;
          _transcode_queue := _transcode_queue self;
          _workers_started := false;
          _worker_tasks := [] |}.

(** *** The transcoder *)

(** [_convert_image_mode], on the mode of the image: [Image.convert(m)]
    gives an image of mode [m]. *)
Definition _convert_image_mode (mode : string) : string :=
  if bool_decide (mode ∈ ["P"; "LA"]) then "RGBA"
  else if negb (bool_decide (mode ∈ ["RGB"; "RGBA"])) then "RGB"
  else mode.

(** What the imaging library does when asked to save to the temporary
    path: it writes a file of some size, or raises, leaving nothing or a
    partial file. *)
Inductive Encoding : Type :=
| Encoded (webp_size : nat)
| EncodeError (partial : option nat).

(** An opened image: what the transcoder reads of it, and what saving it
    does. Frame [i] has a mode and an optional duration. *)
Record ImageFile : Type := {
  is_animated : bool;
  n_frames : Z;
  frame_mode : nat -> string;
  frame_duration : nat -> option Z;
  save_static : Encoding;
  save_animated : Encoding
}.

(** The frames and durations [_transcode_animated] collects: one per
    [frame_num] in [range(img.n_frames)], each converted, the duration
    defaulting to 100. *)
Definition animated_frames (img : ImageFile) : list string * list Z :=
  let nums := seq 0 (Z.to_nat (n_frames img)) in
  (List.map (fun i => _convert_image_mode (frame_mode img i)) nums,
   List.map (fun i => default 100 (frame_duration img i)) nums).

(** The modes of the frames handed to the encoder by the branch
    [_transcode_sync] takes. *)
Definition frames_encoded (img : ImageFile) : list string :=
  if is_animated img && (n_frames img >? 1)
  then if n_frames img >? MAX_ANIMATION_FRAMES
       then [_convert_image_mode (frame_mode img 0)]
       else (animated_frames img).1
  else [_convert_image_mode (frame_mode img 0)].

Definition encode (img : ImageFile) : Encoding :=
  if is_animated img && (n_frames img >? 1)
  then if n_frames img >? MAX_ANIMATION_FRAMES
       then save_static img
       else match (animated_frames img).1 with
            | [] => EncodeError None
            | _ :: _ => save_animated img
            end
  else save_static img.

(** The file operations that fail, when they are attempted. Writing a
    marker succeeds ([None]), fails at [open] ([Some None]) or fails after
    [open] has created the file, leaving some bytes ([Some (Some n)]). *)
Record Faults : Type := {
  makedirs_fails : bool;
  remove_fails : string -> bool;
  rename_fails : bool;
  write_fails : string -> option (option nat)
}.

(** The [except Exception] clause of [_transcode_sync]. *)
Definition transcode_failed (flt : Faults) (temp_path : string) (fs : gmap string nat)
  : (bool * nat * nat) * gmap string nat :=
  ((false, 0%nat, 0%nat),
   if exists_ fs temp_path && negb (remove_fails flt temp_path)
   then delete temp_path fs
   else fs).

(** [_transcode_sync]: [opened] is what [Image.open(source_path)] gives
    ([None] when it raises). *)
Definition _transcode_sync (flt : Faults) (opened : option ImageFile)
    (source_path target_path : string) (fs : gmap string nat)
  : (bool * nat * nat) * gmap string nat :=
  let temp_path := target_path +:+ ".tmp" in
  match fs !! source_path with
  | None => transcode_failed flt temp_path fs
  | Some original_size =>
      if makedirs_fails flt then transcode_failed flt temp_path fs else
      match opened with
      | None => transcode_failed flt temp_path fs
      | Some img =>
          match encode img with
          | EncodeError None => transcode_failed flt temp_path fs
          | EncodeError (Some n) => transcode_failed flt temp_path (<[temp_path := n]> fs)
          | Encoded webp_size =>
              let fs1 := <[temp_path := webp_size]> fs in
              let renamed (fs2 : gmap string nat) :=
                if rename_fails flt then transcode_failed flt temp_path fs2
                else
                  let fs3 := <[target_path := webp_size]> (delete temp_path fs2) in
                  (* the log line divides by original_size *)
                  if (original_size =? 0)%nat then transcode_failed flt temp_path fs3
                  else ((true, original_size, webp_size), fs3) in
              if exists_ fs1 target_path
              then if remove_fails flt target_path
                   then transcode_failed flt temp_path fs1
                   else renamed (delete target_path fs1)
              else renamed fs1
          end
      end
  end.

(** [transcode_to_webp] runs [_transcode_sync] in the executor. *)
Definition transcode_to_webp := _transcode_sync.

(** The text written to a skip marker. *)
Definition skip_marker_text (original_size webp_size : nat) : string :=
  "original:" +:+ DecimalString.NilZero.string_of_uint (Nat.to_uint original_size)
  +:+ ",webp:" +:+ DecimalString.NilZero.string_of_uint (Nat.to_uint webp_size).

(** [_do_transcode] *)
Definition _do_transcode (flt : Faults) (opened : option ImageFile)
    (emoji_hash source_path : string) (fs : gmap string nat) : gmap string nat :=
  if negb (exists_ fs source_path) then fs else
  let cache_path := get_cache_path emoji_hash in
  let skip_path := get_skip_marker_path emoji_hash in
  if exists_ fs cache_path || exists_ fs skip_path then fs else
  let '((success, original_size, webp_size), fs1) :=
    transcode_to_webp flt opened source_path cache_path fs in
  if negb success then fs1 else
  if (original_size <=? webp_size)%nat then
    let fs2 := if exists_ fs1 cache_path && negb (remove_fails flt cache_path)
               then delete cache_path fs1 else fs1 in
    match write_fails flt skip_path with
    | None => <[skip_path := String.length (skip_marker_text original_size webp_size)]> fs2
    | Some None => fs2
    | Some (Some n) => <[skip_path := n]> fs2
    end
  else fs1.

(** *** Cleaning the cache directory *)

(** The loop of [_cleanup_stale_cache_sync] over the names [os.listdir]
    gave: the count, and the names whose removal succeeded. *)
Fixpoint cleanup_loop (valid_hashes : gset string) (remove_ok : string -> bool)
    (filenames : list string) (cleaned_count : nat) (removed : list string)
  : nat * list string :=
  match filenames with
  | [] => (cleaned_count, removed)
  | filename :: rest =>
      if negb (bool_decide (hash_part filename ∈ valid_hashes)) && remove_ok filename
      then cleanup_loop valid_hashes remove_ok rest (S cleaned_count) (removed ++ [filename])
      else cleanup_loop valid_hashes remove_ok rest cleaned_count removed
  end.

(** [_cleanup_stale_cache_sync]: [valid_hashes] is [None] when the
    database query raises, [listing] is [None] when [PROXY_DIR] does not
    exist. *)
Definition _cleanup_stale_cache_sync (valid_hashes : option (gset string))
    (listing : option (list string)) (remove_ok : string -> bool) : nat * list string :=
  match valid_hashes with
  | None => (0%nat, [])
  | Some valid =>
      match listing with
      | None => (0%nat, [])
      | Some filenames => cleanup_loop valid remove_ok filenames 0 []
      end
  end.

(** *** [get_proxy_or_original] *)

(** [guess] is the answer of [mimetypes.guess_type] for the emoji's path. *)
Definition get_proxy_or_original (fs : gmap string nat) (guess : option string)
    (emoji : Emoji) (self : ProxyManager) : (string * string) * ProxyManager :=
  match get_cached_proxy_path fs emoji with
  | Some proxy_path => ((proxy_path, "image/webp"), self)
  | None =>
      let mime_type :=
        match guess with
        | Some (String c s) => String c s
        | _ => "application/octet-stream"
        end in
      if should_skip_transcode fs emoji then ((full_path emoji, mime_type), self)
      else ((full_path emoji, mime_type), (enqueue_transcode fs emoji self).2)
  end.

(** *** The workers, between their suspension points

    A worker takes the item at the head of the queue, transcodes it while
    other coroutines run, then drops its hash from the pending set.
    [running] holds the items the workers have taken and not finished. *)
Record Pool : Type := {
  manager : ProxyManager;
  running : list (string * string)
}.

Definition set_queue (self : ProxyManager) (pending : gset string)
    (queue : list (string * string)) : ProxyManager :=
  {| _pending_hashes := pending; _transcode_queue := queue;
     _workers_started := _workers_started self; _worker_tasks := _worker_tasks self |}.

Inductive pool_step : Pool -> Pool -> Prop :=
| step_enqueue (fs : gmap string nat) (emoji : Emoji) (p : Pool) :
    pool_step p {| manager := (enqueue_transcode fs emoji (manager p)).2;
                   running := running p |}
| step_take (item : string * string) (rest : list (string * string)) (p : Pool) :
    _transcode_queue (manager p) = item :: rest ->
    pool_step p {| manager := set_queue (manager p) (_pending_hashes (manager p)) rest;
                   running := running p ++ [item] |}
| step_finish (before after : list (string * string)) (item : string * string) (p : Pool) :
    running p = before ++ item :: after ->
    pool_step p {| manager := set_queue (manager p)
                                (_pending_hashes (manager p) ∖ {[ item.1 ]})
                                (_transcode_queue (manager p));
                   running := before ++ after |}
| step_start (p : Pool) :
    pool_step p {| manager := start_workers (manager p); running := running p |}
| step_stop (p : Pool) :
    pool_step p {| manager := stop_workers (manager p); running := running p |}.

Inductive reachable : Pool -> Prop :=
| reach_new : reachable {| manager := new_manager; running := [] |}
| reach_step (p q : Pool) : reachable p -> pool_step p q -> reachable q.

(** A file system and an emoji for concrete runs. *)
Definition sample_emoji : Emoji :=
  {| emoji_hash := "abc123"; format := "PNG"; full_path := "data/emoji/cat.png" |}.

Definition sample_fs : gmap string nat := {[ "data/emoji/cat.png" := 2048%nat ]}.

Definition no_faults : Faults :=
  {| makedirs_fails := false; remove_fails := fun _ => false;
     rename_fails := false; write_fails := fun _ => None |}.

Definition still_image (enc : Encoding) : ImageFile :=
  {| is_animated := false; n_frames := 1; frame_mode := fun _ => "P";
     frame_duration := fun _ => None; save_static := enc; save_animated := enc |}.

End ImageProxy.


(** * Properties *)

(** ** Reasoning extraction *)

Section ReasoningFacts.
Import Reasoning.

Lemma app_cons (c : ascii) (s t : string) : String c s +:+ t = String c (s +:+ t).
Proof. reflexivity. Qed.

Lemma app_assoc_s (s t u : string) : (s +:+ t) +:+ u = s +:+ (t +:+ u).
Proof.
  induction s as [|c s IH]; [reflexivity|].
  rewrite !app_cons. by rewrite IH.
Qed.

Lemma strip_prefix_app (p rest : string) : strip_prefix p (p +:+ rest) = Some rest.
Proof.
  induction p as [|a p IH]; [reflexivity|].
  rewrite app_cons. simpl. by rewrite Ascii.eqb_refl.
Qed.

Lemma strip_prefix_Some (p s r : string) : strip_prefix p s = Some r -> s = p +:+ r.
Proof.
  revert s. induction p as [|a p IH]; intros s Hs.
  - simpl in Hs. by inversion Hs.
  - destruct s as [|b s]; [discriminate|]. simpl in Hs.
    destruct (Ascii.eqb a b) eqn:Hab; [|discriminate].
    apply Ascii.eqb_eq in Hab as ->. rewrite app_cons. f_equal. by apply IH.
Qed.

(** A failed prefix test does not look past the length of the prefix. *)
Lemma strip_prefix_None_app (p u v : string) :
  strip_prefix p u = None -> (String.length p <= String.length u)%nat ->
  strip_prefix p (u +:+ v) = None.
Proof.
  revert u. induction p as [|a p IH]; intros u Hp Hlen; [discriminate|].
  destruct u as [|b u]; [simpl in Hlen; lia|].
  rewrite app_cons. simpl in *.
  destruct (Ascii.eqb a b); [|reflexivity].
  apply IH; [assumption|lia].
Qed.

Lemma contains_tail (m : string) (c : ascii) (s : string) :
  contains m (String c s) = false ->
  strip_prefix m (String c s) = None /\ contains m s = false.
Proof.
  intros Hc. cbn [contains] in Hc.
  destruct (strip_prefix m (String c s)); [discriminate|]. by split.
Qed.

Lemma contains_suffix (m a b : string) :
  contains m (a +:+ b) = false -> contains m b = false.
Proof.
  induction a as [|c a IH]; [done|].
  rewrite app_cons. intros Hc. apply contains_tail in Hc as [_ Hc]. by apply IH.
Qed.

Lemma contains_head (m s : string) :
  contains m s = false -> strip_prefix m s = None.
Proof.
  destruct s as [|c s]; intros Hc.
  - simpl in Hc. by destruct (strip_prefix m "").
  - by apply contains_tail in Hc as [? _].
Qed.

Lemma lazy_none (s : string) :
  contains think_close s = false -> lazy_until_close s = None.
Proof.
  induction s as [|c s IH]; intros Hc.
  - reflexivity.
  - pose proof (contains_head _ _ Hc) as Hh.
    apply contains_tail in Hc as [_ Hc].
    cbn [lazy_until_close]. rewrite Hh, (IH Hc). reflexivity.
Qed.

Lemma match_here_none (s : string) :
  contains think_close s = false -> match_here s = None.
Proof.
  intros Hc. unfold match_here. rewrite (lazy_none s Hc).
  destruct (strip_prefix think_open s) as [s'|] eqn:Hs; [|reflexivity].
  apply strip_prefix_Some in Hs. subst s.
  by rewrite (lazy_none s' (contains_suffix _ _ _ Hc)).
Qed.

Lemma re_search_none (s : string) :
  contains think_close s = false -> re_search s = None.
Proof.
  induction s as [|c s IH]; intros Hc.
  - reflexivity.
  - cbn [re_search]. rewrite (match_here_none _ Hc).
    apply contains_tail in Hc as [_ Hc]. by rewrite (IH Hc).
Qed.

(** [contains] decides the occurrence of [m] somewhere in [s]. *)
Lemma contains_spec (m s : string) :
  contains m s = true <-> exists a b, s = a +:+ m +:+ b.
Proof.
  split.
  - induction s as [|c s IH]; cbn [contains].
    + destruct (strip_prefix m "") as [r|] eqn:Hp; [|discriminate].
      intros _. exists "", r. exact (strip_prefix_Some _ _ _ Hp).
    + destruct (strip_prefix m (String c s)) as [r|] eqn:Hp.
      * intros _. exists "", r. exact (strip_prefix_Some _ _ _ Hp).
      * intros Hc. destruct (IH Hc) as (a & b & ->). by exists (String c a), b.
  - intros (a & b & ->). induction a as [|c a IH].
    + change ("" +:+ m +:+ b) with (m +:+ b).
      destruct (m +:+ b) as [|c r] eqn:Hmb; cbn [contains]; rewrite <- Hmb;
        by rewrite strip_prefix_app.
    + rewrite app_cons. cbn [contains]. rewrite IH.
      by destruct (strip_prefix m _).
Qed.
(** The lazy star stops at the first end marker: when none begins inside
    [g], group 1 is exactly [g]. *)
Lemma lazy_first (g rest : string) :
  contains think_close (g +:+ "</think") = false ->
  lazy_until_close (g +:+ think_close +:+ rest) = Some (g, rest).
Proof.
  induction g as [|c g IH]; intros Hc.
  - reflexivity.
  - pose proof (contains_head _ _ Hc) as Hh.
    rewrite app_cons in Hc. apply contains_tail in Hc as [_ Hc].
    assert (strip_prefix think_close (String c g +:+ think_close +:+ rest) = None) as Hn.
    { change think_close with ("</think" +:+ ">").
      rewrite (app_assoc_s "</think" ">" rest), <- (app_assoc_s (String c g)).
      apply strip_prefix_None_app; [exact Hh|].
      clear. induction g as [|d g IH]; simpl in *; lia. }
    rewrite app_cons in Hn |- *. cbn [lazy_until_close]. rewrite Hn.
    by rewrite (IH Hc).
Qed.

(** A text without the opening marker does not start with it once the end
    marker is appended. *)
Lemma no_open_marker_prefix (pre rest : string) :
  contains think_open pre = false ->
  strip_prefix think_open (pre +:+ think_close +:+ rest) = None.
Proof.
  intros Hc. unfold think_open in *.
  do 7 (destruct pre as [|? pre]; [reflexivity|]; rewrite app_cons; cbn [strip_prefix];
        match goal with
        | |- context [Ascii.eqb ?a ?b] =>
            destruct (Ascii.eqb_spec a b) as [<-|]; [|reflexivity]
        end).
  simpl in Hc. discriminate.
Qed.

(** The example of the specification, where text stands before the opening
    marker: the pattern matches from the first character, the optional
    opening marker being tried at the start of the match only, and the
    code does not return ("abcdef", "reasoning"). *)
Lemma extract_reasoning_example_differs :
  _extract_reasoning "abc<think>reasoning</think>def" <> ("abcdef", "reasoning").
Proof. vm_compute. discriminate. Qed.

(** An input without any marker is stripped of its surrounding white space,
    not returned as it is. *)
Example extract_reasoning_strips_plain_text :
  _extract_reasoning " plain answer " = ("plain answer", "").
Proof. reflexivity. Qed.

(** C3, as stated: an input without any marker is not returned unchanged
    when white space surrounds it. *)
Lemma extract_reasoning_plain_text_not_unchanged :
  _extract_reasoning " plain answer " <> (" plain answer ", "").
Proof. vm_compute. discriminate. Qed.

(** C3, as the code has it by design: an input with no end marker comes
    back stripped of surrounding white space, with empty reasoning; an
    input that starts with a block gives the block's text, stripped, as
    reasoning and what follows the block, stripped, as content; so does an
    input whose first end marker has no opening marker before it (the
    opening marker is optional); and only the first block is extracted,
    later blocks staying in the content. An input with text before the
    opening marker is not covered. *)
Theorem extract_reasoning_first_close_only :
  (forall s : string,
     contains think_close s = false ->
     _extract_reasoning s = (strip s, ""))
  /\ (forall r rest : string,
        contains think_close (r +:+ "</think") = false ->
        _extract_reasoning (think_open +:+ r +:+ think_close +:+ rest)
        = (strip rest, strip r))
  /\ (forall pre rest : string,
        contains think_close (pre +:+ "</think") = false ->
        contains think_open pre = false ->
        _extract_reasoning (pre +:+ think_close +:+ rest) = (strip rest, strip pre))
  /\ _extract_reasoning "<think>reasoning</think>def" = ("def", "reasoning")
  /\ _extract_reasoning "<think>a</think>b<think>c</think>d" = ("b<think>c</think>d", "a").
Proof.
  split; [|split; [|split; [|split; reflexivity]]].
  - intros s Hc. unfold _extract_reasoning, re_sub_first.
    by rewrite (re_search_none s Hc).
  - intros r rest Hc.
    assert (re_search (think_open +:+ r +:+ think_close +:+ rest) = Some ("", r, rest)) as Hs.
    { change (think_open +:+ r +:+ think_close +:+ rest)
        with (String "<" ("think>" +:+ r +:+ think_close +:+ rest)).
      cbn [re_search].
      change (String "<" ("think>" +:+ r +:+ think_close +:+ rest))
        with (think_open +:+ r +:+ think_close +:+ rest).
      unfold match_here. rewrite strip_prefix_app, (lazy_first r rest Hc). reflexivity. }
    unfold _extract_reasoning, re_sub_first. rewrite Hs. reflexivity.
  - intros pre rest Hc Hopen.
    assert (re_search (pre +:+ think_close +:+ rest) = Some ("", pre, rest)) as Hs.
    { assert (match_here (pre +:+ think_close +:+ rest) = Some (pre, rest)) as Hm.
      { unfold match_here. rewrite (no_open_marker_prefix pre rest Hopen).
        by apply lazy_first. }
      destruct (pre +:+ think_close +:+ rest) as [|c s]; cbn [re_search];
        rewrite Hm; reflexivity. }
    unfold _extract_reasoning, re_sub_first. rewrite Hs. reflexivity.
Qed.

(** C3 on three concrete inputs: no end marker, an opening marker, a bare
    end marker. *)
Lemma extract_reasoning_first_close_only_witness :
  _extract_reasoning " no marker " = (strip " no marker ", "")
  /\ _extract_reasoning (think_open +:+ "why" +:+ think_close +:+ "answer</think>tail")
     = (strip "answer</think>tail", strip "why")
  /\ _extract_reasoning ("lead" +:+ think_close +:+ " text")
     = (strip " text", strip "lead").
Proof.
  pose proof extract_reasoning_first_close_only as (Hnone & Hopen & Hbare & _).
  split; [|split].
  - apply Hnone. reflexivity.
  - apply Hopen. reflexivity.
  - apply Hbare; reflexivity.
Defined.

End ReasoningFacts.

(** ** Tool option validation *)

Section ToolFacts.
Import Tools.
Context {api : ToolOptionAPI}.

Local Abbreviation Val := (PyVal ToolParamType).

(** The inner loop does not raise when every rejected parameter can be
    logged, and [tool_legal] ends true only if it started true and every
    parameter passed. *)
Lemma params_loop_flag (ps : list Val) (b : ToolOptionBuilder) (legal : bool) :
  forallb (fun p => passes_checks p || loggable p) ps = true ->
  exists b', params_loop ps (b, legal) = Return (b', false)
             \/ (params_loop ps (b, legal) = Return (b', legal)
                 /\ existsb (fun p => negb (passes_checks p)) ps = false).
Proof.
  revert b legal. induction ps as [|p ps IH]; intros b legal Hlog.
  - exists b. right. split; reflexivity.
  - cbn [forallb] in Hlog. apply andb_true_iff in Hlog as [Hp Hlog].
    cbn [params_loop existsb]. unfold param_step, passes_checks, loggable in *.
    destruct (check_param p) as [[[[[n t] d] r] ev]|] eqn:Hc.
    + destruct (add_param n t d r ev b) as [b1|].
      * destruct (IH b1 legal Hlog) as [b' [H1|[H1 H2]]]; exists b'; [by left|].
        right. split; [assumption|]. simpl. exact H2.
      * destruct (IH b false Hlog) as [b' [H1|[H1 _]]]; exists b'; by left.
    + destruct (getitem0 p); [discriminate|].
      destruct (IH b false Hlog) as [b' [H1|[H1 _]]]; exists b'; by left.
Qed.

Lemma tool_step_dropped (t : gmap string Val) :
  has_invalid_param t = true -> rejections_loggable t = true ->
  exists b, tool_step t = Return (b, false).
Proof.
  unfold has_invalid_param, rejections_loggable, parameters_of, tool_step.
  destruct (py_iter _) as [ps|e]; [|discriminate].
  intros Hinv Hlog.
  destruct (params_loop_flag ps
              (set_description (dict_get_default t "description" (PyStr ""))
                 (set_name (dict_get_default t "name" (PyStr "")) new_builder))
              true Hlog) as [b' [H1|[_ H2]]].
  - by exists b'.
  - rewrite H2 in Hinv. discriminate.
Qed.

Lemma tools_loop_skip (tools1 tools2 : list (gmap string Val)) (t : gmap string Val)
    (acc : list ToolOption) :
  has_invalid_param t = true -> rejections_loggable t = true ->
  tools_loop (tools1 ++ t :: tools2) acc = tools_loop (tools1 ++ tools2) acc.
Proof.
  intros Hinv Hlog. revert acc.
  induction tools1 as [|u tools1 IH]; intros acc.
  - simpl. destruct (tool_step_dropped t Hinv Hlog) as [b ->]. reflexivity.
  - simpl. destruct (tool_step u) as [[b legal]|e]; [apply IH|reflexivity].
Qed.

Lemma tools_loop_all_dropped (tools : list (gmap string Val)) (acc : list ToolOption) :
  Forall (fun t => has_invalid_param t = true /\ rejections_loggable t = true) tools ->
  tools_loop tools acc = Return acc.
Proof.
  induction 1 as [|t tools [Hinv Hlog] _ IH]; [reflexivity|].
  simpl. destruct (tool_step_dropped t Hinv Hlog) as [b ->]. exact IH.
Qed.

Lemma params_loop_valid (ps : list Val) (b : ToolOptionBuilder) :
  (forall n t d r ev b0, is_Some (add_param n t d r ev b0)) ->
  forallb passes_checks ps = true ->
  exists b', params_loop ps (b, true) = Return (b', true).
Proof.
  intros Hadd. revert b. induction ps as [|p ps IH]; intros b Hv.
  - by exists b.
  - cbn [forallb] in Hv. apply andb_true_iff in Hv as [Hp Hv].
    cbn [params_loop]. unfold param_step, passes_checks in *.
    destruct (check_param p) as [[[[[n t] d] r] ev]|]; [|discriminate].
    destruct (Hadd n t d r ev b) as [b1 ->]. apply IH, Hv.
Qed.

Lemma tools_loop_all_kept (tools : list (gmap string Val)) (acc : list ToolOption) :
  (forall n t d r ev b0, is_Some (add_param n t d r ev b0)) ->
  Forall (fun t => all_params_valid t = true) tools ->
  exists l, tools_loop tools acc = Return (acc ++ l) /\ length l = length tools.
Proof.
  intros Hadd Hall. revert acc.
  induction Hall as [|t tools Hv _ IH]; intros acc.
  - exists []. by rewrite app_nil_r.
  - simpl. unfold tool_step. unfold all_params_valid, parameters_of in Hv.
    destruct (py_iter _) as [ps|e]; [|discriminate].
    destruct (params_loop_valid ps
                (set_description (dict_get_default t "description" (PyStr ""))
                   (set_name (dict_get_default t "name" (PyStr "")) new_builder))
                Hadd Hv) as [b' ->].
    destruct (IH (acc ++ [build b'])) as (l & -> & Hl).
    exists (build b' :: l). split.
    + by rewrite <- app_assoc.
    + simpl. by rewrite Hl.
Qed.

(** C9, as the code has it: a tool with a parameter that fails an assertion (and
    whose rejected parameters can be logged) is dropped and the other tools
    are processed as if it were not in the list; tools whose parameters all
    pass are all kept; and when every tool is dropped the result is [None],
    the same result as for an absent or empty [tools]. *)
Theorem build_tool_options_drops_invalid :
  (forall (tools1 tools2 : list (gmap string Val)) (t : gmap string Val),
     has_invalid_param t = true -> rejections_loggable t = true ->
     _build_tool_options (Some (tools1 ++ t :: tools2))
     = _build_tool_options (Some (tools1 ++ tools2)))
  /\ (forall tools : list (gmap string Val),
        (forall n t d r ev b0, is_Some (add_param n t d r ev b0)) ->
        tools <> [] ->
        Forall (fun t => all_params_valid t = true) tools ->
        exists l, _build_tool_options (Some tools) = Return (Some l)
                  /\ length l = length tools)
  /\ (forall tools : list (gmap string Val),
        Forall (fun t => has_invalid_param t = true /\ rejections_loggable t = true) tools ->
        _build_tool_options (Some tools) = Return None
        /\ _build_tool_options (Some tools) = _build_tool_options None
        /\ _build_tool_options (Some tools) = _build_tool_options (Some [])).
Proof.
  split; [|split].
  - intros tools1 tools2 t Hinv Hlog.
    unfold _build_tool_options.
    rewrite (tools_loop_skip tools1 tools2 t [] Hinv Hlog).
    destruct tools1 as [|u tools1]; [|reflexivity].
    destruct tools2 as [|u tools2]; reflexivity.
  - intros tools Hadd Hne Hall.
    destruct (tools_loop_all_kept tools [] Hadd Hall) as (l & Hl & Hlen).
    destruct tools as [|t tools]; [done|].
    unfold _build_tool_options. rewrite Hl. simpl.
    destruct l as [|x l]; [discriminate|]. by exists (x :: l).
  - intros tools Hall.
    assert (_build_tool_options (Some tools) = Return None) as ->.
    { unfold _build_tool_options. destruct tools as [|t tools]; [reflexivity|].
      by rewrite (tools_loop_all_dropped _ [] Hall). }
    by repeat split.
Qed.

End ToolFacts.

Section ToolRuns.
Import Tools.

(** C9: the result when the only tool is dropped is *not*
    distinct from the result when no tools are requested. *)
Lemma no_survivor_same_as_no_tools :
  ~ (_build_tool_options (api := recording_api) (Some [bad_tool])
     <> _build_tool_options (api := recording_api) None).
Proof. intros Hne. apply Hne. reflexivity. Qed.

(** C9 on the recording builder: a bad tool between two good ones, two
    good tools, two bad tools. *)
Lemma build_tool_options_drops_invalid_witness :
  _build_tool_options (api := recording_api) (Some ([good_tool] ++ bad_tool :: [good_tool]))
  = _build_tool_options (api := recording_api) (Some ([good_tool] ++ [good_tool]))
  /\ (exists l, _build_tool_options (api := recording_api) (Some [good_tool; good_tool])
                = Return (Some l) /\ length l = 2%nat)
  /\ _build_tool_options (api := recording_api) (Some [bad_tool; bad_tool]) = Return None.
Proof.
  pose proof (build_tool_options_drops_invalid (api := recording_api))
    as (Hdrop & Hkeep & Hnone).
  split; [|split].
  - apply Hdrop; reflexivity.
  - apply Hkeep.
    + intros n t d r ev b0. simpl. eauto.
    + discriminate.
    + repeat constructor.
  - apply Hnone. repeat constructor.
Defined.

(** A rejected parameter that cannot be subscripted makes the log line of
    the handler raise, and the whole call with it. *)
Example build_tool_options_log_line_raises :
  _build_tool_options (api := recording_api) (Some [crashing_tool; good_tool])
  = Raise IndexError.
Proof. reflexivity. Qed.

End ToolRuns.

(** ** The selector *)

Section SelectorFacts.
Import Dispatcher.
Context `{Backend}.

Lemma min_from_spec {A : Type} (key : A -> Z) (l : list A) (best : A) :
  In (min_from key best l) (best :: l)
  /\ forall x, In x (best :: l) -> key (min_from key best l) <= key x.
Proof.
  revert best. induction l as [|y l IH]; intros best.
  - simpl. split; [by left|]. intros x [<-|[]]. lia.
  - cbn [min_from].
    destruct (IH (if key y <? key best then y else best)) as [Hin Hmin]. split.
    + destruct Hin as [Hin|Hin]; [|right; by right].
      rewrite <- Hin. destruct (key y <? key best); [right; by left|by left].
    + intros x Hx.
      assert (key (min_from key (if key y <? key best then y else best) l)
              <= key (if key y <? key best then y else best)) as Hb
        by (apply Hmin; by left).
      destruct Hx as [<-|[<-|Hx]].
      * destruct (Z.ltb_spec (key y) (key best)); lia.
      * destruct (Z.ltb_spec (key y) (key best)); lia.
      * apply Hmin. by right.
Qed.

Lemma is_available_excludes (exclude_models : option (gset string)) (m : string) :
  is_available exclude_models m = true <-> ~ excludes exclude_models m.
Proof.
  destruct exclude_models as [ex|]; simpl; [|tauto].
  rewrite orb_true_iff, negb_true_iff, bool_decide_eq_true, bool_decide_eq_false.
  split; [|tauto]. intros [->|Hn]; [set_solver|assumption].
Qed.

Lemma dict_get_In {V : Type} (k : string) (v : V) (d : list (string * V)) :
  In (k, v) d -> is_Some (dict_get k d).
Proof.
  induction d as [|[k' v'] d IH]; [intros []|].
  intros Hin. simpl. destruct (String.eqb_spec k k'); [eauto|].
  destruct Hin as [Heq|Hin]; [congruence|by apply IH].
Qed.

(** What a successful selection returns and how it leaves the table. *)
Lemma select_model_inv (self self' : LLMRequest) (exclude_models : option (gset string))
    (mi : ModelInfo) (prov : APIProvider) (cl : Client) :
  _select_model self exclude_models = (Return (mi, prov, cl), self') ->
  exists t p u,
    dict_get (name mi) (model_usage self) = Some (t, p, u)
    /\ self' = set_usage self (dict_set (name mi) (t, p, u + 1) (model_usage self))
    /\ mi = get_model_info (name mi)
    /\ prov = get_provider (api_provider mi)
    /\ ~ excludes exclude_models (name mi)
    /\ In (name mi) (model_usage self).*1.
Proof.
  unfold _select_model.
  destruct (py_min _ _) as [[k sc]|] eqn:Hmin; [|discriminate].
  cbn [name get_model_info].
  destruct (dict_get k (model_usage self)) as [[[t p] u]|] eqn:Hget; [|discriminate].
  intros [= <- <- <- <-]. exists t, p, u. cbn [name api_provider].
  repeat split; try done.
  - unfold py_min in Hmin.
    destruct (available_models _ _) as [|x l] eqn:Hav; [discriminate|].
    injection Hmin as Hmin.
    destruct (min_from_spec (fun kv : string * Score => cost kv.2) l x) as [Hin _].
    rewrite Hmin, <- Hav in Hin. apply filter_In in Hin as [_ Hin].
    by apply is_available_excludes.
  - unfold py_min in Hmin.
    destruct (available_models _ _) as [|x l] eqn:Hav; [discriminate|].
    injection Hmin as Hmin.
    destruct (min_from_spec (fun kv : string * Score => cost kv.2) l x) as [Hin _].
    rewrite Hmin, <- Hav in Hin. apply filter_In in Hin as [Hin _].
    apply in_map_iff. by exists (k, sc).
Qed.

(** A selection succeeds when some model of the table is not excluded, and
    what it returns has the least cost among those. *)
Lemma select_model_minimal (self : LLMRequest) (exclude_models : option (gset string)) :
  (exists m, In m (model_usage self).*1 /\ ~ excludes exclude_models m) ->
  exists mi prov cl self' sc,
    _select_model self exclude_models = (Return (mi, prov, cl), self')
    /\ In (name mi, sc) (model_usage self)
    /\ ~ excludes exclude_models (name mi)
    /\ forall m s, In (m, s) (model_usage self) -> ~ excludes exclude_models m ->
                   cost sc <= cost s.
Proof.
  intros (m0 & Hm0 & Hex0).
  apply in_map_iff in Hm0 as ([k0 s0] & Hk0 & Hin0). simpl in Hk0. subst k0.
  assert (In (m0, s0) (available_models (model_usage self) exclude_models)) as Hav0.
  { apply filter_In. split; [assumption|]. by apply is_available_excludes. }
  unfold _select_model, py_min.
  destruct (available_models (model_usage self) exclude_models) as [|x l] eqn:Hav;
    [destruct Hav0|].
  destruct (min_from_spec (fun kv : string * Score => cost kv.2) l x) as [Hin Hmin].
  destruct (min_from _ x l) as [k sc] eqn:Hk.
  rewrite <- Hav in Hin. apply filter_In in Hin as [Hin Hok].
  cbn [name get_model_info].
  destruct (dict_get_In k sc _ Hin) as [[[t p] u] Hget]. rewrite Hget.
  eexists _, _, _, _, sc. split; [reflexivity|]. cbn [name].
  split; [assumption|]. split; [by apply is_available_excludes|].
  intros m s Hms Hnex.
  apply (Hmin (m, s)). rewrite <- Hav. apply filter_In. split; [assumption|].
  by apply is_available_excludes.
Qed.

(** C4: when some configured model is not excluded, [_select_model]
    returns a model that is in the table and not excluded and whose cost
    total_tokens + penalty * 300 + usage_penalty * 1000 is least among the
    models that are not excluded, the first such model in the order of the
    table when several have the least cost. Of two models scored
    (100, 0, 0) and (50, 0, 0), in either order, the one scored (50, 0, 0)
    is chosen; one failure weighs as 300 tokens and one request in flight
    as 1000 (299 tokens win over one failure and 300 tie with it, 999
    tokens win over one request in flight and 1000 tie with it, three
    failures and 99 tokens win over one request in flight); and the choice
    is a function of the score table and the exclusion set. *)
Theorem select_model_least_cost :
  (forall (self : LLMRequest) (exclude_models : option (gset string)),
     (exists m, In m (model_usage self).*1 /\ ~ excludes exclude_models m) ->
     exists mi prov cl self' total_tokens penalty usage_penalty,
       _select_model self exclude_models = (Return (mi, prov, cl), self')
       /\ In (name mi, (total_tokens, penalty, usage_penalty)) (model_usage self)
       /\ ~ excludes exclude_models (name mi)
       /\ forall m t p u,
            In (m, (t, p, u)) (model_usage self) -> ~ excludes exclude_models m ->
            total_tokens + penalty * 300 + usage_penalty * 1000
            <= t + p * 300 + u * 1000)
  /\ (forall (n1 n2 rt : string) (models : list string),
        chosen (_select_model
                  {| model_list := models; request_type := rt;
                     model_usage := [(n1, (100, 0, 0)); (n2, (50, 0, 0))] |}
                  (Some ∅)).1 = Some n2
        /\ chosen (_select_model
                     {| model_list := models; request_type := rt;
                        model_usage := [(n2, (50, 0, 0)); (n1, (100, 0, 0))] |}
                     (Some ∅)).1 = Some n2)
  /\ (forall (rt : string) (models : list string) (s1 s2 : Score),
        chosen (_select_model
                  {| model_list := models; request_type := rt;
                     model_usage := [("x", s1); ("y", s2)] |} None).1
        = Some (if (let '(t, p, u) := s2 in t + p * 300 + u * 1000)
                   <? (let '(t, p, u) := s1 in t + p * 300 + u * 1000)
                then "y" else "x"))
  /\ (forall (rt : string) (models : list string),
        let pick s1 s2 :=
          chosen (_select_model
                    {| model_list := models; request_type := rt;
                       model_usage := [("x", s1); ("y", s2)] |} None).1 in
        pick (0, 1, 0) (299, 0, 0) = Some "y"
        /\ pick (0, 1, 0) (300, 0, 0) = Some "x"
        /\ pick (0, 0, 1) (999, 0, 0) = Some "y"
        /\ pick (0, 0, 1) (1000, 0, 0) = Some "x"
        /\ pick (0, 0, 1) (99, 3, 0) = Some "y"
        /\ pick (0, 0, 1) (100, 3, 0) = Some "x")
  /\ (forall (self1 self2 : LLMRequest) (exclude_models : option (gset string)),
        model_usage self1 = model_usage self2 ->
        chosen (_select_model self1 exclude_models).1
        = chosen (_select_model self2 exclude_models).1).
Proof.
  assert (forall (rt : string) (models : list string) (s1 s2 : Score),
             chosen (_select_model
                       {| model_list := models; request_type := rt;
                          model_usage := [("x", s1); ("y", s2)] |} None).1
             = Some (if (let '(t, p, u) := s2 in t + p * 300 + u * 1000)
                        <? (let '(t, p, u) := s1 in t + p * 300 + u * 1000)
                     then "y" else "x")) as Hpair.
  { intros rt models [[t1 p1] u1] [[t2 p2] u2].
    unfold _select_model, available_models, py_min.
    cbn [model_usage List.filter is_available min_from fst snd cost].
    destruct (_ <? _); reflexivity. }
  split; [|split; [|split; [exact Hpair|split]]].
  - intros self exclude_models Hex.
    destruct (select_model_minimal self exclude_models Hex)
      as (mi & prov & cl & self' & [[t0 p0] u0] & Hsel & Hin & Hnex & Hmin).
    exists mi, prov, cl, self', t0, p0, u0. split; [exact Hsel|].
    split; [exact Hin|]. split; [exact Hnex|].
    intros m t p u Hm Hout. exact (Hmin m (t, p, u) Hm Hout).
  - intros n1 n2 rt models.
    assert (forall u, available_models u (Some ∅) = u) as Hav.
    { assert (forall m, is_available (Some ∅) m = true) as Hall
        by (intros m; apply is_available_excludes; simpl; set_solver).
      intros u. unfold available_models. induction u as [|kv u IH]; [done|].
      cbn [List.filter]. by rewrite Hall, IH. }
    unfold _select_model. cbn [model_usage]. rewrite !Hav. simpl.
    rewrite !String.eqb_refl.
    split.
    + destruct (String.eqb n2 n1); reflexivity.
    + reflexivity.
  - intros rt models pick. subst pick. cbv beta. rewrite !Hpair. by repeat split.
  - intros self1 self2 exclude_models Heq. unfold _select_model. rewrite Heq.
    destruct (py_min _ _) as [[k sc]|]; [|reflexivity].
    destruct (dict_get _ _) as [[[t p] u]|]; reflexivity.
Qed.

End SelectorFacts.

Section SelectorRuns.
Import Dispatcher.

(** C4 on a table of three models, the first excluded, where the failure
    and in-flight penalties decide: [c], with two failures and 350 tokens,
    costs 950 and wins over [b], with one request in flight. *)
Lemma select_model_least_cost_witness :
  exists mi prov cl self' total_tokens penalty usage_penalty,
    @_select_model scripted
      (set_usage (init ["a"; "b"; "c"] "chat")
         [("a", (0, 0, 0)); ("b", (0, 0, 1)); ("c", (350, 2, 0))])
      (Some {["a"]})
    = (Return (mi, prov, cl), self')
    /\ In (name mi, (total_tokens, penalty, usage_penalty))
          (model_usage (set_usage (init ["a"; "b"; "c"] "chat")
                          [("a", (0, 0, 0)); ("b", (0, 0, 1)); ("c", (350, 2, 0))]))
    /\ ~ excludes (Some {["a"]}) (name mi)
    /\ forall m t p u,
         In (m, (t, p, u))
            (model_usage (set_usage (init ["a"; "b"; "c"] "chat")
                            [("a", (0, 0, 0)); ("b", (0, 0, 1)); ("c", (350, 2, 0))])) ->
         ~ excludes (Some {["a"]}) m ->
         total_tokens + penalty * 300 + usage_penalty * 1000 <= t + p * 300 + u * 1000.
Proof.
  apply (proj1 (@select_model_least_cost scripted)).
  exists "b". split.
  - simpl. right. by left.
  - simpl. apply (bool_decide_unpack _). vm_compute. exact I.
Defined.

End SelectorRuns.

(** ** The retry engine *)

Section RetryFacts.
Import Dispatcher.
Context `{Backend}.
Variables (model_info : ModelInfo) (provider : APIProvider) (client : Client)
          (request_type : RequestType) (message_list : list Message)
          (params : GenParams) (embedding_input audio_base64 : option string).

Lemma count_app (p : Event Message GenParams -> bool) (l1 l2 : list (Event Message GenParams)) :
  count p (l1 ++ l2) = (count p l1 + count p l2)%nat.
Proof. unfold count. by rewrite List.filter_app, length_app. Qed.

Lemma count_none (p : Event Message GenParams -> bool) (l : list (Event Message GenParams)) :
  Forall (fun ev => p ev = false) l -> count p l = 0%nat.
Proof.
  unfold count. induction 1 as [|ev l Hev _ IH]; [reflexivity|].
  simpl. by rewrite Hev.
Qed.

(** What [send] does to the environment. *)
Lemma send_request (c : option (list Message)) (env : Env)
    (req : Request Message GenParams) :
  request_for model_info client request_type message_list params
    embedding_input audio_base64 c = Some req ->
  send model_info client request_type message_list params
    embedding_input audio_base64 c env
  = ((client_call req (world env)).1,
     {| world := (client_call req (world env)).2; trace := trace env ++ [EvCall req] |}).
Proof.
  intros Hreq. unfold send, call. rewrite Hreq.
  by destruct (client_call req (world env)).
Qed.

Lemma send_trace (c : option (list Message)) (env env1 : Env) (o : Outcome APIResponse) :
  send model_info client request_type message_list params
    embedding_input audio_base64 c env = (o, env1) ->
  env1 = env \/ exists req, trace env1 = trace env ++ [EvCall req].
Proof.
  unfold send, call. destruct (request_for _ _ _ _ _ _ _ _) as [req|].
  - destruct (client_call req (world env)) as [o' w]. intros [= <- <-]. right. by exists req.
  - intros [= <- <-]. by left.
Qed.

Lemma transient_shape (e : PyExc) (c : option (list Message)) (r : Z) (env1 : Env) :
  is_transient e = true ->
  step_shape provider message_list c r env1 (transient provider e c r env1).
Proof.
  intros He. unfold transient. destruct (Z.leb_spec (r - 1) 0).
  - by apply shape_exhausted.
  - by apply shape_sleep with (e := e).
Qed.

Lemma attempt_step_shape (c : option (list Message)) (r : Z) (env : Env) :
  exists o env1,
    send model_info client request_type message_list params
      embedding_input audio_base64 c env = (o, env1)
    /\ step_shape provider message_list c r env1
         (attempt_step model_info provider client request_type message_list params
            embedding_input audio_base64 c r env).
Proof.
  unfold attempt_step.
  destruct (send _ _ _ _ _ _ _ c env) as [o env1]. exists o, env1. split; [reflexivity|].
  destruct o as [resp|e]; [constructor|].
  destruct e; try (by apply shape_hard); try (by apply transient_shape);
    try (by constructor).
  destruct ((status_code =? 429) || (status_code >=? 500)) eqn:Ht.
  - apply transient_shape. simpl. rewrite <- Ht. f_equal. symmetry. apply Z.geb_leb.
  - destruct ((status_code =? 413) && truthy message_list && negb (truthy_opt c)) eqn:Hc.
    + apply andb_true_iff in Hc as [Hc Hn]. apply andb_true_iff in Hc as [_ Hm].
      apply negb_true_iff in Hn. by constructor.
    + apply shape_hard. simpl. rewrite <- Ht. f_equal. symmetry. apply Z.geb_leb.
Qed.

(** The events a pass of the loop adds: no selection, and no compression
    when the message list is empty. *)
Lemma attempt_step_trace (c : option (list Message)) (r : Z) (env env' : Env) (res : StepResult) :
  attempt_step model_info provider client request_type message_list params
    embedding_input audio_base64 c r env = (res, env') ->
  exists evs, trace env' = trace env ++ evs
              /\ Forall (fun ev => is_select ev = false) evs
              /\ (truthy message_list = false -> Forall (fun ev => is_compress ev = false) evs).
Proof.
  intros Hstep.
  destruct (attempt_step_shape c r env) as (o & env1 & Hsend & Hshape).
  rewrite Hstep in Hshape.
  assert (exists evs0, trace env1 = trace env ++ evs0
                       /\ Forall (fun ev => is_select ev = false) evs0
                       /\ Forall (fun ev => is_compress ev = false) evs0) as (evs0 & Ht & Hs & Hc).
  { destruct (send_trace _ _ _ _ Hsend) as [->|[req Hreq]].
    - exists []. by rewrite app_nil_r.
    - exists [EvCall req]. repeat split; [assumption|by repeat constructor..]. }
  inversion Hshape; subst.
  - exists evs0. auto.
  - exists evs0. auto.
  - exists evs0. auto.
  - exists evs0. auto.
  - exists (evs0 ++ [EvSleep (retry_interval provider)]). simpl. rewrite Ht, <- app_assoc.
    split; [reflexivity|]. split; [|intros _]; apply Forall_app; split; auto;
      by repeat constructor.
  - exists (evs0 ++ [EvCompress message_list]). simpl. rewrite Ht, <- app_assoc.
    split; [reflexivity|]. split.
    + apply Forall_app; split; auto; by repeat constructor.
    + congruence.
Qed.

Lemma attempt_loop_trace (fuel : nat) (c : option (list Message)) (r : Z) (env env' : Env)
    (o : Outcome APIResponse) :
  attempt_loop model_info provider client request_type message_list params
    embedding_input audio_base64 fuel c r env = Some (o, env') ->
  exists evs, trace env' = trace env ++ evs
              /\ Forall (fun ev => is_select ev = false) evs
              /\ (truthy message_list = false -> Forall (fun ev => is_compress ev = false) evs).
Proof.
  revert c r env. induction fuel as [|fuel IH]; intros c r env; cbn [attempt_loop].
  - destruct (r >? 0); [discriminate|]. intros [= <- <-].
    exists []. rewrite app_nil_r. auto.
  - destruct (r >? 0).
    + destruct (attempt_step _ _ _ _ _ _ _ _ c r env) as [res env1] eqn:Hstep.
      destruct (attempt_step_trace _ _ _ _ _ Hstep) as (evs1 & Ht1 & Hs1 & Hc1).
      destruct res as [o1|c' r'].
      * intros [= <- <-]. by exists evs1.
      * intros Hloop. destruct (IH _ _ _ Hloop) as (evs2 & Ht2 & Hs2 & Hc2).
        exists (evs1 ++ evs2). rewrite Ht2, Ht1, <- app_assoc.
        split; [reflexivity|]. split; [|intros Hm]; apply Forall_app; auto.
    + intros [= <- <-]. exists []. rewrite app_nil_r. auto.
Qed.

(** The failures the loop can end in, and the budget they come from. *)
Lemma attempt_loop_failure (fuel : nat) (c : option (list Message)) (r : Z) (env env' : Env)
    (msg : FailMsg) (orig : option PyExc) :
  attempt_loop model_info provider client request_type message_list params
    embedding_input audio_base64 fuel c r env
  = Some (Raise (ModelAttemptFailed msg orig), env') ->
  (msg = NotAttempted -> r <= 0 /\ orig = None /\ env' = env)
  /\ (msg <> NotAttempted -> 0 < r /\ exists e, orig = Some e).
Proof.
  revert c r env. induction fuel as [|fuel IH]; intros c r env; cbn [attempt_loop].
  - destruct (Z.gtb_spec r 0); [discriminate|]. intros [= <- <- <-].
    split; [auto|congruence].
  - destruct (Z.gtb_spec r 0) as [Hr|Hr].
    + destruct (attempt_step_shape c r env) as (o & env1 & _ & Hshape).
      destruct (attempt_step _ _ _ _ _ _ _ _ c r env) as [res env2].
      inversion Hshape; subst.
      * discriminate.
      * discriminate.
      * intros [= <- <- <-]. split; [discriminate|]. intros _. split; [lia|eauto].
      * intros [= <- <- <-]. split; [discriminate|]. intros _. split; [lia|eauto].
      * intros Hloop. destruct (IH _ _ _ Hloop) as [Hna Hnn]. split.
        -- intros Hm. destruct (Hna Hm) as [? _]. lia.
        -- intros Hm. destruct (Hnn Hm) as [_ ?]. split; [lia|assumption].
      * intros Hloop. destruct (IH _ _ _ Hloop) as [Hna Hnn]. split.
        -- intros Hm. destruct (Hna Hm) as [? _]. lia.
        -- intros Hm. destruct (Hnn Hm) as [_ ?]. split; [lia|assumption].
    + intros [= <- <- <-]. split; [auto|congruence].
Qed.

(** C8: with a retry budget of zero or less the attempt raises the
    never-attempted failure and leaves the environment as it was (no client
    call, no sleep); and among the failures an attempt raises, the
    never-attempted one (no original exception) arises exactly from such a
    budget, while an exhausted or hard failure carries its original
    exception and needs a positive budget. *)
Theorem attempt_zero_budget_never_calls :
  (forall (fuel : nat) (c : option (list Message)) (env : Env),
     max_retry provider <= 0 ->
     _attempt_request_on_model model_info provider client request_type message_list
       params embedding_input audio_base64 fuel c env
     = Some (Raise (ModelAttemptFailed NotAttempted None), env))
  /\ (forall (fuel : nat) (c : option (list Message)) (env env' : Env)
             (msg : FailMsg) (orig : option PyExc),
        _attempt_request_on_model model_info provider client request_type message_list
          params embedding_input audio_base64 fuel c env
        = Some (Raise (ModelAttemptFailed msg orig), env') ->
        (msg = NotAttempted -> max_retry provider <= 0 /\ orig = None /\ env' = env)
        /\ (msg <> NotAttempted -> 0 < max_retry provider /\ exists e, orig = Some e)).
Proof.
  split.
  - intros fuel c env Hr. unfold _attempt_request_on_model.
    destruct fuel; cbn [attempt_loop]; destruct (Z.gtb_spec (max_retry provider) 0);
      (lia || reflexivity).
  - intros fuel c env env' msg orig. apply attempt_loop_failure.
Qed.

(** A transient failure of the client in one pass of the loop. *)
Lemma attempt_step_transient (c : option (list Message)) (r : Z) (env : Env)
    (req : Request Message GenParams) (e : PyExc) (w1 : World) :
  request_for model_info client request_type message_list params
    embedding_input audio_base64 c = Some req ->
  client_call req (world env) = (Raise e, w1) ->
  is_transient e = true ->
  attempt_step model_info provider client request_type message_list params
    embedding_input audio_base64 c r env
  = transient provider e c r {| world := w1; trace := trace env ++ [EvCall req] |}.
Proof.
  intros Hreq Hcall He. unfold attempt_step.
  rewrite (send_request c env req Hreq), Hcall. cbn [fst snd].
  destruct e; try discriminate; try reflexivity.
  simpl in He. rewrite <- Z.geb_leb in He. by rewrite He.
Qed.

Lemma attempt_step_success (c : option (list Message)) (r : Z) (env : Env)
    (req : Request Message GenParams) (resp : APIResponse) (w1 : World) :
  request_for model_info client request_type message_list params
    embedding_input audio_base64 c = Some req ->
  client_call req (world env) = (Return resp, w1) ->
  attempt_step model_info provider client request_type message_list params
    embedding_input audio_base64 c r env
  = (Done (Return resp), {| world := w1; trace := trace env ++ [EvCall req] |}).
Proof.
  intros Hreq Hcall. unfold attempt_step.
  by rewrite (send_request c env req Hreq), Hcall.
Qed.

Lemma is_transient_iff (e : PyExc) :
  is_transient e = true
  <-> e = EmptyResponseException \/ e = NetworkConnectionError
      \/ exists status_code, e = RespNotOkException status_code
                             /\ (status_code = 429 \/ 500 <= status_code).
Proof.
  split.
  - destruct e; try discriminate; auto.
    simpl. rewrite orb_true_iff, Z.eqb_eq, Z.leb_le. eauto 6.
  - intros [->|[->|(s & -> & Hs)]]; try reflexivity.
    simpl. rewrite orb_true_iff, Z.eqb_eq, Z.leb_le. exact Hs.
Qed.

Lemma attempt_loop_retry (fuel : nat) (c : option (list Message)) (r : Z) (env : Env)
    (req : Request Message GenParams) (e : PyExc) (w1 : World) :
  0 < r - 1 ->
  request_for model_info client request_type message_list params
    embedding_input audio_base64 c = Some req ->
  client_call req (world env) = (Raise e, w1) ->
  is_transient e = true ->
  attempt_loop model_info provider client request_type message_list params
    embedding_input audio_base64 (S fuel) c r env
  = attempt_loop model_info provider client request_type message_list params
      embedding_input audio_base64 fuel c (r - 1)
      {| world := w1;
         trace := trace env ++ [EvCall req; EvSleep (retry_interval provider)] |}.
Proof.
  intros Hr Hreq Hcall He. cbn [attempt_loop].
  destruct (Z.gtb_spec r 0); [|lia].
  rewrite (attempt_step_transient c r env req e w1 Hreq Hcall He). unfold transient.
  destruct (Z.leb_spec (r - 1) 0); [lia|].
  unfold log. cbn [world trace]. by rewrite <- app_assoc.
Qed.

Lemma attempt_loop_exhaust (fuel : nat) (c : option (list Message)) (r : Z) (env : Env)
    (req : Request Message GenParams) (e : PyExc) (w1 : World) :
  0 < r -> r - 1 <= 0 ->
  request_for model_info client request_type message_list params
    embedding_input audio_base64 c = Some req ->
  client_call req (world env) = (Raise e, w1) ->
  is_transient e = true ->
  attempt_loop model_info provider client request_type message_list params
    embedding_input audio_base64 (S fuel) c r env
  = Some (Raise (ModelAttemptFailed RetriesExhausted (Some e)),
          {| world := w1; trace := trace env ++ [EvCall req] |}).
Proof.
  intros Hr Hr1 Hreq Hcall He. cbn [attempt_loop].
  destruct (Z.gtb_spec r 0); [|lia].
  rewrite (attempt_step_transient c r env req e w1 Hreq Hcall He). unfold transient.
  destruct (Z.leb_spec (r - 1) 0); [reflexivity|lia].
Qed.

Lemma attempt_loop_success (fuel : nat) (c : option (list Message)) (r : Z) (env : Env)
    (req : Request Message GenParams) (resp : APIResponse) (w1 : World) :
  0 < r ->
  request_for model_info client request_type message_list params
    embedding_input audio_base64 c = Some req ->
  client_call req (world env) = (Return resp, w1) ->
  attempt_loop model_info provider client request_type message_list params
    embedding_input audio_base64 (S fuel) c r env
  = Some (Return resp, {| world := w1; trace := trace env ++ [EvCall req] |}).
Proof.
  intros Hr Hreq Hcall. cbn [attempt_loop].
  destruct (Z.gtb_spec r 0); [|lia].
  by rewrite (attempt_step_success c r env req resp w1 Hreq Hcall).
Qed.

(** C5: when the client fails with a network error, an empty response,
    HTTP 429 or a status of 500 and above, the pass takes one retry off the
    budget; with budget left it sleeps [retry_interval] and goes round with
    the payload cache unchanged, with none left it raises the
    retries-exhausted failure wrapping the error. With a budget of 3, two
    such failures and then a success make the attempt return after exactly
    three calls with the same request and two sleeps; three such failures
    make it raise the retries-exhausted failure after three calls and two
    sleeps. *)
Theorem transient_failures_retry_with_backoff :
  (forall (c : option (list Message)) (r : Z) (env : Env)
          (req : Request Message GenParams) (e : PyExc) (w1 : World),
     request_for model_info client request_type message_list params
       embedding_input audio_base64 c = Some req ->
     client_call req (world env) = (Raise e, w1) ->
     (e = EmptyResponseException \/ e = NetworkConnectionError
      \/ exists status_code, e = RespNotOkException status_code
                             /\ (status_code = 429 \/ 500 <= status_code)) ->
     (0 < r - 1 ->
      attempt_step model_info provider client request_type message_list params
        embedding_input audio_base64 c r env
      = (Again c (r - 1),
         log (EvSleep (retry_interval provider))
           {| world := w1; trace := trace env ++ [EvCall req] |}))
     /\ (r - 1 <= 0 ->
         attempt_step model_info provider client request_type message_list params
           embedding_input audio_base64 c r env
         = (Done (Raise (ModelAttemptFailed RetriesExhausted (Some e))),
            {| world := w1; trace := trace env ++ [EvCall req] |})))
  /\ (forall (fuel : nat) (c : option (list Message)) (req : Request Message GenParams)
             (e1 e2 : PyExc) (resp : APIResponse) (w0 w1 w2 w3 : World)
             (tr : list (Event Message GenParams)),
        max_retry provider = 3 -> (3 <= fuel)%nat ->
        request_for model_info client request_type message_list params
          embedding_input audio_base64 c = Some req ->
        client_call req w0 = (Raise e1, w1) -> is_transient e1 = true ->
        client_call req w1 = (Raise e2, w2) -> is_transient e2 = true ->
        client_call req w2 = (Return resp, w3) ->
        _attempt_request_on_model model_info provider client request_type message_list
          params embedding_input audio_base64 fuel c {| world := w0; trace := tr |}
        = Some (Return resp,
                {| world := w3;
                   trace := tr ++ [EvCall req; EvSleep (retry_interval provider);
                                   EvCall req; EvSleep (retry_interval provider);
                                   EvCall req] |}))
  /\ (forall (fuel : nat) (c : option (list Message)) (req : Request Message GenParams)
             (e1 e2 e3 : PyExc) (w0 w1 w2 w3 : World)
             (tr : list (Event Message GenParams)),
        max_retry provider = 3 -> (3 <= fuel)%nat ->
        request_for model_info client request_type message_list params
          embedding_input audio_base64 c = Some req ->
        client_call req w0 = (Raise e1, w1) -> is_transient e1 = true ->
        client_call req w1 = (Raise e2, w2) -> is_transient e2 = true ->
        client_call req w2 = (Raise e3, w3) -> is_transient e3 = true ->
        _attempt_request_on_model model_info provider client request_type message_list
          params embedding_input audio_base64 fuel c {| world := w0; trace := tr |}
        = Some (Raise (ModelAttemptFailed RetriesExhausted (Some e3)),
                {| world := w3;
                   trace := tr ++ [EvCall req; EvSleep (retry_interval provider);
                                   EvCall req; EvSleep (retry_interval provider);
                                   EvCall req] |})).
Proof.
  split; [|split].
  - intros c r env req e w1 Hreq Hcall He. apply is_transient_iff in He.
    rewrite (attempt_step_transient c r env req e w1 Hreq Hcall He). unfold transient.
    split; intros Hr; destruct (Z.leb_spec (r - 1) 0); (lia || reflexivity).
  - intros fuel c req e1 e2 resp w0 w1 w2 w3 tr Hmax Hfuel Hreq Hc1 He1 Hc2 He2 Hc3.
    unfold _attempt_request_on_model. rewrite Hmax.
    destruct fuel as [|[|[|fuel]]]; [lia..|].
    rewrite (attempt_loop_retry _ c 3 _ req e1 w1); [|lia|assumption..].
    rewrite (attempt_loop_retry _ c (3 - 1) _ req e2 w2); [|lia|assumption..].
    rewrite (attempt_loop_success _ c (3 - 1 - 1) _ req resp w3); [|lia|assumption..].
    cbn [trace]. by rewrite <- !app_assoc.
  - intros fuel c req e1 e2 e3 w0 w1 w2 w3 tr Hmax Hfuel Hreq Hc1 He1 Hc2 He2 Hc3 He3.
    unfold _attempt_request_on_model. rewrite Hmax.
    destruct fuel as [|[|[|fuel]]]; [lia..|].
    rewrite (attempt_loop_retry _ c 3 _ req e1 w1); [|lia|assumption..].
    rewrite (attempt_loop_retry _ c (3 - 1) _ req e2 w2); [|lia|assumption..].
    rewrite (attempt_loop_exhaust _ c (3 - 1 - 1) _ req e3 w3); [|lia|lia|assumption..].
    cbn [trace]. by rewrite <- !app_assoc.
Qed.

End RetryFacts.

(** ** The failover loop *)

Section TableFacts.
Import Dispatcher.

Lemma dict_get_set_eq {V : Type} (k : string) (v : V) (d : list (string * V)) :
  dict_get k (dict_set k v d) = Some v.
Proof.
  induction d as [|[k' v'] d IH]; simpl.
  - by rewrite String.eqb_refl.
  - destruct (String.eqb_spec k k') as [->|Hne]; simpl.
    + by rewrite String.eqb_refl.
    + by destruct (String.eqb_spec k k').
Qed.

Lemma dict_get_set_ne {V : Type} (k k' : string) (v : V) (d : list (string * V)) :
  k <> k' -> dict_get k' (dict_set k v d) = dict_get k' d.
Proof.
  intros Hne. induction d as [|[k0 v0] d IH]; simpl.
  - by destruct (String.eqb_spec k' k).
  - destruct (String.eqb_spec k k0) as [->|Hk]; simpl.
    + destruct (String.eqb_spec k' k0); [congruence|reflexivity].
    + destruct (String.eqb_spec k' k0); [reflexivity|exact IH].
Qed.

Lemma dict_set_set {V : Type} (k : string) (v1 v2 : V) (d : list (string * V)) :
  dict_set k v2 (dict_set k v1 d) = dict_set k v2 d.
Proof.
  induction d as [|[k' v'] d IH]; simpl.
  - by rewrite String.eqb_refl.
  - destruct (String.eqb_spec k k') as [->|Hne]; simpl.
    + by rewrite String.eqb_refl.
    + destruct (String.eqb_spec k k'); [done|]. by rewrite IH.
Qed.

Lemma dict_set_same {V : Type} (k : string) (v : V) (d : list (string * V)) :
  dict_get k d = Some v -> dict_set k v d = d.
Proof.
  induction d as [|[k' v'] d IH]; simpl; [discriminate|].
  destruct (String.eqb_spec k k') as [->|Hne].
  - by intros [= ->].
  - intros Hget. by rewrite IH.
Qed.

Lemma dict_set_keys {V : Type} (k : string) (v : V) (d : list (string * V)) :
  is_Some (dict_get k d) -> (dict_set k v d).*1 = d.*1.
Proof.
  induction d as [|[k' v'] d IH]; [by intros [? ?]|].
  cbn [dict_get dict_set]. destruct (String.eqb_spec k k') as [->|Hne]; [reflexivity|].
  intros Hget. rewrite !fmap_cons. by rewrite IH.
Qed.

Lemma dict_set_Forall {V : Type} (P : string * V -> Prop) (k : string) (v : V)
    (d : list (string * V)) :
  Forall P d -> P (k, v) -> Forall P (dict_set k v d).
Proof.
  intros Hd Hv. induction Hd as [|[k' v'] d Hx Hd IH]; simpl.
  - by repeat constructor.
  - destruct (String.eqb k k'); constructor; auto.
Qed.

Lemma dict_get_Forall {V : Type} (P : string * V -> Prop) (k : string) (v : V)
    (d : list (string * V)) :
  Forall P d -> dict_get k d = Some v -> P (k, v).
Proof.
  induction 1 as [|[k' v'] d Hx Hd IH]; simpl; [discriminate|].
  destruct (String.eqb_spec k k') as [->|Hne]; [by intros [= <-]|exact IH].
Qed.

Lemma set_usage_same (self : LLMRequest) : set_usage self (model_usage self) = self.
Proof. by destruct self. Qed.

Lemma set_usage_twice (self : LLMRequest) (u1 u2 : list (string * Score)) :
  set_usage (set_usage self u1) u2 = set_usage self u2.
Proof. reflexivity. Qed.

(** The table a pass leaves when it took a model with a non-negative
    in-flight penalty: the penalty of that model may have grown, nothing
    else has changed. *)
Lemma usage_penalty_after (self : LLMRequest) (k : string) (t p p' u : Z) :
  dict_get k (model_usage self) = Some (t, p, u) ->
  forall m, usage_penalty_of (set_usage self (dict_set k (t, p', u) (model_usage self))) m
            = usage_penalty_of self m.
Proof.
  intros Hget m. unfold usage_penalty_of. cbn [model_usage set_usage].
  destruct (String.eqb_spec k m) as [<-|Hne].
  - by rewrite dict_get_set_eq, Hget.
  - by rewrite dict_get_set_ne.
Qed.

Lemma usage_nonneg_after (self : LLMRequest) (k : string) (t p p' u : Z) :
  usage_nonneg self -> 0 <= u ->
  usage_nonneg (set_usage self (dict_set k (t, p', u) (model_usage self))).
Proof.
  intros Hnn Hu. unfold usage_nonneg. cbn [model_usage set_usage].
  by apply dict_set_Forall.
Qed.

Lemma init_usage_zero (models : list string) (rt : string) :
  Forall (fun kv => kv.2 = (0, 0, 0)) (model_usage (init models rt)).
Proof.
  unfold init. cbn [model_usage].
  assert (forall d, Forall (fun kv : string * Score => kv.2 = (0, 0, 0)) d ->
                    Forall (fun kv : string * Score => kv.2 = (0, 0, 0))
                      (fold_left (fun d model => dict_set model (0, 0, 0) d) models d)) as Hgen.
  { induction models as [|m models IH]; intros d Hd; [exact Hd|].
    simpl. apply IH. by apply dict_set_Forall. }
  apply Hgen. constructor.
Qed.

Lemma init_usage_nonneg (models : list string) (rt : string) :
  usage_nonneg (init models rt).
Proof.
  unfold usage_nonneg. eapply Forall_impl; [apply init_usage_zero|].
  intros [k [[t p] u]] [= _ _ ->]. simpl. lia.
Qed.

End TableFacts.

Section FailoverFacts.
Import Dispatcher.
Context `{Backend}.
Variables (request_type : RequestType)
          (message_factory : option (Client -> Outcome (list Message)))
          (params : GenParams) (embedding_input audio_base64 : option string).

Lemma select_model_raise (self self' : LLMRequest) (ex : option (gset string)) (e : PyExc) :
  _select_model self ex = (Raise e, self') -> self' = self.
Proof.
  unfold _select_model. destruct (py_min _ _) as [[k sc]|]; [|by intros [= _ <-]].
  destruct (dict_get _ _) as [[[t p] u]|]; [discriminate|by intros [= _ <-]].
Qed.

(** The ways a pass ends once a model has been selected, for a model
    whose in-flight penalty was not negative. *)
Lemma iteration_factory_raised (fuel : nat) (c : option (list Message))
    (self self1 : LLMRequest) (env : Env) (failed : gset string) (last : option PyExc)
    (mi : ModelInfo) (prov : APIProvider) (cl : Client) (e : PyExc) :
  _select_model self (Some failed) = (Return (mi, prov, cl), self1) ->
  build_messages message_factory cl = Raise e ->
  iteration request_type message_factory params embedding_input audio_base64
    fuel c self env failed last
  = Some (LoopRaise e, self1, log (EvSelect (name mi)) env).
Proof. intros Hsel Hbuild. unfold iteration. by rewrite Hsel, Hbuild. Qed.

Lemma iteration_return (fuel : nat) (c : option (list Message)) (self self1 : LLMRequest)
    (env env2 : Env) (failed : gset string) (last : option PyExc)
    (mi : ModelInfo) (prov : APIProvider) (cl : Client) (msgs : list Message)
    (resp : APIResponse) :
  usage_nonneg self ->
  _select_model self (Some failed) = (Return (mi, prov, cl), self1) ->
  build_messages message_factory cl = Return msgs ->
  _attempt_request_on_model mi prov cl request_type msgs
    params embedding_input audio_base64 fuel c (log (EvSelect (name mi)) env)
  = Some (Return resp, env2) ->
  iteration request_type message_factory params embedding_input audio_base64
    fuel c self env failed last
  = Some (LoopReturn resp mi, self, env2).
Proof.
  intros Hnn Hsel Hbuild Hatt. unfold iteration. rewrite Hsel, Hbuild, Hatt.
  apply select_model_inv in Hsel as (t & p & u & Hget & -> & _).
  pose proof (dict_get_Forall _ _ _ _ Hnn Hget) as Hu. simpl in Hu.
  unfold finally_, release. cbn [model_usage set_usage]. rewrite dict_get_set_eq.
  destruct (Z.gtb_spec (u + 1) 0); [|lia].
  rewrite set_usage_twice, dict_set_set. replace (u + 1 - 1) with u by lia.
  rewrite dict_set_same by exact Hget. by rewrite set_usage_same.
Qed.

Lemma iteration_failed (fuel : nat) (c : option (list Message)) (self self1 : LLMRequest)
    (env env2 : Env) (failed : gset string) (last : option PyExc)
    (mi : ModelInfo) (prov : APIProvider) (cl : Client) (msgs : list Message)
    (msg : FailMsg) (orig : option PyExc) (t p u : Z) :
  dict_get (name mi) (model_usage self) = Some (t, p, u) ->
  _select_model self (Some failed) = (Return (mi, prov, cl), self1) ->
  build_messages message_factory cl = Return msgs ->
  _attempt_request_on_model mi prov cl request_type msgs
    params embedding_input audio_base64 fuel c (log (EvSelect (name mi)) env)
  = Some (Raise (ModelAttemptFailed msg orig), env2) ->
  iteration request_type message_factory params embedding_input audio_base64
    fuel c self env failed last
  = Some (if is_bad_request (surfaced (ModelAttemptFailed msg orig))
          then LoopRaise (surfaced (ModelAttemptFailed msg orig))
          else LoopNext (failed ∪ {[ name mi ]})
                 (Some (surfaced (ModelAttemptFailed msg orig))),
          set_usage self (dict_set (name mi)
                            (t, p + 1, if u + 1 >? 0 then u else u + 1) (model_usage self)),
          env2).
Proof.
  intros Hget Hsel Hbuild Hatt. unfold iteration. rewrite Hsel, Hbuild, Hatt.
  apply select_model_inv in Hsel as (t' & p' & u' & Hget' & -> & _).
  rewrite Hget in Hget'. injection Hget' as <- <- <-.
  unfold penalize. cbn [model_usage set_usage]. rewrite dict_get_set_eq.
  rewrite set_usage_twice, dict_set_set.
  assert (finally_ (set_usage self (dict_set (name mi) (t, p + 1, u + 1) (model_usage self)))
            (name mi) =
          fun r env => (r, set_usage self
                             (dict_set (name mi)
                                (t, p + 1, if u + 1 >? 0 then u else u + 1)
                                (model_usage self)),
                        env)) as ->.
  { unfold finally_, release. cbn [model_usage set_usage]. rewrite dict_get_set_eq.
    destruct (Z.gtb_spec (u + 1) 0); [|reflexivity].
    rewrite set_usage_twice, dict_set_set. by replace (u + 1 - 1) with u by lia. }
  by destruct (is_bad_request _).
Qed.

Lemma iteration_escaped (fuel : nat) (c : option (list Message)) (self self1 : LLMRequest)
    (env env2 : Env) (failed : gset string) (last : option PyExc)
    (mi : ModelInfo) (prov : APIProvider) (cl : Client) (msgs : list Message)
    (e : PyExc) :
  usage_nonneg self ->
  (forall msg orig, e <> ModelAttemptFailed msg orig) ->
  _select_model self (Some failed) = (Return (mi, prov, cl), self1) ->
  build_messages message_factory cl = Return msgs ->
  _attempt_request_on_model mi prov cl request_type msgs
    params embedding_input audio_base64 fuel c (log (EvSelect (name mi)) env)
  = Some (Raise e, env2) ->
  iteration request_type message_factory params embedding_input audio_base64
    fuel c self env failed last
  = Some (LoopRaise e, self, env2).
Proof.
  intros Hnn He Hsel Hbuild Hatt. unfold iteration. rewrite Hsel, Hbuild, Hatt.
  apply select_model_inv in Hsel as (t & p & u & Hget & -> & _).
  pose proof (dict_get_Forall _ _ _ _ Hnn Hget) as Hu. simpl in Hu.
  assert (finally_ (set_usage self (dict_set (name mi) (t, p, u + 1) (model_usage self)))
            (name mi) (LoopRaise e) env2 = (LoopRaise e, self, env2)) as Hfin.
  { unfold finally_, release. cbn [model_usage set_usage]. rewrite dict_get_set_eq.
    destruct (Z.gtb_spec (u + 1) 0); [|lia].
    rewrite set_usage_twice, dict_set_set. replace (u + 1 - 1) with u by lia.
    rewrite dict_set_same by exact Hget. by rewrite set_usage_same. }
  destruct e; try (by rewrite Hfin). by destruct (He msg original_exception).
Qed.

(** Every pass that ends leaves each in-flight penalty as it found it,
    unless the message factory raised: then the selected model keeps the
    in-flight penalty the selection gave it. *)
Lemma iteration_restores (fuel : nat) (c : option (list Message)) (self self' : LLMRequest)
    (env env' : Env) (failed : gset string) (last : option PyExc) (res : LoopResult) :
  usage_nonneg self ->
  iteration request_type message_factory params embedding_input audio_base64
    fuel c self env failed last = Some (res, self', env') ->
  ((forall m, usage_penalty_of self' m = usage_penalty_of self m) /\ usage_nonneg self')
  \/ (exists mi prov cl e,
        _select_model self (Some failed) = (Return (mi, prov, cl), self')
        /\ build_messages message_factory cl = Raise e
        /\ res = LoopRaise e
        /\ env' = log (EvSelect (name mi)) env).
Proof.
  intros Hnn Hit.
  destruct (_select_model self (Some failed)) as [[[[mi prov] cl]|e] self1] eqn:Hsel.
  - destruct (build_messages message_factory cl) as [msgs|e] eqn:Hbuild.
    2:{ rewrite (iteration_factory_raised _ _ _ _ _ _ _ _ _ _ _ Hsel Hbuild) in Hit.
        injection Hit as <- <- <-. right. by exists mi, prov, cl, e. }
    left.
    destruct (_attempt_request_on_model mi prov cl request_type msgs
                params embedding_input audio_base64
                fuel c (log (EvSelect (name mi)) env)) as [[o env2]|] eqn:Hatt.
    + pose proof Hsel as Hinv.
      apply select_model_inv in Hinv as (t & p & u & Hget & _).
      pose proof (dict_get_Forall _ _ _ _ Hnn Hget) as Hu. simpl in Hu.
      destruct o as [resp|e].
      * rewrite (iteration_return _ _ _ _ _ _ _ _ _ _ _ _ _ Hnn Hsel Hbuild Hatt) in Hit.
        injection Hit as _ <- _. by split.
      * assert ((exists msg orig, e = ModelAttemptFailed msg orig)
                \/ forall msg orig, e <> ModelAttemptFailed msg orig) as [(msg & orig & ->)|He]
          by (destruct e; eauto; right; discriminate).
        -- rewrite (iteration_failed _ _ _ _ _ _ _ _ _ _ _ _ _ _ _ _ _ Hget Hsel Hbuild Hatt)
             in Hit.
           injection Hit as _ <- _. destruct (Z.gtb_spec (u + 1) 0); [|lia]. split.
           ++ by apply usage_penalty_after with (p := p).
           ++ by apply usage_nonneg_after.
        -- rewrite (iteration_escaped _ _ _ _ _ _ _ _ _ _ _ _ _ Hnn He Hsel Hbuild Hatt)
             in Hit.
           injection Hit as _ <- _. by split.
    + unfold iteration in Hit. rewrite Hsel, Hbuild, Hatt in Hit. discriminate.
  - unfold iteration in Hit. rewrite Hsel in Hit. injection Hit as _ <- _.
    apply select_model_raise in Hsel as ->. left. by split.
Qed.

Lemma execute_loop_restores (fuel : nat) (c : option (list Message)) (n : nat)
    (self self' : LLMRequest) (env env' : Env) (failed : gset string)
    (last : option PyExc) (res : LoopResult) :
  factory_returns message_factory ->
  usage_nonneg self ->
  execute_loop request_type message_factory params embedding_input audio_base64
    fuel c n self env failed last = Some (res, self', env') ->
  (forall m, usage_penalty_of self' m = usage_penalty_of self m) /\ usage_nonneg self'.
Proof.
  intros Hfac. revert self env failed last.
  induction n as [|n IH]; intros self env failed last Hnn.
  - intros [= _ <- _]. by split.
  - cbn [execute_loop].
    destruct (iteration _ _ _ _ _ fuel c self env failed last)
      as [[[r self1] env1]|] eqn:Hit; [|discriminate].
    destruct (iteration_restores _ _ _ _ _ _ _ _ _ Hnn Hit)
      as [[Hsame Hnn1]|(mi & prov & cl & e & _ & Hbuild & _)];
      [|destruct (Hfac cl) as [msgs Hret]; congruence].
    destruct r as [resp mi|e|failed1 last1].
    + intros [= _ <- _]. by split.
    + intros [= _ <- _]. by split.
    + intros Hloop. destruct (IH _ _ _ _ Hnn1 Hloop) as [Hsame2 Hnn2].
      split; [|assumption]. intros m. by rewrite Hsame2.
Qed.

(** When the message factory returns (as it does when there is none), the
    in-flight penalty is a scoped resource: for a table whose in-flight
    penalties are not negative, selection raises the chosen model's
    in-flight penalty by one, every pass of the failover loop that ends (by
    return, a failed attempt, the 400 abort or an exception that escapes
    the attempt) leaves every model's in-flight penalty at the value it had
    before the pass selected, and so does the whole request; the penalties
    stay non-negative. *)
Lemma in_flight_penalty_restored_when_factory_returns :
  factory_returns message_factory ->
  (forall (self self1 : LLMRequest) (failed : gset string)
          (mi : ModelInfo) (prov : APIProvider) (cl : Client),
     _select_model self (Some failed) = (Return (mi, prov, cl), self1) ->
     usage_penalty_of self1 (name mi)
     = (fun u => u + 1) <$> usage_penalty_of self (name mi))
  /\ (forall (fuel : nat) (c : option (list Message)) (self self' : LLMRequest)
             (env env' : Env) (failed : gset string) (last : option PyExc)
             (res : LoopResult),
        usage_nonneg self ->
        iteration request_type message_factory params embedding_input audio_base64
          fuel c self env failed last = Some (res, self', env') ->
        (forall m, usage_penalty_of self' m = usage_penalty_of self m)
        /\ usage_nonneg self')
  /\ (forall (fuel : nat) (self self' : LLMRequest) (env env' : Env)
             (res : Outcome (APIResponse * ModelInfo)),
        usage_nonneg self ->
        _execute_request request_type message_factory params embedding_input audio_base64
          fuel self env = Some (res, self', env') ->
        (forall m, usage_penalty_of self' m = usage_penalty_of self m)
        /\ usage_nonneg self').
Proof.
  intros Hfac. split; [|split].
  - intros self self1 failed mi prov cl Hsel.
    apply select_model_inv in Hsel as (t & p & u & Hget & -> & _).
    unfold usage_penalty_of. cbn [model_usage set_usage].
    by rewrite dict_get_set_eq, Hget.
  - intros fuel c self self' env env' failed last res Hnn Hit.
    destruct (iteration_restores _ _ _ _ _ _ _ _ _ Hnn Hit)
      as [Hok|(mi & prov & cl & e & _ & Hbuild & _)]; [exact Hok|].
    destruct (Hfac cl) as [msgs Hret]. congruence.
  - intros fuel self self' env env' res Hnn. unfold _execute_request.
    destruct (execute_loop _ _ _ _ _ fuel None (length (model_list self)) self env ∅ None)
      as [[[r self1] env1]|] eqn:Hloop; [|discriminate].
    destruct (execute_loop_restores _ _ _ _ _ _ _ _ _ _ Hfac Hnn Hloop) as [Hsame Hnn1].
    destruct r as [resp mi|e|failed1 [last1|]]; intros [= _ <- _]; by split.
Qed.

End FailoverFacts.

Section AbortFacts.
Import Dispatcher.
Context `{Backend}.
Variables (request_type : RequestType)
          (message_factory : option (Client -> Outcome (list Message)))
          (params : GenParams) (embedding_input audio_base64 : option string).

(** A hard HTTP status ends the attempt in the pass that receives it. *)
Lemma attempt_step_hard_status (mi : ModelInfo) (prov : APIProvider) (cl : Client)
    (msgs : list Message) (c : option (list Message)) (r : Z) (env : Env)
    (req : Request Message GenParams) (status : Z) (w1 : World) :
  status <> 429 -> status < 500 ->
  (status = 413 -> truthy msgs = false \/ truthy_opt c = true) ->
  request_for mi cl request_type msgs params embedding_input audio_base64 c = Some req ->
  client_call req (world env) = (Raise (RespNotOkException status), w1) ->
  attempt_step mi prov cl request_type msgs params embedding_input audio_base64 c r env
  = (Done (Raise (ModelAttemptFailed HardError (Some (RespNotOkException status)))),
     {| world := w1; trace := trace env ++ [EvCall req] |}).
Proof.
  intros H429 H500 H413 Hreq Hcall. unfold attempt_step.
  rewrite (send_request _ _ _ _ _ _ _ c env req Hreq), Hcall. cbn [fst snd].
  destruct (Z.eqb_spec status 429); [done|].
  destruct (Z.geb_spec status 500); [lia|]. cbn [orb].
  destruct (Z.eqb_spec status 413) as [E|]; [|reflexivity].
  destruct (H413 E) as [-> | ->]; [reflexivity|]. cbn. by rewrite andb_false_r.
Qed.

(** C6: when the attempt on the selected model, made with the message
    list the factory returned, fails with an HTTP 400
    behind it, the loop ends in that pass with the 400 error, in the
    environment the attempt left (no further selection or call), however
    many passes and models remain, and so does the request when this is its
    first pass; when the failure is any other, the pass adds only the
    failing model to the exclusion set, raises its failure penalty by one,
    leaves the other entries alone and the loop goes on with the remaining
    passes. The statuses 400, 401, 402, 403 and 404 each end the attempt at
    once as a hard failure wrapping the error, and of all statuses only 400
    is the whole-request abort. *)
Theorem bad_request_aborts_whole_request :
  (forall (fuel : nat) (c : option (list Message)) (n : nat) (self self1 : LLMRequest)
          (env env2 : Env) (failed : gset string) (last : option PyExc)
          (mi : ModelInfo) (prov : APIProvider) (cl : Client) (msgs : list Message)
          (msg : FailMsg),
     _select_model self (Some failed) = (Return (mi, prov, cl), self1) ->
     build_messages message_factory cl = Return msgs ->
     _attempt_request_on_model mi prov cl request_type msgs
       params embedding_input audio_base64 fuel c (log (EvSelect (name mi)) env)
     = Some (Raise (ModelAttemptFailed msg (Some (RespNotOkException 400))), env2) ->
     exists self',
       execute_loop request_type message_factory params embedding_input audio_base64
         fuel c (S n) self env failed last
       = Some (LoopRaise (RespNotOkException 400), self', env2))
  /\ (forall (fuel : nat) (self self1 : LLMRequest) (env env2 : Env)
             (mi : ModelInfo) (prov : APIProvider) (cl : Client) (msgs : list Message)
             (msg : FailMsg),
        model_list self <> [] ->
        _select_model self (Some ∅) = (Return (mi, prov, cl), self1) ->
        build_messages message_factory cl = Return msgs ->
        _attempt_request_on_model mi prov cl request_type msgs
          params embedding_input audio_base64 fuel None (log (EvSelect (name mi)) env)
        = Some (Raise (ModelAttemptFailed msg (Some (RespNotOkException 400))), env2) ->
        exists self',
          _execute_request request_type message_factory params embedding_input audio_base64
            fuel self env
          = Some (Raise (RespNotOkException 400), self', env2))
  /\ (forall (fuel : nat) (c : option (list Message)) (n : nat) (self self1 : LLMRequest)
             (env env2 : Env) (failed : gset string) (last : option PyExc)
             (mi : ModelInfo) (prov : APIProvider) (cl : Client) (msgs : list Message)
             (msg : FailMsg) (orig : option PyExc),
        _select_model self (Some failed) = (Return (mi, prov, cl), self1) ->
        build_messages message_factory cl = Return msgs ->
        _attempt_request_on_model mi prov cl request_type msgs
          params embedding_input audio_base64 fuel c (log (EvSelect (name mi)) env)
        = Some (Raise (ModelAttemptFailed msg orig), env2) ->
        is_bad_request (surfaced (ModelAttemptFailed msg orig)) = false ->
        exists self',
          execute_loop request_type message_factory params embedding_input audio_base64
            fuel c (S n) self env failed last
          = execute_loop request_type message_factory params embedding_input audio_base64
              fuel c n self' env2 (failed ∪ {[ name mi ]})
              (Some (surfaced (ModelAttemptFailed msg orig)))
          /\ penalty_of self' (name mi) = (fun p => p + 1) <$> penalty_of self (name mi)
          /\ forall m, m <> name mi ->
                       dict_get m (model_usage self') = dict_get m (model_usage self))
  /\ (forall status : Z, is_bad_request (RespNotOkException status) = true <-> status = 400)
  /\ (forall (mi : ModelInfo) (prov : APIProvider) (cl : Client) (msgs : list Message)
             (c : option (list Message)) (r : Z) (env : Env)
             (req : Request Message GenParams) (status : Z) (w1 : World),
        In status [400; 401; 402; 403; 404] ->
        request_for mi cl request_type msgs params embedding_input audio_base64 c = Some req ->
        client_call req (world env) = (Raise (RespNotOkException status), w1) ->
        attempt_step mi prov cl request_type msgs params embedding_input audio_base64 c r env
        = (Done (Raise (ModelAttemptFailed HardError (Some (RespNotOkException status)))),
           {| world := w1; trace := trace env ++ [EvCall req] |})).
Proof.
  assert (forall (fuel : nat) (c : option (list Message)) (n : nat) (self self1 : LLMRequest)
          (env env2 : Env) (failed : gset string) (last : option PyExc)
          (mi : ModelInfo) (prov : APIProvider) (cl : Client) (msgs : list Message)
          (msg : FailMsg),
     _select_model self (Some failed) = (Return (mi, prov, cl), self1) ->
     build_messages message_factory cl = Return msgs ->
     _attempt_request_on_model mi prov cl request_type msgs
       params embedding_input audio_base64 fuel c (log (EvSelect (name mi)) env)
     = Some (Raise (ModelAttemptFailed msg (Some (RespNotOkException 400))), env2) ->
     exists self',
       execute_loop request_type message_factory params embedding_input audio_base64
         fuel c (S n) self env failed last
       = Some (LoopRaise (RespNotOkException 400), self', env2)) as Habort.
  { intros fuel c n self self1 env env2 failed last mi prov cl msgs msg Hsel Hbuild Hatt.
    pose proof Hsel as Hinv. apply select_model_inv in Hinv as (t & p & u & Hget & _).
    eexists. cbn [execute_loop].
    rewrite (iteration_failed _ _ _ _ _ _ _ _ _ _ _ _ _ _ _ _ _ _ _ _ _ _
               Hget Hsel Hbuild Hatt).
    reflexivity. }
  split; [exact Habort|]. split; [|split; [|split]].
  - intros fuel self self1 env env2 mi prov cl msgs msg Hne Hsel Hbuild Hatt.
    unfold _execute_request.
    destruct (model_list self) as [|m0 ms] eqn:Hml; [done|]. cbn [length].
    destruct (Habort fuel None (length ms) self self1 env env2 ∅ None mi prov cl msgs msg
                Hsel Hbuild Hatt) as [self' ->].
    by exists self'.
  - intros fuel c n self self1 env env2 failed last mi prov cl msgs msg orig
      Hsel Hbuild Hatt Hbad.
    pose proof Hsel as Hinv. apply select_model_inv in Hinv as (t & p & u & Hget & _).
    eexists. cbn [execute_loop].
    rewrite (iteration_failed _ _ _ _ _ _ _ _ _ _ _ _ _ _ _ _ _ _ _ _ _ _
               Hget Hsel Hbuild Hatt).
    rewrite Hbad. split; [reflexivity|]. split.
    + unfold penalty_of. cbn [model_usage set_usage].
      by rewrite dict_get_set_eq, Hget.
    + intros m Hm. cbn [model_usage set_usage]. by rewrite dict_get_set_ne.
  - intros status. simpl. apply Z.eqb_eq.
  - intros mi prov cl msgs c r env req status w1 Hin Hreq Hcall.
    apply attempt_step_hard_status; [| | |assumption..];
      simpl in Hin; intuition lia.
Qed.

End AbortFacts.

Section TraceFacts.
Import Dispatcher.
Context `{Backend}.
Variables (request_type : RequestType)
          (message_factory : option (Client -> Outcome (list Message)))
          (params : GenParams) (embedding_input audio_base64 : option string).

Lemma finally_env (self : LLMRequest) (m : string) (r : LoopResult) (env : Env) :
  (finally_ self m r env).2 = env.
Proof. unfold finally_. by destruct (release self m). Qed.

(** The environment a pass leaves: the one it found when no model could be
    selected, the one with the selection logged when the factory raised,
    and else the one its attempt left. *)
Lemma iteration_env (fuel : nat) (c : option (list Message)) (self self' : LLMRequest)
    (env env' : Env) (failed : gset string) (last : option PyExc) (res : LoopResult) :
  iteration request_type message_factory params embedding_input audio_base64
    fuel c self env failed last = Some (res, self', env') ->
  env' = env
  \/ (exists mi prov cl self1 e,
        _select_model self (Some failed) = (Return (mi, prov, cl), self1)
        /\ build_messages message_factory cl = Raise e
        /\ env' = log (EvSelect (name mi)) env)
  \/ exists mi prov cl self1 msgs o,
       _select_model self (Some failed) = (Return (mi, prov, cl), self1)
       /\ build_messages message_factory cl = Return msgs
       /\ _attempt_request_on_model mi prov cl request_type
            msgs params embedding_input audio_base64
            fuel c (log (EvSelect (name mi)) env) = Some (o, env').
Proof.
  unfold iteration.
  destruct (_select_model self (Some failed)) as [[[[mi prov] cl]|e] self1] eqn:Hsel.
  - destruct (build_messages message_factory cl) as [msgs|e] eqn:Hbuild.
    2:{ intros [= _ _ <-]. right. left. by exists mi, prov, cl, self1, e. }
    destruct (_attempt_request_on_model _ _ _ _ _ _ _ _ _ _ _) as [[o env2]|] eqn:Hatt;
      [|discriminate].
    intros Hit. right. right. exists mi, prov, cl, self1, msgs, o.
    split; [reflexivity|]. split; [exact Hbuild|].
    rewrite Hatt. do 2 f_equal.
    assert (forall s m r, Some (finally_ s m r env2) = Some (res, self', env') ->
                          env2 = env') as Hfin.
    { intros s m r [= Heq]. rewrite <- (finally_env s m r env2), Heq. reflexivity. }
    destruct o as [resp|e]; [by eapply Hfin|].
    destruct e; try (by eapply Hfin).
    destruct (penalize self1 (name mi)); [destruct (is_bad_request _)|]; by eapply Hfin.
  - intros [= _ _ <-]. by left.
Qed.

Lemma iteration_trace (fuel : nat) (c : option (list Message)) (self self' : LLMRequest)
    (env env' : Env) (failed : gset string) (last : option PyExc) (res : LoopResult) :
  iteration request_type message_factory params embedding_input audio_base64
    fuel c self env failed last = Some (res, self', env') ->
  exists evs, trace env' = trace env ++ evs
              /\ ((forall cl msgs, build_messages message_factory cl = Return msgs ->
                                   truthy msgs = false) ->
                  Forall (fun ev => is_compress ev = false) evs).
Proof.
  intros Hit. destruct (iteration_env _ _ _ _ _ _ _ _ _ Hit)
    as [->|[(mi & prov & cl & self1 & e & _ & _ & ->)
           |(mi & prov & cl & self1 & msgs & o & _ & Hbuild & Hatt)]].
  - exists []. by rewrite app_nil_r.
  - exists [EvSelect (name mi)]. split; [reflexivity|]. intros _. by repeat constructor.
  - apply attempt_loop_trace in Hatt as (evs & Ht & _ & Hc).
    exists (EvSelect (name mi) :: evs). split.
    + rewrite Ht. simpl. by rewrite <- app_assoc.
    + intros Hm. constructor; [reflexivity|]. apply Hc. by apply (Hm cl).
Qed.

Lemma execute_loop_trace (fuel : nat) (c : option (list Message)) (n : nat)
    (self self' : LLMRequest) (env env' : Env) (failed : gset string)
    (last : option PyExc) (res : LoopResult) :
  execute_loop request_type message_factory params embedding_input audio_base64
    fuel c n self env failed last = Some (res, self', env') ->
  exists evs, trace env' = trace env ++ evs
              /\ ((forall cl msgs, build_messages message_factory cl = Return msgs ->
                                   truthy msgs = false) ->
                  Forall (fun ev => is_compress ev = false) evs).
Proof.
  revert self env failed last. induction n as [|n IH]; intros self env failed last.
  - intros [= _ _ <-]. exists []. by rewrite app_nil_r.
  - cbn [execute_loop].
    destruct (iteration _ _ _ _ _ fuel c self env failed last)
      as [[[r self1] env1]|] eqn:Hit; [|discriminate].
    destruct (iteration_trace _ _ _ _ _ _ _ _ _ Hit) as (evs1 & Ht1 & Hc1).
    destruct r as [resp mi|e|failed1 last1].
    + intros [= _ _ <-]. by exists evs1.
    + intros [= _ _ <-]. by exists evs1.
    + intros Hloop. destruct (IH _ _ _ _ Hloop) as (evs2 & Ht2 & Hc2).
      exists (evs1 ++ evs2). rewrite Ht2, Ht1, <- app_assoc. split; [reflexivity|].
      intros Hm. apply Forall_app; auto.
Qed.

Lemma execute_request_trace (fuel : nat) (self self' : LLMRequest) (env env' : Env)
    (res : Outcome (APIResponse * ModelInfo)) :
  _execute_request request_type message_factory params embedding_input audio_base64
    fuel self env = Some (res, self', env') ->
  exists evs, trace env' = trace env ++ evs
              /\ ((forall cl msgs, build_messages message_factory cl = Return msgs ->
                                   truthy msgs = false) ->
                  Forall (fun ev => is_compress ev = false) evs).
Proof.
  unfold _execute_request.
  destruct (execute_loop _ _ _ _ _ fuel None (length (model_list self)) self env ∅ None)
    as [[[r self1] env1]|] eqn:Hloop; [|discriminate].
  apply execute_loop_trace in Hloop.
  destruct r as [resp mi|e|failed1 [last1|]]; by intros [= _ _ <-].
Qed.

End TraceFacts.

Section EmptyMessageList.
Import Dispatcher.
Context `{Backend}.

Lemma no_factory_no_compress (request_type : RequestType) (params : GenParams)
    (embedding_input audio_base64 : option string) (fuel : nat)
    (self self' : LLMRequest) (env env' : Env) (res : Outcome (APIResponse * ModelInfo)) :
  _execute_request request_type None params embedding_input audio_base64 fuel self env
  = Some (res, self', env') ->
  count is_compress (trace env') = count is_compress (trace env).
Proof.
  intros Hex. apply execute_request_trace in Hex as (evs & -> & Hc).
  rewrite count_app, (count_none is_compress evs); [lia|].
  apply Hc. by intros cl msgs [= <-].
Qed.

(** C10: with an empty message list, a 413 answer ends the pass at once as
    a hard failure wrapping the 413, whatever the retry budget, with the
    client call as the only event; no run of the attempt ever calls the
    compressor; and a request made without a message factory — as
    [get_embedding] and [generate_response_for_voice] make theirs — never
    calls it either. *)
Theorem empty_message_list_413_is_fatal :
  (forall (mi : ModelInfo) (prov : APIProvider) (cl : Client) (rt : RequestType)
          (params : GenParams) (emb audio : option string)
          (c : option (list Message)) (r : Z) (env : Env)
          (req : Request Message GenParams) (w1 : World),
     request_for mi cl rt [] params emb audio c = Some req ->
     client_call req (world env) = (Raise (RespNotOkException 413), w1) ->
     attempt_step mi prov cl rt [] params emb audio c r env
     = (Done (Raise (ModelAttemptFailed HardError (Some (RespNotOkException 413)))),
        {| world := w1; trace := trace env ++ [EvCall req] |}))
  /\ (forall (mi : ModelInfo) (prov : APIProvider) (cl : Client) (rt : RequestType)
             (params : GenParams) (emb audio : option string) (fuel : nat)
             (c : option (list Message)) (env env' : Env) (o : Outcome APIResponse),
        _attempt_request_on_model mi prov cl rt [] params emb audio fuel c env
        = Some (o, env') ->
        count is_compress (trace env') = count is_compress (trace env))
  /\ (forall (rt : RequestType) (params : GenParams) (emb audio : option string)
             (fuel : nat) (self self' : LLMRequest) (env env' : Env)
             (res : Outcome (APIResponse * ModelInfo)),
        _execute_request rt None params emb audio fuel self env = Some (res, self', env') ->
        count is_compress (trace env') = count is_compress (trace env))
  /\ (forall (fuel : nat) (input : string) (self self' : LLMRequest) (env env' : Env)
             (res : Outcome (APIResponse * ModelInfo)),
        get_embedding fuel input self env = Some (res, self', env') ->
        count is_compress (trace env') = count is_compress (trace env))
  /\ (forall (fuel : nat) (voice : string) (self self' : LLMRequest) (env env' : Env)
             (res : Outcome (APIResponse * ModelInfo)),
        generate_response_for_voice fuel voice self env = Some (res, self', env') ->
        count is_compress (trace env') = count is_compress (trace env)).
Proof.
  split; [|split; [|split; [|split]]].
  - intros mi prov cl rt params emb audio c r env req w1 Hreq Hcall.
    apply attempt_step_hard_status; [lia|lia|by left|assumption..].
  - intros mi prov cl rt params emb audio fuel c env env' o Hatt.
    apply attempt_loop_trace in Hatt as (evs & -> & _ & Hc).
    rewrite count_app, (count_none is_compress evs); [lia|]. by apply Hc.
  - intros rt params emb audio fuel self self' env env' res. apply no_factory_no_compress.
  - intros fuel input self self' env env' res. apply no_factory_no_compress.
  - intros fuel voice self self' env env' res. apply no_factory_no_compress.
Qed.

End EmptyMessageList.

Section AllFail.
Import Dispatcher.
Context `{Backend}.
Variables (request_type : RequestType)
          (message_factory : option (Client -> Outcome (list Message)))
          (params : GenParams) (embedding_input audio_base64 : option string).

(** While fewer models have failed than the table holds, one is left. *)
Lemma model_left (keys : list string) (failed : gset string) :
  NoDup keys -> (size failed < length keys)%nat ->
  exists m, In m keys /\ m ∉ failed.
Proof.
  intros Hnd Hsize.
  destruct (decide (Forall (fun m => m ∈ failed) keys)) as [Hall|Hnot].
  - assert (list_to_set keys ⊆ failed) as Hsub.
    { intros m Hm. apply elem_of_list_to_set in Hm.
      by apply (proj1 (Forall_forall _ _) Hall). }
    apply subseteq_size in Hsub. rewrite size_list_to_set in Hsub by assumption. lia.
  - apply not_Forall_Exists in Hnot; [|apply _].
    apply Exists_exists in Hnot as (m & Hm & Hout).
    exists m. split; [by apply list_elem_of_In|exact Hout].
Qed.

Lemma count_select_attempt (mi : ModelInfo) (prov : APIProvider) (cl : Client)
    (msgs : list Message) (fuel : nat) (c : option (list Message)) (env env' : Env)
    (o : Outcome APIResponse) :
  _attempt_request_on_model mi prov cl request_type msgs params embedding_input audio_base64
    fuel c (log (EvSelect (name mi)) env) = Some (o, env') ->
  count is_select (trace env') = S (count is_select (trace env)).
Proof.
  intros Hatt. apply attempt_loop_trace in Hatt as (evs & -> & Hs & _).
  rewrite count_app, (count_none is_select evs Hs). simpl.
  rewrite count_app. simpl. unfold count at 2. simpl. lia.
Qed.

Lemma select_model_endpoint (self self1 : LLMRequest) (ex : option (gset string))
    (mi : ModelInfo) (prov : APIProvider) (cl : Client) :
  _select_model self ex = (Return (mi, prov, cl), self1) ->
  endpoint (Dispatcher.request_type self) (name mi) = (mi, prov, cl).
Proof.
  unfold _select_model, endpoint.
  destruct (py_min _ _) as [[k sc]|]; [|discriminate].
  destruct (dict_get _ _) as [[[t p] u]|]; [|discriminate].
  by intros [= <- <- <- _].
Qed.

(** What the loop keeps of a failed attempt is the exception behind it,
    and the attempt's own exception when there is none behind it; it is
    the whole-request abort only when the exception behind is a 400. *)
Lemma surfaced_underlying (msg : FailMsg) (orig : option PyExc) :
  surfaced (ModelAttemptFailed msg orig)
  = match orig with
    | Some underlying => underlying
    | None => ModelAttemptFailed msg None
    end.
Proof. by destruct orig. Qed.

Lemma not_bad_request (msg : FailMsg) (orig : option PyExc) :
  orig <> Some (RespNotOkException 400) ->
  is_bad_request (surfaced (ModelAttemptFailed msg orig)) = false.
Proof.
  intros Hne. rewrite surfaced_underlying. destruct orig as [e|]; [|reflexivity].
  destruct e; try reflexivity. simpl. apply Z.eqb_neq. intros ->. by apply Hne.
Qed.

Section Loop.
Variables (fuel : nat) (I : World -> Prop) (models : list string) (rt_name : string).
Hypothesis attempts_fail :
  forall (m : string) (mi : ModelInfo) (prov : APIProvider) (cl : Client) (env0 : Env),
    In m models -> endpoint rt_name m = (mi, prov, cl) ->
    I (world env0) ->
    exists msgs msg orig env1,
      build_messages message_factory cl = Return msgs
      /\ _attempt_request_on_model mi prov cl request_type msgs
           params embedding_input audio_base64 fuel None env0
         = Some (Raise (ModelAttemptFailed msg orig), env1)
      /\ orig <> Some (RespNotOkException 400)
      /\ I (world env1).

Lemma execute_loop_all_fail (n : nat) :
  forall (self : LLMRequest) (env : Env) (failed : gset string) (last : option PyExc),
    (model_usage self).*1 = models -> Dispatcher.request_type self = rt_name ->
    NoDup (model_usage self).*1 -> usage_nonneg self -> I (world env) ->
    (size failed + n = length (model_usage self).*1)%nat ->
    failed ⊆ list_to_set (model_usage self).*1 ->
    exists last' self' env',
      execute_loop request_type message_factory params embedding_input audio_base64
        fuel None n self env failed last
      = Some (LoopNext (list_to_set (model_usage self).*1) last', self', env')
      /\ count is_select (trace env') = (count is_select (trace env) + n)%nat
      /\ (forall m, dict_get m (model_usage self')
                    = if bool_decide (m ∈ failed) then dict_get m (model_usage self)
                      else bump <$> dict_get m (model_usage self))
      /\ (n = 0%nat -> last' = last)
      /\ (n <> 0%nat ->
          exists mi prov cl env0 msgs msg orig,
            build_messages message_factory cl = Return msgs
            /\ _attempt_request_on_model mi prov cl request_type
                 msgs params embedding_input audio_base64
                 fuel None env0
               = Some (Raise (ModelAttemptFailed msg orig), env')
            /\ last' = Some (surfaced (ModelAttemptFailed msg orig))).
Proof.
  induction n as [|n IH]; intros self env failed last Hmodels Hrt Hnd Hnn HI Hsize Hsub.
  - exists last, self, env. cbn [execute_loop].
    assert (failed = list_to_set (model_usage self).*1) as Hall.
    { apply set_subseteq_size_eq; [assumption|].
      rewrite size_list_to_set by assumption. lia. }
    split; [by rewrite <- Hall|]. split; [lia|]. split; [|split; [done|done]].
    intros m. case_bool_decide as Hm; [reflexivity|].
    destruct (dict_get m (model_usage self)) as [sc|] eqn:Hget; [|reflexivity].
    exfalso. apply Hm. rewrite Hall. apply elem_of_list_to_set.
    clear -Hget. induction (model_usage self) as [|[k v] d IHd]; [discriminate|].
    simpl in Hget. destruct (String.eqb_spec m k) as [->|]; [by left|].
    right. by apply IHd.
  - destruct (model_left (model_usage self).*1 failed Hnd ltac:(lia)) as (m0 & Hm0 & Hout).
    destruct (select_model_minimal self (Some failed)) as (mi & prov & cl & self1 & sc & Hsel & _).
    { by exists m0. }
    pose proof Hsel as Hinv.
    apply select_model_inv in Hinv as (t & p & u & Hget & _ & _ & _ & Hnex & Hkey).
    simpl in Hnex.
    pose proof (dict_get_Forall _ _ _ _ Hnn Hget) as Hu. simpl in Hu.
    pose proof (select_model_endpoint _ _ _ _ _ _ Hsel) as Hep. rewrite Hrt in Hep.
    rewrite Hmodels in Hkey.
    destruct (attempts_fail (name mi) mi prov cl (log (EvSelect (name mi)) env) Hkey Hep HI)
      as (msgs & msg & orig & env1 & Hbuild & Hatt & Hnot400 & HI1).
    pose proof (not_bad_request msg orig Hnot400) as Hbad.
    pose proof (iteration_failed request_type message_factory params embedding_input
                  audio_base64 fuel None self self1 env env1 failed last mi prov cl msgs
                  msg orig t p u Hget Hsel Hbuild Hatt) as Hit.
    rewrite Hbad in Hit. destruct (Z.gtb_spec (u + 1) 0); [|lia].
    set (self2 := set_usage self (dict_set (name mi) (t, p + 1, u) (model_usage self))) in *.
    assert ((model_usage self2).*1 = (model_usage self).*1) as Hkeys.
    { unfold self2. cbn [model_usage set_usage]. apply dict_set_keys. by rewrite Hget. }
    destruct (IH self2 env1 (failed ∪ {[ name mi ]})
                (Some (surfaced (ModelAttemptFailed msg orig))))
      as (last' & self' & env' & Hloop & Hcount & Htable & _ & Hlast).
    { by rewrite Hkeys. }
    { exact Hrt. }
    { by rewrite Hkeys. }
    { by apply usage_nonneg_after. }
    { exact HI1. }
    { rewrite Hkeys, size_union, size_singleton by set_solver. lia. }
    { rewrite Hkeys. apply union_subseteq. split; [assumption|].
      apply singleton_subseteq_l, elem_of_list_to_set. rewrite Hmodels.
      by apply list_elem_of_In. }
    exists last', self', env'. cbn [execute_loop]. rewrite Hit, Hloop, Hkeys.
    split; [reflexivity|]. split; [|split; [|split; [done|]]].
    + rewrite Hcount, (count_select_attempt _ _ _ _ _ _ _ _ _ Hatt). lia.
    + intros m. rewrite Htable. unfold self2. cbn [model_usage set_usage].
      destruct (String.eqb_spec (name mi) m) as [<-|Hne].
      * rewrite dict_get_set_eq, Hget.
        rewrite bool_decide_eq_true_2 by set_solver.
        by rewrite bool_decide_eq_false_2.
      * rewrite dict_get_set_ne by assumption.
        destruct (decide (m ∈ failed)) as [Hin|Hnotin].
        -- rewrite (bool_decide_eq_true_2 (m ∈ failed)) by assumption.
           rewrite bool_decide_eq_true_2; [reflexivity|]. apply elem_of_union. by left.
        -- rewrite (bool_decide_eq_false_2 (m ∈ failed)) by assumption.
           rewrite bool_decide_eq_false_2; [reflexivity|].
           intros [?|Hs%elem_of_singleton]%elem_of_union; congruence.
    + intros _. destruct n as [|n].
      * cbn [execute_loop] in Hloop. injection Hloop as _ <- _ <-.
        by exists mi, prov, cl, (log (EvSelect (name mi)) env), msgs, msg, orig.
      * by apply Hlast.
Qed.

End Loop.

(** C7: take a dispatcher whose configured models are pairwise distinct and
    are the keys of its table, with non-negative in-flight penalties, and
    suppose that for every configured model the factory returns and the
    attempt fails with something other than an HTTP 400 behind it (in the
    states of the world [I] the request can reach). Then the loop makes
    as many selections as there are models, ends with every model in the
    exclusion set, has raised each model's failure penalty by exactly one
    and changed nothing else in the table, and the request raises: with no
    model at all, the generic all-models-failed error; otherwise the
    exception behind the failure of the last attempt itself, not its
    [ModelAttemptFailed] wrapper, and the wrapper only when the last
    attempt failed with no exception behind it. *)
Theorem all_endpoints_fail_exhausts :
  forall (fuel : nat) (I : World -> Prop) (self : LLMRequest) (env : Env),
    NoDup (model_list self) ->
    (model_usage self).*1 = model_list self ->
    usage_nonneg self ->
    I (world env) ->
    (forall (m : string) (mi : ModelInfo) (prov : APIProvider) (cl : Client) (env0 : Env),
       In m (model_list self) -> endpoint (Dispatcher.request_type self) m = (mi, prov, cl) ->
       I (world env0) ->
       exists msgs msg orig env1,
         build_messages message_factory cl = Return msgs
         /\ _attempt_request_on_model mi prov cl request_type
              msgs params embedding_input audio_base64
              fuel None env0
            = Some (Raise (ModelAttemptFailed msg orig), env1)
         /\ orig <> Some (RespNotOkException 400)
         /\ I (world env1)) ->
    exists last self' env',
      execute_loop request_type message_factory params embedding_input audio_base64
        fuel None (length (model_list self)) self env ∅ None
      = Some (LoopNext (list_to_set (model_list self)) last, self', env')
      /\ count is_select (trace env')
         = (count is_select (trace env) + length (model_list self))%nat
      /\ (forall m,
            dict_get m (model_usage self')
            = (fun '(total_tokens, penalty, usage_penalty) =>
                 (total_tokens, penalty + 1, usage_penalty))
              <$> dict_get m (model_usage self))
      /\ (model_list self = [] ->
          last = None
          /\ _execute_request request_type message_factory params embedding_input
               audio_base64 fuel self env
             = Some (Raise (RuntimeError
                              "request failed: every available model has been tried and failed"),
                     self', env'))
      /\ (model_list self <> [] ->
          exists mi prov cl env0 msgs msg orig,
            build_messages message_factory cl = Return msgs
            /\ _attempt_request_on_model mi prov cl request_type
                 msgs params embedding_input audio_base64
                 fuel None env0
               = Some (Raise (ModelAttemptFailed msg orig), env')
            /\ last = Some (match orig with
                            | Some underlying => underlying
                            | None => ModelAttemptFailed msg None
                            end)
            /\ _execute_request request_type message_factory params embedding_input
                 audio_base64 fuel self env
               = Some (Raise (match orig with
                              | Some underlying => underlying
                              | None => ModelAttemptFailed msg None
                              end),
                       self', env')).
Proof.
  intros fuel I self env Hnd Hkeys Hnn HI Hfail.
  destruct (execute_loop_all_fail fuel I (model_list self) (Dispatcher.request_type self) Hfail
              (length (model_list self)) self env ∅ None)
    as (last & self' & env' & Hloop & Hcount & Htable & Hnone & Hlast).
  { exact Hkeys. }
  { reflexivity. }
  { by rewrite Hkeys. }
  { assumption. }
  { assumption. }
  { rewrite Hkeys, size_empty. lia. }
  { set_solver. }
  rewrite Hkeys in Hloop.
  exists last, self', env'. split; [exact Hloop|]. split; [exact Hcount|].
  split; [|split].
  - intros m. rewrite Htable. rewrite bool_decide_eq_false_2 by set_solver.
    destruct (dict_get m (model_usage self)) as [[[t p] u]|]; reflexivity.
  - intros Hnil. rewrite (Hnone ltac:(by rewrite Hnil)). split; [reflexivity|].
    unfold _execute_request. rewrite Hloop, (Hnone ltac:(by rewrite Hnil)). reflexivity.
  - intros Hne.
    destruct Hlast as (mi & prov & cl & env0 & msgs & msg & orig & Hbuild & Hatt & Hl).
    { by destruct (model_list self). }
    rewrite surfaced_underlying in Hl.
    exists mi, prov, cl, env0, msgs, msg, orig.
    split; [exact Hbuild|]. split; [exact Hatt|]. split; [exact Hl|].
    unfold _execute_request. rewrite Hloop, Hl. reflexivity.
Qed.

End AllFail.

Section CompressOnce.
Import Dispatcher.
Context `{Backend}.
Variables (model_info : ModelInfo) (provider : APIProvider) (client : Client)
          (request_type : RequestType) (message_list : list Message)
          (params : GenParams) (embedding_input audio_base64 : option string).

Lemma count_log (p : Event Message GenParams -> bool) (ev : Event Message GenParams)
    (env : Env) :
  count p (trace (log ev env)) = (count p (trace env) + if p ev then 1 else 0)%nat.
Proof.
  unfold log. cbn [trace]. rewrite count_app. f_equal. unfold count. simpl.
  by destruct (p ev).
Qed.

Lemma send_keeps_compress_count (c : option (list Message)) (env env1 : Env)
    (o : Outcome APIResponse) :
  send model_info client request_type message_list params
    embedding_input audio_base64 c env = (o, env1) ->
  count is_compress (trace env1) = count is_compress (trace env).
Proof.
  intros Hsend. destruct (send_trace _ _ _ _ _ _ _ _ _ _ _ Hsend) as [->|[req ->]];
    [reflexivity|].
  rewrite count_app. unfold count at 2. simpl. lia.
Qed.

(** Once a non-empty compressed payload is cached, the attempt does not
    compress again. *)
Lemma attempt_loop_cached (fuel : nat) (c : option (list Message)) (r : Z) (env env' : Env)
    (o : Outcome APIResponse) :
  truthy_opt c = true ->
  attempt_loop model_info provider client request_type message_list params
    embedding_input audio_base64 fuel c r env = Some (o, env') ->
  count is_compress (trace env') = count is_compress (trace env).
Proof.
  intros Hc. revert r env. induction fuel as [|fuel IH]; intros r env; cbn [attempt_loop].
  - destruct (r >? 0); [discriminate|]. by intros [= _ <-].
  - destruct (r >? 0); [|by intros [= _ <-]].
    destruct (attempt_step_shape model_info provider client request_type message_list
                params embedding_input audio_base64 c r env) as (o1 & env1 & Hsend & Hshape).
    apply send_keeps_compress_count in Hsend.
    destruct (attempt_step _ _ _ _ _ _ _ _ c r env) as [res env2].
    inversion Hshape; subst; try (intros [= _ <-]; exact Hsend).
    + intros Hloop. rewrite (IH _ _ Hloop), count_log, Hsend. simpl. lia.
    + congruence.
Qed.

(** Within one attempt the compressor runs at most once, provided what it
    returns is not an empty list. *)
Lemma attempt_loop_compresses_once (fuel : nat) (c : option (list Message)) (r : Z)
    (env env' : Env) (o : Outcome APIResponse) :
  truthy (compress_messages message_list) = true ->
  attempt_loop model_info provider client request_type message_list params
    embedding_input audio_base64 fuel c r env = Some (o, env') ->
  (count is_compress (trace env') <= count is_compress (trace env) + 1)%nat.
Proof.
  intros Hz. revert c r env. induction fuel as [|fuel IH]; intros c r env; cbn [attempt_loop].
  - destruct (r >? 0); [discriminate|]. intros [= _ <-]. lia.
  - destruct (r >? 0); [|intros [= _ <-]; lia].
    destruct (attempt_step_shape model_info provider client request_type message_list
                params embedding_input audio_base64 c r env) as (o1 & env1 & Hsend & Hshape).
    apply send_keeps_compress_count in Hsend.
    destruct (attempt_step _ _ _ _ _ _ _ _ c r env) as [res env2].
    inversion Hshape; subst; try (intros [= _ <-]; lia).
    + intros Hloop. apply IH in Hloop. rewrite count_log, Hsend in Hloop.
      simpl in Hloop. lia.
    + intros Hloop. apply attempt_loop_cached in Hloop; [|exact Hz].
      rewrite Hloop, count_log, Hsend. simpl. lia.
Qed.

End CompressOnce.

(** ** Concrete runs on the scripted backend *)

Section Runs.
Import Dispatcher.

(** C1: two models, each answering 413 to the uncompressed prompt. The
    first model also rejects the compressed payload and is given up; the
    second model is then sent the uncompressed prompt again and the
    compressor runs a second time within the same request. *)
Theorem compress_called_again_after_failover :
  exists self' env',
    @_execute_request scripted RESPONSE (prompt_factory "hello") tt None None 10
      (init ["a"; "b"] "chat") (start [too_large; too_large; too_large; Return "ok"])
    = Some (Return ("ok", @get_model_info scripted "b"), self', env')
    /\ trace env'
       = [EvSelect "a"; chat_call "a" ["hello"]; EvCompress ["hello"];
          chat_call "a" ["short hello"];
          EvSelect "b"; chat_call "b" ["hello"]; EvCompress ["hello"];
          chat_call "b" ["short hello"]]
    /\ @count scripted is_compress (trace env') = 2%nat.
Proof. eexists _, _. split; [vm_compute; reflexivity|]. split; reflexivity. Qed.

(** C2: a request whose message factory raises for the selected client.
    The exception leaves [_execute_request] between the selection and the
    [try] statement, so the [finally] clause never runs: model [a] keeps
    the in-flight penalty of a request that is over, no call was made, and
    the next selection on that table passes [a] over for [b], whereas the
    same request with a factory that returns gives [a] its penalty back. *)
Theorem in_flight_penalty_leaks_when_factory_raises :
  @_execute_request scripted RESPONSE (failing_factory (OtherException "unsupported image"))
    tt None None 10 (init ["a"; "b"] "chat") (start [Return "unused"])
  = Some (Raise (OtherException "unsupported image"),
          set_usage (init ["a"; "b"] "chat") [("a", (0, 0, 1)); ("b", (0, 0, 0))],
          @Build_Env scripted [Return "unused"] [EvSelect "a"])
  /\ usage_penalty_of (init ["a"; "b"] "chat") "a" = Some 0
  /\ usage_penalty_of
       (set_usage (init ["a"; "b"] "chat") [("a", (0, 0, 1)); ("b", (0, 0, 0))]) "a"
     = Some 1
  /\ chosen (@_select_model scripted (init ["a"; "b"] "chat") None).1 = Some "a"
  /\ chosen (@_select_model scripted
               (set_usage (init ["a"; "b"] "chat") [("a", (0, 0, 1)); ("b", (0, 0, 0))])
               None).1 = Some "b"
  /\ @_execute_request scripted RESPONSE (prompt_factory "hello")
       tt None None 10 (init ["a"; "b"] "chat") (start [Return "ok"])
     = Some (Return ("ok", @get_model_info scripted "a"),
             init ["a"; "b"] "chat",
             @Build_Env scripted [] [EvSelect "a"; chat_call "a" ["hello"]]).
Proof. repeat split; vm_compute; reflexivity. Qed.

(** C8 on the model whose provider is configured with no retry. *)
Lemma attempt_zero_budget_never_calls_witness :
  @_attempt_request_on_model scripted (@get_model_info scripted "off")
    (@get_provider scripted "off") (client_of "off") RESPONSE ["hello"] tt None None
    5 None (start [Return "unused"])
  = Some (Raise (ModelAttemptFailed NotAttempted None), start [Return "unused"]).
Proof.
  apply (proj1 (@attempt_zero_budget_never_calls scripted _ _ _ _ _ _ _ _)).
  simpl. lia.
Defined.

(** C5 on a network error, a 503 and then a success. *)
Lemma transient_failures_retry_with_backoff_witness :
  @_attempt_request_on_model scripted (@get_model_info scripted "a")
    (@get_provider scripted "a") (client_of "a") RESPONSE ["hello"] tt None None
    5 None
    (@Build_Env scripted
       [Raise NetworkConnectionError; Raise (RespNotOkException 503); Return "ok"] [])
  = Some (Return "ok",
          @Build_Env scripted []
            ([] ++ [chat_call "a" ["hello"]; EvSleep 10;
                    chat_call "a" ["hello"]; EvSleep 10;
                    chat_call "a" ["hello"]])).
Proof.
  apply (proj1 (proj2
           (@transient_failures_retry_with_backoff scripted (@get_model_info scripted "a")
              (@get_provider scripted "a") (client_of "a") RESPONSE ["hello"] tt None None))
         5%nat None _ NetworkConnectionError (RespNotOkException 503) "ok"
         _ [Raise (RespNotOkException 503); Return "ok"] [Return "ok"] []);
    (reflexivity || lia).
Defined.

(** C6 on a first model that answers 400 while a second model is still
    configured and would have answered. *)
Lemma bad_request_aborts_whole_request_witness :
  exists self',
    @_execute_request scripted RESPONSE (prompt_factory "hello") tt None None 10
      (init ["a"; "b"] "chat") (start [Raise (RespNotOkException 400); Return "unused"])
    = Some (Raise (RespNotOkException 400), self',
            @Build_Env scripted [Return "unused"]
              [EvSelect "a"; chat_call "a" ["hello"]]).
Proof.
  eapply (proj1 (proj2
            (@bad_request_aborts_whole_request scripted RESPONSE (prompt_factory "hello")
               tt None None))).
  - discriminate.
  - vm_compute. reflexivity.
  - reflexivity.
  - vm_compute. reflexivity.
Defined.

(** C10 on an embedding request whose first model answers 413. *)
Lemma empty_message_list_413_is_fatal_witness :
  @count scripted is_compress
    (trace (@Build_Env scripted []
              [EvSelect "a"; EvCall (ReqEmbedding (@endpoint scripted "embedding" "a").2
                                       (@get_model_info scripted "a") "text");
               EvSelect "b"; EvCall (ReqEmbedding (@endpoint scripted "embedding" "b").2
                                       (@get_model_info scripted "b") "text")]))
  = @count scripted is_compress (trace (start [too_large; Return "vector"])).
Proof.
  eapply (proj1 (proj2 (proj2 (proj2 (@empty_message_list_413_is_fatal scripted))))
          10%nat "text" (init ["a"; "b"] "embedding")).
  vm_compute. reflexivity.
Defined.

(** C7 on two models that never answer: every attempt uses up its retries
    on network errors, and the request raises the network error itself. *)
Lemma all_endpoints_fail_exhausts_witness :
  exists last self' env',
    @execute_loop scripted RESPONSE (prompt_factory "hello") tt None None 5 None
      (length (model_list (init ["a"; "b"] "chat"))) (init ["a"; "b"] "chat") (start []) ∅ None
    = Some (LoopNext (list_to_set (model_list (init ["a"; "b"] "chat"))) last, self', env')
    /\ @count scripted is_select (trace env')
       = (@count scripted is_select (trace (start []))
          + length (model_list (init ["a"; "b"] "chat")))%nat
    /\ (forall m,
          dict_get m (model_usage self')
          = (fun '(total_tokens, penalty, usage_penalty) =>
               (total_tokens, penalty + 1, usage_penalty))
            <$> dict_get m (model_usage (init ["a"; "b"] "chat")))
    /\ (model_list (init ["a"; "b"] "chat") = [] ->
        last = None
        /\ @_execute_request scripted RESPONSE (prompt_factory "hello") tt None None 5
             (init ["a"; "b"] "chat") (start [])
           = Some (Raise (RuntimeError
                            "request failed: every available model has been tried and failed"),
                   self', env'))
    /\ (model_list (init ["a"; "b"] "chat") <> [] ->
        exists mi prov cl env0 msgs msg orig,
          @build_messages scripted (prompt_factory "hello") cl = Return msgs
          /\ @_attempt_request_on_model scripted mi prov cl RESPONSE
               msgs tt None None 5 None env0
             = Some (Raise (ModelAttemptFailed msg orig), env')
          /\ last = Some (match orig with
                          | Some underlying => underlying
                          | None => ModelAttemptFailed msg None
                          end)
          /\ @_execute_request scripted RESPONSE (prompt_factory "hello") tt None None 5
               (init ["a"; "b"] "chat") (start [])
             = Some (Raise (match orig with
                            | Some underlying => underlying
                            | None => ModelAttemptFailed msg None
                            end),
                     self', env')).
Proof.
  apply (@all_endpoints_fail_exhausts scripted RESPONSE (prompt_factory "hello") tt None None
           5%nat (fun w => w = []) (init ["a"; "b"] "chat") (start [])).
  - apply (bool_decide_unpack _). vm_compute. exact I.
  - reflexivity.
  - apply init_usage_nonneg.
  - reflexivity.
  - intros m mi prov cl [w tr] Hin Hep Hw. simpl in Hw. subst w.
    destruct Hin as [<-|[<-|[]]]; injection Hep as <- <- <-;
      eexists _, _, _, _; (split; [reflexivity|]); (split; [reflexivity|]);
      (split; [discriminate|reflexivity]).
Defined.

End Runs.

(** ** Further properties of the dispatcher *)

Section InitFacts.
Import Dispatcher.

Lemma dict_get_None_keys {V : Type} (k : string) (d : list (string * V)) :
  dict_get k d = None <-> ~ In k d.*1.
Proof.
  induction d as [|[k' v'] d IH]; simpl; [tauto|].
  destruct (String.eqb_spec k k') as [->|Hne].
  - split; [discriminate|]. intros Hn. exfalso. apply Hn. by left.
  - rewrite IH. split; [intros Hn [Heq|Hin]; [congruence|tauto]|tauto].
Qed.

Lemma dict_set_keys_new {V : Type} (k : string) (v : V) (d : list (string * V)) :
  dict_get k d = None -> (dict_set k v d).*1 = d.*1 ++ [k].
Proof.
  induction d as [|[k' v'] d IH]; [reflexivity|].
  cbn [dict_get dict_set]. destruct (String.eqb_spec k k'); [discriminate|].
  intros Hget. rewrite !fmap_cons. cbn [app]. by rewrite IH.
Qed.

Lemma init_fold_keys (models : list string) :
  forall d : list (string * Score),
    NoDup d.*1 ->
    NoDup (fold_left (fun d model => @dict_set Score model (0, 0, 0) d) models d).*1
    /\ (forall m, In m (fold_left (fun d model => @dict_set Score model (0, 0, 0) d) models d).*1
                  <-> In m d.*1 \/ In m models)
    /\ (NoDup models -> (forall m, In m models -> ~ In m d.*1) ->
        (fold_left (fun d model => @dict_set Score model (0, 0, 0) d) models d).*1 = d.*1 ++ models).
Proof.
  induction models as [|k models IH]; intros d Hnd.
  - simpl. split; [assumption|]. split; [tauto|]. intros _ _. by rewrite app_nil_r.
  - cbn [fold_left].
    destruct (dict_get k d) as [sc|] eqn:Hget.
    + assert ((@dict_set Score k (0, 0, 0) d).*1 = d.*1) as Hkeys
        by (apply dict_set_keys; exists sc; exact Hget).
      destruct (IH (@dict_set Score k (0, 0, 0) d)) as (H1 & H2 & H3); [by rewrite Hkeys|].
      split; [assumption|]. split.
      * intros m. rewrite H2, Hkeys. simpl. split; [tauto|].
        intros [Hin|[<-|Hin]]; [tauto| |tauto]. left.
        destruct (in_dec String.string_dec k d.*1) as [Hk|Hk]; [assumption|].
        apply dict_get_None_keys in Hk. congruence.
      * intros Hndm Hdis. exfalso. apply (Hdis k); [by left|].
        destruct (in_dec String.string_dec k d.*1) as [Hk|Hk]; [assumption|].
        apply dict_get_None_keys in Hk. congruence.
    + assert ((@dict_set Score k (0, 0, 0) d).*1 = d.*1 ++ [k]) as Hkeys
        by (by apply dict_set_keys_new).
      assert (~ In k d.*1) as Hk by (by apply dict_get_None_keys).
      destruct (IH (@dict_set Score k (0, 0, 0) d)) as (H1 & H2 & H3).
      { rewrite Hkeys. apply NoDup_app. split; [assumption|]. split.
        - intros x Hx Hxk%list_elem_of_In. destruct Hxk as [->|[]].
          apply Hk. by apply list_elem_of_In.
        - apply NoDup_singleton. }
      split; [assumption|]. split.
      * intros m. rewrite H2, Hkeys, List.in_app_iff. simpl. tauto.
      * intros Hndm Hdis. apply NoDup_cons in Hndm as [Hkm Hndm'].
        rewrite H3, Hkeys, <- app_assoc; [reflexivity|assumption|].
        intros m Hm. rewrite Hkeys, List.in_app_iff. simpl. intros [Hin|[<-|[]]].
        -- apply (Hdis m); [by right|assumption].
        -- apply Hkm. by apply list_elem_of_In.
Qed.

End InitFacts.

Section InitTable.
Import Dispatcher.

(** X1: a fresh dispatcher holds exactly one entry per configured model
    name, each scored (0, 0, 0); when the configured names are pairwise
    distinct the keys are the configured list, in its order. *)
Theorem init_one_entry_per_model :
  forall (models : list string) (rt : string),
    NoDup (model_usage (init models rt)).*1
    /\ (forall m, In m (model_usage (init models rt)).*1 <-> In m models)
    /\ Forall (fun kv => kv.2 = (0, 0, 0)) (model_usage (init models rt))
    /\ (NoDup models -> (model_usage (init models rt)).*1 = models).
Proof.
  intros models rt. unfold init. cbn [model_usage].
  destruct (init_fold_keys models []) as (H1 & H2 & H3); [constructor|].
  split; [exact H1|]. split; [|split].
  - intros m. split.
    + intros Hm. destruct (proj1 (H2 m) Hm) as [[]|Hin]. exact Hin.
    + intros Hm. apply (proj2 (H2 m)). by right.
  - apply (init_usage_zero models rt).
  - intros Hnd. apply H3; [assumption|]. intros m _ [].
Qed.

(** X1 on three distinct names. *)
Lemma init_one_entry_per_model_witness :
  (model_usage (init ["a"; "b"; "c"] "chat")).*1 = ["a"; "b"; "c"].
Proof.
  apply (proj2 (proj2 (proj2 (init_one_entry_per_model ["a"; "b"; "c"] "chat")))).
  apply (bool_decide_unpack _). vm_compute. exact I.
Defined.

End InitTable.

Section FrameFacts.
Import Dispatcher Observe.
Context `{Backend}.
Variables (request_type : RequestType)
          (message_factory : option (Client -> Outcome (list Message)))
          (params : GenParams) (embedding_input audio_base64 : option string).

Lemma table_frame_refl (self : LLMRequest) : table_frame self self.
Proof. repeat split; eauto. intros m p Hp. exists p. split; [assumption|lia]. Qed.

Lemma table_frame_trans (s1 s2 s3 : LLMRequest) :
  table_frame s1 s2 -> table_frame s2 s3 -> table_frame s1 s3.
Proof.
  intros (A1 & A2 & A3 & A4 & A5) (B1 & B2 & B3 & B4 & B5).
  split; [congruence|]. split; [congruence|]. split; [congruence|].
  split; [intros m; by rewrite B4|].
  intros m p Hp. destruct (A5 m p Hp) as (p' & Hp' & Hle).
  destruct (B5 m p' Hp') as (p'' & Hp'' & Hle'). exists p''. split; [assumption|lia].
Qed.

Lemma table_frame_set (self : LLMRequest) (k : string) (t p u p' u' : Z) :
  dict_get k (model_usage self) = Some (t, p, u) -> p <= p' ->
  table_frame self (set_usage self (dict_set k (t, p', u') (model_usage self))).
Proof.
  intros Hget Hle. split; [reflexivity|]. split; [reflexivity|].
  cbn [model_usage set_usage]. split; [|split].
  - apply dict_set_keys. by rewrite Hget.
  - intros m. unfold total_tokens_of. cbn [model_usage set_usage].
    destruct (String.eqb_spec k m) as [<-|Hne].
    + by rewrite dict_get_set_eq, Hget.
    + by rewrite dict_get_set_ne.
  - intros m q. unfold penalty_of. cbn [model_usage set_usage].
    destruct (String.eqb_spec k m) as [<-|Hne].
    + rewrite dict_get_set_eq, Hget. intros [= <-]. exists p'. by split.
    + rewrite dict_get_set_ne by assumption. intros Hq. exists q. split; [assumption|lia].
Qed.

Lemma select_frame (self self1 : LLMRequest) (ex : option (gset string))
    (o : Outcome (ModelInfo * APIProvider * Client)) :
  _select_model self ex = (o, self1) -> table_frame self self1.
Proof.
  destruct o as [[[mi prov] cl]|e]; intros Hsel.
  - apply select_model_inv in Hsel as (t & p & u & Hget & -> & _).
    apply (table_frame_set self (name mi) t p u p (u + 1) Hget). lia.
  - apply select_model_raise in Hsel as ->. apply table_frame_refl.
Qed.

Lemma penalize_frame (self self' : LLMRequest) (m : string) :
  penalize self m = Some self' -> table_frame self self'.
Proof.
  unfold penalize. destruct (dict_get m (model_usage self)) as [[[t p] u]|] eqn:Hget;
    [|discriminate].
  intros [= <-]. apply (table_frame_set self m t p u (p + 1) u Hget). lia.
Qed.

Lemma release_frame (self self' : LLMRequest) (m : string) :
  release self m = Some self' -> table_frame self self'.
Proof.
  unfold release. destruct (dict_get m (model_usage self)) as [[[t p] u]|] eqn:Hget;
    [|discriminate].
  intros [= <-]. destruct (u >? 0); [|apply table_frame_refl].
  apply (table_frame_set self m t p u p (u - 1) Hget). lia.
Qed.

Lemma finally_frame (self self' : LLMRequest) (m : string) (r r' : LoopResult)
    (env env' : Env) :
  finally_ self m r env = (r', self', env') -> table_frame self self'.
Proof.
  unfold finally_. destruct (release self m) as [s|] eqn:Hrel.
  - intros [= _ <- _]. by apply release_frame in Hrel.
  - intros [= _ <- _]. apply table_frame_refl.
Qed.

Lemma iteration_frame (fuel : nat) (c : option (list Message)) (self self' : LLMRequest)
    (env env' : Env) (failed : gset string) (last : option PyExc) (res : LoopResult) :
  iteration request_type message_factory params embedding_input audio_base64
    fuel c self env failed last = Some (res, self', env') ->
  table_frame self self'.
Proof.
  unfold iteration.
  destruct (_select_model self (Some failed)) as [o self1] eqn:Hsel.
  pose proof (select_frame _ _ _ _ Hsel) as Hf1.
  destruct o as [[[mi prov] cl]|e]; [|by intros [= _ <- _]].
  destruct (build_messages message_factory cl) as [msgs|e]; [|by intros [= _ <- _]].
  destruct (_attempt_request_on_model _ _ _ _ _ _ _ _ _ _ _) as [[o env2]|];
    [|discriminate].
  assert (forall s r, table_frame self1 s ->
                      Some (finally_ s (name mi) r env2) = Some (res, self', env') ->
                      table_frame self self') as Hfin.
  { intros s r Hs [= Heq]. apply finally_frame in Heq.
    eapply table_frame_trans; [exact Hf1|]. eapply table_frame_trans; eassumption. }
  destruct o as [resp|e]; [by apply Hfin, table_frame_refl|].
  destruct e; try (by apply Hfin, table_frame_refl).
  destruct (penalize self1 (name mi)) as [self2|] eqn:Hpen;
    [|by apply Hfin, table_frame_refl].
  apply penalize_frame in Hpen. destruct (is_bad_request _); by apply Hfin.
Qed.

Lemma execute_loop_frame (fuel : nat) (c : option (list Message)) (n : nat)
    (self self' : LLMRequest) (env env' : Env) (failed : gset string)
    (last : option PyExc) (res : LoopResult) :
  execute_loop request_type message_factory params embedding_input audio_base64
    fuel c n self env failed last = Some (res, self', env') ->
  table_frame self self'.
Proof.
  revert self env failed last. induction n as [|n IH]; intros self env failed last.
  - intros [= _ <- _]. apply table_frame_refl.
  - cbn [execute_loop].
    destruct (iteration _ _ _ _ _ fuel c self env failed last)
      as [[[r self1] env1]|] eqn:Hit; [|discriminate].
    apply iteration_frame in Hit.
    destruct r as [resp mi|e|failed1 last1]; try (by intros [= _ <- _]).
    intros Hloop. apply IH in Hloop. by eapply table_frame_trans.
Qed.

(** X2: whatever the providers do, a request that ends leaves the
    dispatcher's configuration, the keys of the score table and their
    order, and every token total as they were, and lowers no failure
    penalty. *)
Theorem execute_request_keeps_table_frame :
  forall (fuel : nat) (self self' : LLMRequest) (env env' : Env)
         (res : Outcome (APIResponse * ModelInfo)),
    _execute_request request_type message_factory params embedding_input audio_base64
      fuel self env = Some (res, self', env') ->
    model_list self' = model_list self
    /\ Dispatcher.request_type self' = Dispatcher.request_type self
    /\ (model_usage self').*1 = (model_usage self).*1
    /\ (forall m, total_tokens_of self' m = total_tokens_of self m)
    /\ (forall m p, penalty_of self m = Some p ->
                    exists p', penalty_of self' m = Some p' /\ p <= p').
Proof.
  intros fuel self self' env env' res. unfold _execute_request.
  destruct (execute_loop _ _ _ _ _ fuel None (length (model_list self)) self env ∅ None)
    as [[[r self1] env1]|] eqn:Hloop; [|discriminate].
  apply execute_loop_frame in Hloop.
  destruct r as [resp mi|e|failed1 [last1|]]; intros [= _ <- _]; exact Hloop.
Qed.

End FrameFacts.

#[local] Set Warnings "-clear-no-such-hyp".

Section PenaltyFacts.
Import Dispatcher Observe.
Context `{Backend}.
Variables (request_type : RequestType)
          (message_factory : option (Client -> Outcome (list Message)))
          (params : GenParams) (embedding_input audio_base64 : option string).

(** The models penalised by a run of the loop are the ones it adds to the
    exclusion set; each is penalised once, and a model that answers is not
    among them. The one other change is the in-flight penalty of the model
    selected in a pass whose message factory raised. *)
Lemma execute_loop_penalties (fuel : nat) (c : option (list Message)) (n : nat) :
  forall (self self' : LLMRequest) (env env' : Env) (failed : gset string)
         (last : option PyExc) (res : LoopResult),
    usage_nonneg self ->
    execute_loop request_type message_factory params embedding_input audio_base64
      fuel c n self env failed last = Some (res, self', env') ->
    exists (failed' : gset string) (leaked : option string),
      failed ⊆ failed'
      /\ (forall m, dict_get m (model_usage self')
                    = if bool_decide (m ∈ failed' ∖ failed)
                      then bump <$> dict_get m (model_usage self)
                      else if bool_decide (leaked = Some m)
                           then hold <$> dict_get m (model_usage self)
                           else dict_get m (model_usage self))
      /\ (forall resp mi, res = LoopReturn resp mi -> (name mi ∉ failed') /\ leaked = None)
      /\ (forall m, leaked = Some m ->
            (m ∉ failed')
            /\ exists cl e, build_messages message_factory cl = Raise e
                            /\ res = LoopRaise e).
Proof.
  induction n as [|n IH]; intros self self' env env' failed last res Hnn.
  - intros [= <- <- _]. exists failed, None. split; [done|].
    split; [|split; discriminate].
    intros m. rewrite bool_decide_eq_false_2 by set_solver.
    by rewrite bool_decide_eq_false_2.
  - cbn [execute_loop].
    destruct (iteration _ _ _ _ _ fuel c self env failed last)
      as [[[r self1] env1]|] eqn:Hit; [|discriminate].
    assert (forall s : LLMRequest, s = self ->
              forall m, dict_get m (model_usage s)
                        = if bool_decide (m ∈ failed ∖ failed)
                          then bump <$> dict_get m (model_usage self)
                          else if bool_decide (@None string = Some m)
                               then hold <$> dict_get m (model_usage self)
                               else dict_get m (model_usage self)) as Hsame.
    { intros s -> m. rewrite bool_decide_eq_false_2 by set_solver.
      by rewrite bool_decide_eq_false_2. }
    destruct (_select_model self (Some failed)) as [[[[mi prov] cl]|e] self0] eqn:Hsel.
    + pose proof Hsel as Hinv.
      apply select_model_inv in Hinv as (t & p & u & Hget & Hself0 & _ & _ & Hnex & _).
      simpl in Hnex.
      pose proof (dict_get_Forall _ _ _ _ Hnn Hget) as Hu. simpl in Hu.
      destruct (build_messages message_factory cl) as [msgs|e] eqn:Hbuild.
      2:{ rewrite (iteration_factory_raised _ _ _ _ _ _ _ _ _ _ _ _ _ _ _ _ Hsel Hbuild)
            in Hit.
          injection Hit as <- <- <-. intros [= <- <- _].
          exists failed, (Some (name mi)). split; [done|]. split; [|split].
          - intros m. rewrite bool_decide_eq_false_2 by set_solver.
            rewrite Hself0. cbn [model_usage set_usage]. case_bool_decide as Hm.
            + injection Hm as <-. by rewrite dict_get_set_eq, Hget.
            + rewrite dict_get_set_ne; [reflexivity|]. intros E. apply Hm. by rewrite E.
          - discriminate.
          - intros m [= <-]. split; [exact Hnex|]. by exists cl, e. }
      destruct (_attempt_request_on_model mi prov cl request_type
                  msgs params embedding_input audio_base64
                  fuel c (log (EvSelect (name mi)) env)) as [[o env2]|] eqn:Hatt.
      * destruct o as [resp|e].
        -- rewrite (iteration_return _ _ _ _ _ _ _ _ _ _ _ _ _ _ _ _ _ _ Hnn Hsel Hbuild Hatt)
             in Hit.
           injection Hit as <- <- <-. intros [= <- <- _].
           exists failed, None. split; [done|]. split; [by apply Hsame|].
           split; [|discriminate]. by intros resp' mi' [= _ <-].
        -- assert ((exists msg orig, e = ModelAttemptFailed msg orig)
                   \/ forall msg orig, e <> ModelAttemptFailed msg orig)
             as [(msg & orig & ->)|He] by (destruct e; eauto; right; discriminate).
           ++ rewrite (iteration_failed _ _ _ _ _ _ _ _ _ _ _ _ _ _ _ _ _ _ _ _ _ _
                         Hget Hsel Hbuild Hatt) in Hit.
              destruct (Z.gtb_spec (u + 1) 0); [|lia].
              injection Hit as <- <- <-.
              set (self2 := set_usage self
                              (dict_set (name mi) (t, p + 1, u) (model_usage self))) in *.
              assert (forall m, dict_get m (model_usage self2)
                                = if bool_decide (m = name mi)
                                  then bump <$> dict_get m (model_usage self)
                                  else dict_get m (model_usage self)) as Htab2.
              { intros m. unfold self2. cbn [model_usage set_usage].
                case_bool_decide as Hm.
                - subst m. by rewrite dict_get_set_eq, Hget.
                - by rewrite dict_get_set_ne by congruence. }
              destruct (is_bad_request _).
              ** intros [= <- <- _]. exists (failed ∪ {[ name mi ]}), None.
                 split; [set_solver|]. split; [|split; discriminate].
                 intros m. rewrite Htab2.
                 destruct (decide (m = name mi)) as [->|Hne].
                 --- rewrite bool_decide_eq_true_2 by done.
                     by rewrite bool_decide_eq_true_2 by set_solver.
                 --- rewrite bool_decide_eq_false_2 by done.
                     rewrite bool_decide_eq_false_2 by set_solver.
                     by rewrite bool_decide_eq_false_2.
              ** intros Hloop.
                 apply IH in Hloop as (failed' & leaked & Hsub & Htab & Hret & Hleak);
                   [|by apply usage_nonneg_after].
                 exists failed', leaked. split; [set_solver|].
                 split; [|split; [exact Hret|exact Hleak]].
                 intros m. rewrite Htab, !Htab2.
                 destruct (decide (m = name mi)) as [->|Hne].
                 --- rewrite (bool_decide_eq_true_2 (name mi = name mi)) by done.
                     rewrite bool_decide_eq_false_2 by set_solver.
                     rewrite (bool_decide_eq_true_2 (name mi ∈ failed' ∖ failed))
                       by set_solver.
                     rewrite bool_decide_eq_false_2; [reflexivity|].
                     intros Hl. destruct (Hleak _ Hl) as [Hout _]. set_solver.
                 --- rewrite (bool_decide_eq_false_2 (m = name mi)) by done.
                     destruct (decide (m ∈ failed' ∖ (failed ∪ {[ name mi ]}))).
                     +++ rewrite bool_decide_eq_true_2 by done.
                         by rewrite bool_decide_eq_true_2 by set_solver.
                     +++ rewrite bool_decide_eq_false_2 by done.
                         by rewrite (bool_decide_eq_false_2 (m ∈ failed' ∖ failed))
                           by set_solver.
           ++ rewrite (iteration_escaped _ _ _ _ _ _ _ _ _ _ _ _ _ _ _ _ _ _
                         Hnn He Hsel Hbuild Hatt) in Hit.
              injection Hit as <- <- <-. intros [= <- <- _].
              exists failed, None. split; [done|]. split; [by apply Hsame|].
              split; discriminate.
      * unfold iteration in Hit. rewrite Hsel, Hbuild, Hatt in Hit. discriminate.
    + unfold iteration in Hit. rewrite Hsel in Hit. injection Hit as <- <- <-.
      apply select_model_raise in Hsel as ->. intros [= <- <- _].
      exists failed, None. split; [done|]. split; [by apply Hsame|].
      split; discriminate.
Qed.

(** X3: in a request made on a table with non-negative in-flight penalties,
    there is a set of penalised models such that each of them ends with its
    failure penalty one higher, and at most one further model, not
    penalised, that ends with its in-flight penalty one higher: the model
    selected when the message factory raised, which ends the request with
    the factory's exception. Every other entry of the table ends as it
    began. When the request returns a response, or the factory returns for
    every client, there is no such further model, and the model that gave
    the response is not penalised and its entry is as before the
    request. *)
Theorem request_penalises_each_model_once :
  forall (fuel : nat) (self self' : LLMRequest) (env env' : Env)
         (res : Outcome (APIResponse * ModelInfo)),
    usage_nonneg self ->
    _execute_request request_type message_factory params embedding_input audio_base64
      fuel self env = Some (res, self', env') ->
    exists (penalised : gset string) (leaked : option string),
      (forall m, dict_get m (model_usage self')
                 = if bool_decide (m ∈ penalised)
                   then bump <$> dict_get m (model_usage self)
                   else if bool_decide (leaked = Some m)
                        then hold <$> dict_get m (model_usage self)
                        else dict_get m (model_usage self))
      /\ (forall m, leaked = Some m ->
            (m ∉ penalised)
            /\ exists cl e, build_messages message_factory cl = Raise e
                            /\ res = Raise e)
      /\ (factory_returns message_factory -> leaked = None)
      /\ (forall resp mi, res = Return (resp, mi) ->
            (name mi ∉ penalised)
            /\ leaked = None
            /\ dict_get (name mi) (model_usage self')
               = dict_get (name mi) (model_usage self)).
Proof.
  intros fuel self self' env env' res Hnn. unfold _execute_request.
  destruct (execute_loop _ _ _ _ _ fuel None (length (model_list self)) self env ∅ None)
    as [[[r self1] env1]|] eqn:Hloop; [|discriminate].
  apply execute_loop_penalties in Hloop as (failed' & leaked & _ & Htab & Hret & Hleak);
    [|assumption].
  assert (forall m, dict_get m (model_usage self1)
                    = if bool_decide (m ∈ failed')
                      then bump <$> dict_get m (model_usage self)
                      else if bool_decide (leaked = Some m)
                           then hold <$> dict_get m (model_usage self)
                           else dict_get m (model_usage self)) as Htab'.
  { intros m. rewrite Htab. destruct (decide (m ∈ failed')).
    - rewrite bool_decide_eq_true_2 by set_solver. by rewrite bool_decide_eq_true_2.
    - rewrite bool_decide_eq_false_2 by set_solver.
      by rewrite (bool_decide_eq_false_2 (m ∈ failed')). }
  assert (factory_returns message_factory -> leaked = None) as Hfac.
  { intros Hf. destruct leaked as [m|]; [|reflexivity].
    destruct (Hleak m eq_refl) as (_ & cl & e & Hbuild & _).
    destruct (Hf cl) as [msgs Hm]. congruence. }
  intros Hres. exists failed', leaked. split; [|split; [|split; [exact Hfac|]]].
  - destruct r as [resp mi|e|failed1 [last1|]]; injection Hres as _ <- _; exact Htab'.
  - intros m Hl. destruct (Hleak m Hl) as (Hout & cl & e & Hbuild & ->).
    split; [exact Hout|]. exists cl, e. split; [exact Hbuild|].
    by injection Hres as <- _ _.
  - intros resp mi ->.
    destruct r as [resp' mi'|e|failed1 [last1|]]; try discriminate.
    injection Hres as <- <- <- _.
    destruct (Hret resp' mi' eq_refl) as [Hout ->].
    split; [exact Hout|]. split; [reflexivity|].
    rewrite Htab'. rewrite bool_decide_eq_false_2 by exact Hout.
    by rewrite bool_decide_eq_false_2.
Qed.

End PenaltyFacts.

Section SelectionFacts.
Import Dispatcher Observe.
Context `{Backend}.
Variables (request_type : RequestType)
          (message_factory : option (Client -> Outcome (list Message)))
          (params : GenParams) (embedding_input audio_base64 : option string).

Lemma selected_models_app (t1 t2 : list (Event Message GenParams)) :
  selected_models (t1 ++ t2) = selected_models t1 ++ selected_models t2.
Proof.
  induction t1 as [|ev t1 IH]; [reflexivity|].
  destruct ev; simpl; by rewrite IH.
Qed.

Lemma selected_models_none (t : list (Event Message GenParams)) :
  Forall (fun ev => is_select ev = false) t -> selected_models t = [].
Proof.
  induction 1 as [|ev t Hev _ IH]; [reflexivity|].
  destruct ev; try discriminate; exact IH.
Qed.

Lemma finally_result (self self' : LLMRequest) (m : string) (r r' : LoopResult)
    (env env' : Env) :
  finally_ self m r env = (r', self', env') ->
  env' = env /\ (r' = r \/ exists k, r' = LoopRaise (KeyError k)).
Proof.
  unfold finally_. destruct (release self m); intros [= <- _ <-]; eauto.
Qed.

(** A pass either selects nothing and ends the loop, or selects one model
    outside the exclusion set and, if the loop goes on, adds exactly that
    model to the set. *)
Lemma iteration_selects (fuel : nat) (c : option (list Message)) (self self' : LLMRequest)
    (env env' : Env) (failed : gset string) (last : option PyExc) (res : LoopResult) :
  iteration request_type message_factory params embedding_input audio_base64
    fuel c self env failed last = Some (res, self', env') ->
  (env' = env /\ forall f l, res <> LoopNext f l)
  \/ exists m evs,
       (m ∉ failed) /\ In m (model_usage self).*1
       /\ trace env' = trace env ++ EvSelect m :: evs
       /\ selected_models evs = []
       /\ forall f l, res = LoopNext f l -> f = failed ∪ {[ m ]}.
Proof.
  unfold iteration.
  destruct (_select_model self (Some failed)) as [[[[mi prov] cl]|e] self1] eqn:Hsel.
  - apply select_model_inv in Hsel as (t & p & u & Hget & _ & _ & _ & Hnex & Hkey).
    simpl in Hnex.
    destruct (build_messages message_factory cl) as [msgs|e].
    2:{ intros [= <- _ <-]. right. exists (name mi), [].
        split; [exact Hnex|]. split; [exact Hkey|]. split; [reflexivity|].
        split; [reflexivity|discriminate]. }
    destruct (_attempt_request_on_model _ _ _ _ _ _ _ _ _ _ _) as [[o env2]|] eqn:Hatt;
      [|discriminate].
    apply attempt_loop_trace in Hatt as (evs & Ht & Hs & _).
    intros Hit. right. exists (name mi), evs.
    split; [exact Hnex|]. split; [exact Hkey|].
    assert (forall s r, Some (finally_ s (name mi) r env2) = Some (res, self', env') ->
                        env' = env2 /\ (res = r \/ exists k, res = LoopRaise (KeyError k)))
      as Hfin by (intros s r [= Heq]; by apply finally_result in Heq).
    assert (trace env2 = trace env ++ EvSelect (name mi) :: evs) as Ht'
      by (rewrite Ht; simpl; by rewrite <- app_assoc).
    assert (forall r, (forall f l, r = LoopNext f l -> f = failed ∪ {[ name mi ]}) ->
                      env' = env2 /\ (res = r \/ exists k, res = LoopRaise (KeyError k)) ->
                      trace env' = trace env ++ EvSelect (name mi) :: evs
                      /\ selected_models evs = []
                      /\ forall f l, res = LoopNext f l -> f = failed ∪ {[ name mi ]})
      as Hend.
    { intros r Hr [-> Hres]. split; [exact Ht'|]. split; [by apply selected_models_none|].
      intros f l Hfl. destruct Hres as [->|[k ->]]; [by eapply Hr|discriminate]. }
    destruct o as [resp|e].
    { apply (Hend (LoopReturn resp mi)); [discriminate|by eapply Hfin]. }
    destruct e;
      try (match goal with
           | Hit : Some (finally_ _ _ (LoopRaise ?e) _) = _ |- _ =>
               apply (Hend (LoopRaise e)); [discriminate|by eapply Hfin]
           end).
    destruct (penalize self1 (name mi)) as [self2|].
    + destruct (is_bad_request _).
      * match goal with
        | Hit : Some (finally_ _ _ (LoopRaise ?e) _) = _ |- _ =>
            apply (Hend (LoopRaise e)); [discriminate|by eapply Hfin]
        end.
      * match goal with
        | Hit : Some (finally_ _ _ (LoopNext ?f ?l) _) = _ |- _ =>
            apply (Hend (LoopNext f l)); [by intros ? ? [= <- _]|by eapply Hfin]
        end.
    + match goal with
      | Hit : Some (finally_ _ _ (LoopRaise ?e) _) = _ |- _ =>
          apply (Hend (LoopRaise e)); [discriminate|by eapply Hfin]
      end.
  - intros [= <- _ <-]. left. split; [reflexivity|discriminate].
Qed.

Lemma execute_loop_selects (fuel : nat) (c : option (list Message)) (n : nat) :
  forall (self self' : LLMRequest) (env env' : Env) (failed : gset string)
         (last : option PyExc) (res : LoopResult),
    execute_loop request_type message_factory params embedding_input audio_base64
      fuel c n self env failed last = Some (res, self', env') ->
    exists evs,
      trace env' = trace env ++ evs
      /\ NoDup (selected_models evs)
      /\ (forall m, In m (selected_models evs) ->
                    (m ∉ failed) /\ In m (model_usage self).*1)
      /\ (length (selected_models evs) <= n)%nat.
Proof.
  induction n as [|n IH]; intros self self' env env' failed last res.
  - intros [= _ _ <-]. exists []. rewrite app_nil_r. simpl.
    split; [reflexivity|]. split; [constructor|]. split; [by intros m []|lia].
  - cbn [execute_loop].
    destruct (iteration _ _ _ _ _ fuel c self env failed last)
      as [[[r self1] env1]|] eqn:Hit; [|discriminate].
    pose proof (iteration_frame _ _ _ _ _ _ _ _ _ _ _ _ _ _ Hit) as (_ & _ & Hkeys & _).
    apply iteration_selects in Hit
      as [[-> Hnot]|(m & evs & Hm & Hkey & Ht & Hnone & Hnext)].
    + destruct r as [resp mi|e|failed1 last1];
        [| |by destruct (Hnot failed1 last1)];
        intros [= _ _ <-]; exists []; rewrite app_nil_r; simpl;
        (split; [reflexivity|]); (split; [constructor|]); (split; [by intros ? []|lia]).
    + assert (selected_models (EvSelect m :: evs) = [m]) as Hone
        by (simpl; by rewrite Hnone).
      destruct r as [resp mi|e|failed1 last1].
      * intros [= _ _ <-]. exists (EvSelect m :: evs). rewrite Hone.
        split; [exact Ht|]. split; [apply NoDup_singleton|].
        split; [|simpl; lia]. intros m' [<-|[]]. by split.
      * intros [= _ _ <-]. exists (EvSelect m :: evs). rewrite Hone.
        split; [exact Ht|]. split; [apply NoDup_singleton|].
        split; [|simpl; lia]. intros m' [<-|[]]. by split.
      * rewrite (Hnext failed1 last1 eq_refl). intros Hloop.
        apply IH in Hloop as (evs2 & Ht2 & Hnd & Hout & Hlen).
        exists ((EvSelect m :: evs) ++ evs2).
        rewrite selected_models_app, Hone. cbn [app length].
        split; [by rewrite Ht2, Ht, <- app_assoc|]. split; [|split; [|lia]].
        -- apply NoDup_cons. split; [|exact Hnd].
           intros Hin%list_elem_of_In. destruct (Hout m Hin) as [Hnin _]. set_solver.
        -- intros m' [<-|Hin]; [by split|].
           destruct (Hout m' Hin) as [Hnin Hk]. split; [set_solver|].
           by rewrite <- Hkeys.
Qed.

(** X4: within one request no model is selected twice, at most as many
    models are selected as are configured, and each selected model is a
    key of the score table. *)
Theorem request_selects_each_model_at_most_once :
  forall (fuel : nat) (self self' : LLMRequest) (env env' : Env)
         (res : Outcome (APIResponse * ModelInfo)),
    _execute_request request_type message_factory params embedding_input audio_base64
      fuel self env = Some (res, self', env') ->
    exists evs,
      trace env' = trace env ++ evs
      /\ NoDup (selected_models evs)
      /\ (forall m, In m (selected_models evs) -> In m (model_usage self).*1)
      /\ (length (selected_models evs) <= length (model_list self))%nat.
Proof.
  intros fuel self self' env env' res. unfold _execute_request.
  destruct (execute_loop _ _ _ _ _ fuel None (length (model_list self)) self env ∅ None)
    as [[[r self1] env1]|] eqn:Hloop; [|discriminate].
  apply execute_loop_selects in Hloop as (evs & Ht & Hnd & Hin & Hlen).
  destruct r as [resp mi|e|failed1 [last1|]]; intros [= _ _ <-]; exists evs;
    (split; [exact Ht|]); (split; [exact Hnd|]); (split; [|exact Hlen]);
    intros m Hm; by destruct (Hin m Hm).
Qed.

End SelectionFacts.

Section AttemptBounds.
Import Dispatcher Observe.
Context `{Backend}.
Variables (model_info : ModelInfo) (provider : APIProvider) (client : Client)
          (request_type : RequestType) (message_list : list Message)
          (params : GenParams) (embedding_input audio_base64 : option string).

(** X5: whatever the client raises, an attempt that ends returns a
    response, raises [ModelAttemptFailed], or lets through an exception
    that is not an [Exception] (cancellation); a retries-exhausted failure
    wraps a transient error and a hard failure wraps a non-transient
    one. *)
Theorem attempt_raises_only_wrapped_failures :
  forall (fuel : nat) (c : option (list Message)) (env env' : Env) (e : PyExc),
    _attempt_request_on_model model_info provider client request_type message_list
      params embedding_input audio_base64 fuel c env = Some (Raise e, env') ->
    e = CancelledError
    \/ e = ModelAttemptFailed NotAttempted None
    \/ (exists e0, e = ModelAttemptFailed RetriesExhausted (Some e0)
                   /\ is_transient e0 = true)
    \/ (exists e0, e = ModelAttemptFailed HardError (Some e0)
                   /\ is_transient e0 = false).
Proof.
  intros fuel c env env' e. unfold _attempt_request_on_model.
  generalize (max_retry provider) as r. revert c env.
  induction fuel as [|fuel IH]; intros c env r; cbn [attempt_loop].
  - destruct (r >? 0); [discriminate|]. intros [= <- _]. auto.
  - destruct (r >? 0); [|intros [= <- _]; auto].
    destruct (attempt_step_shape model_info provider client request_type message_list
                params embedding_input audio_base64 c r env) as (o1 & env1 & _ & Hshape).
    destruct (attempt_step _ _ _ _ _ _ _ _ c r env) as [res env2].
    inversion Hshape; subst; try (intros [= <- _]); eauto 6; try apply IH.
Qed.

Lemma send_call_count (c : option (list Message)) (env env1 : Env) (o : Outcome APIResponse) :
  send model_info client request_type message_list params
    embedding_input audio_base64 c env = (o, env1) ->
  (count is_call (trace env1) <= count is_call (trace env) + 1)%nat.
Proof.
  intros Hsend. destruct (send_trace _ _ _ _ _ _ _ _ _ _ _ Hsend) as [->|[req ->]]; [lia|].
  rewrite count_app. unfold count at 2. simpl. lia.
Qed.

(** With a payload cache that is already filled, or nothing to compress,
    every pass that goes round uses up one retry. *)
Lemma attempt_loop_ends_cached (fuel : nat) :
  forall (c : option (list Message)) (r : Z) (env : Env),
    truthy_opt c = true \/ truthy message_list = false ->
    (Z.to_nat r <= fuel)%nat ->
    exists o env',
      attempt_loop model_info provider client request_type message_list params
        embedding_input audio_base64 fuel c r env = Some (o, env')
      /\ (count is_call (trace env') <= count is_call (trace env) + Z.to_nat r)%nat.
Proof.
  induction fuel as [|fuel IH]; intros c r env Hc Hfuel; cbn [attempt_loop].
  - destruct (Z.gtb_spec r 0); [lia|]. eexists _, _. split; [reflexivity|lia].
  - destruct (Z.gtb_spec r 0); [|eexists _, _; split; [reflexivity|lia]].
    destruct (attempt_step_shape model_info provider client request_type message_list
                params embedding_input audio_base64 c r env) as (o1 & env1 & Hsend & Hshape).
    apply send_call_count in Hsend.
    destruct (attempt_step _ _ _ _ _ _ _ _ c r env) as [res env2].
    inversion Hshape; subst; try (eexists _, _; split; [reflexivity|lia]).
    + destruct (IH c (r - 1) (log (EvSleep (retry_interval provider)) env1) Hc)
        as (o & env' & -> & Hcount); [lia|].
      eexists _, _. split; [reflexivity|].
      rewrite count_log in Hcount. simpl in Hcount. lia.
    + destruct Hc; congruence.
Qed.

(** X6: when the message list is empty, or the compressor returns a
    non-empty list, an attempt ends within [max_retry + 1] passes of its
    loop: it returns or raises after at most [max_retry + 1] client calls,
    and allowing more passes does not change its result. *)
Theorem attempt_ends_within_budget :
  forall (fuel : nat) (c : option (list Message)) (env : Env),
    truthy message_list = false \/ truthy (compress_messages message_list) = true ->
    (Z.to_nat (max_retry provider) + 1 <= fuel)%nat ->
    exists o env',
      _attempt_request_on_model model_info provider client request_type message_list
        params embedding_input audio_base64 fuel c env = Some (o, env')
      /\ _attempt_request_on_model model_info provider client request_type message_list
           params embedding_input audio_base64
           (Z.to_nat (max_retry provider) + 1) c env = Some (o, env')
      /\ (count is_call (trace env')
          <= count is_call (trace env) + Z.to_nat (max_retry provider) + 1)%nat.
Proof.
  unfold _attempt_request_on_model. generalize (max_retry provider) as r.
  assert (forall fuel c r env,
            truthy message_list = false \/ truthy (compress_messages message_list) = true ->
            (Z.to_nat r + 1 <= fuel)%nat ->
            exists o env',
              attempt_loop model_info provider client request_type message_list params
                embedding_input audio_base64 fuel c r env = Some (o, env')
              /\ (count is_call (trace env')
                  <= count is_call (trace env) + Z.to_nat r + 1)%nat) as Hends.
  { induction fuel as [|fuel IH]; intros c r env Hz Hfuel; [lia|]. cbn [attempt_loop].
    destruct (Z.gtb_spec r 0); [|eexists _, _; split; [reflexivity|lia]].
    destruct (attempt_step_shape model_info provider client request_type message_list
                params embedding_input audio_base64 c r env) as (o1 & env1 & Hsend & Hshape).
    apply send_call_count in Hsend.
    destruct (attempt_step _ _ _ _ _ _ _ _ c r env) as [res env2].
    inversion Hshape; subst; try (eexists _, _; split; [reflexivity|lia]).
    - destruct (IH c (r - 1) (log (EvSleep (retry_interval provider)) env1) Hz)
        as (o & env' & -> & Hcount); [lia|].
      eexists _, _. split; [reflexivity|].
      rewrite count_log in Hcount. simpl in Hcount. lia.
    - destruct Hz as [Hz|Hz]; [congruence|].
      destruct (attempt_loop_ends_cached fuel (Some (compress_messages message_list)) r
                  (log (EvCompress message_list) env1)) as (o & env' & -> & Hcount);
        [by left|lia|].
      eexists _, _. split; [reflexivity|].
      rewrite count_log in Hcount. simpl in Hcount. lia. }
  assert (forall fuel c r env res,
            attempt_loop model_info provider client request_type message_list params
              embedding_input audio_base64 fuel c r env = Some res ->
            forall k, attempt_loop model_info provider client request_type message_list
                        params embedding_input audio_base64 (fuel + k) c r env = Some res)
    as Hmono.
  { induction fuel as [|fuel IH]; intros c r env res; cbn [attempt_loop].
    - destruct (r >? 0) eqn:Hr; [discriminate|]. intros Hres k.
      destruct (0 + k)%nat; cbn [attempt_loop]; by rewrite Hr.
    - intros Hres k. cbn [Nat.add attempt_loop]. destruct (r >? 0); [|exact Hres].
      destruct (attempt_step _ _ _ _ _ _ _ _ c r env) as [[o|c' r'] env1];
        [exact Hres|by apply IH]. }
  intros r fuel c env Hz Hfuel.
  destruct (Hends (Z.to_nat r + 1)%nat c r env Hz) as (o & env' & Hrun & Hcount); [lia|].
  exists o, env'. split; [|by split].
  replace fuel with ((Z.to_nat r + 1) + (fuel - (Z.to_nat r + 1)))%nat by lia.
  by apply Hmono.
Qed.

End AttemptBounds.

Section NoProgress.
Import Dispatcher Observe.
Context `{Backend}.
Variables (model_info : ModelInfo) (provider : APIProvider) (client : Client)
          (message_list : list Message) (params : GenParams).

(** X7: when the compressor returns an empty list for a non-empty message
    list and the provider answers 413 to every call, the retry loop of a
    completion request goes round without using its budget: no amount of
    passes ends the attempt. *)
Theorem attempt_spins_on_empty_compression :
  truthy message_list = true ->
  compress_messages message_list = [] ->
  (forall req w, (client_call req w).1 = Raise (RespNotOkException 413)) ->
  0 < max_retry provider ->
  forall (fuel : nat) (env : Env),
    _attempt_request_on_model model_info provider client RESPONSE message_list
      params None None fuel None env = None.
Proof.
  intros Hm Hz H413 Hr fuel env. unfold _attempt_request_on_model.
  assert (truthy_opt (@None (list Message)) = false) as Hc by reflexivity.
  revert Hc. generalize (@None (list Message)) as c. revert env.
  induction fuel as [|fuel IH]; intros env c Hc; cbn [attempt_loop];
    destruct (Z.gtb_spec (max_retry provider) 0); try lia; [reflexivity|].
  unfold attempt_step, send, request_for, call.
  pose proof (H413 (ReqResponse client model_info (py_or c message_list) params)
                (world env)) as Hcall.
  destruct (client_call _ (world env)) as [o w]. simpl in Hcall. subst o.
  cbn [Z.eqb Z.geb Z.compare orb andb Pos.compare Pos.compare_cont].
  rewrite Hm, Hc. cbn [andb negb]. rewrite Hz. apply IH. reflexivity.
Qed.

End NoProgress.

(** ** Further properties of the reasoning extraction *)

Section StripFacts.
Import Reasoning Edges.

Lemma lstrip_suffix (s : string) : exists a, s = a +:+ lstrip s.
Proof.
  induction s as [|c s [a IH]]; [by exists ""|].
  simpl. destruct (py_isspace c).
  - exists (String c a). rewrite app_cons. by f_equal.
  - by exists "".
Qed.

Lemma rstrip_prefix (s : string) : exists b, s = rstrip s +:+ b.
Proof.
  induction s as [|c s [b IH]]; [by exists ""|].
  simpl. destruct (rstrip s) as [|d r] eqn:Hr.
  - destruct (py_isspace c).
    + exists (String c s). reflexivity.
    + exists s. reflexivity.
  - exists b. rewrite app_cons. by f_equal.
Qed.

Lemma lstrip_first (s : string) (c : ascii) :
  first_char (lstrip s) = Some c -> py_isspace c = false.
Proof.
  induction s as [|d s IH]; [discriminate|].
  simpl. destruct (py_isspace d) eqn:Hd; [exact IH|]. by intros [= <-].
Qed.

Lemma rstrip_first (s : string) (c : ascii) :
  first_char (rstrip s) = Some c -> first_char s = Some c.
Proof.
  destruct s as [|d s]; [discriminate|].
  simpl. destruct (rstrip s); [destruct (py_isspace d); [discriminate|]|]; by intros [= <-].
Qed.

Lemma rstrip_last (s : string) (c : ascii) :
  last_char (rstrip s) = Some c -> py_isspace c = false.
Proof.
  induction s as [|d s IH]; [discriminate|].
  simpl. destruct (rstrip s) as [|d' r] eqn:Hr.
  - destruct (py_isspace d) eqn:Hd; [discriminate|]. by intros [= <-].
  - exact IH.
Qed.

Lemma strip_trimmed (s : string) : trimmed (strip s).
Proof.
  unfold trimmed, strip. split.
  - intros c Hc. apply rstrip_first in Hc. by apply lstrip_first in Hc.
  - apply rstrip_last.
Qed.

Lemma length_app_s (a b : string) :
  String.length (a +:+ b) = (String.length a + String.length b)%nat.
Proof. induction a as [|c a IH]; [reflexivity|]. rewrite app_cons. simpl. by rewrite IH. Qed.

Lemma strip_length (s : string) : (String.length (strip s) <= String.length s)%nat.
Proof.
  unfold strip. destruct (rstrip_prefix (lstrip s)) as [b Hb].
  destruct (lstrip_suffix s) as [a Ha].
  rewrite Ha at 2. rewrite Hb at 2. rewrite !length_app_s. lia.
Qed.

Lemma contains_app_l (m a b : string) :
  contains m a = true -> contains m (a +:+ b) = true.
Proof.
  intros (x & y & ->)%contains_spec. apply contains_spec.
  exists x, (y +:+ b). by rewrite !app_assoc_s.
Qed.

Lemma contains_app_r (m a b : string) :
  contains m b = true -> contains m (a +:+ b) = true.
Proof.
  intros (x & y & ->)%contains_spec. apply contains_spec.
  exists (a +:+ x), y. by rewrite !app_assoc_s.
Qed.

Lemma strip_contains (m s : string) :
  contains m (strip s) = true -> contains m s = true.
Proof.
  unfold strip. intros Hc.
  destruct (rstrip_prefix (lstrip s)) as [b Hb]. destruct (lstrip_suffix s) as [a Ha].
  rewrite Ha. apply contains_app_r. rewrite Hb. by apply contains_app_l.
Qed.

Lemma strip_prefix_app_None (p u v : string) :
  strip_prefix p (u +:+ v) = None -> strip_prefix p u = None.
Proof.
  intros Hn. destruct (strip_prefix p u) as [r|] eqn:Hu; [|reflexivity].
  apply strip_prefix_Some in Hu as ->. by rewrite app_assoc_s, strip_prefix_app in Hn.
Qed.

(** What the lazy group matches: the text up to an end marker, with no end
    marker starting inside it. *)
Lemma lazy_spec (s g rest : string) :
  lazy_until_close s = Some (g, rest) ->
  s = g +:+ think_close +:+ rest /\ contains think_close (g +:+ "</think") = false.
Proof.
  revert g rest. induction s as [|c s IH]; intros g rest; cbn [lazy_until_close].
  - destruct (strip_prefix think_close "") eqn:Hp; [discriminate|discriminate].
  - destruct (strip_prefix think_close (String c s)) as [r|] eqn:Hp.
    + intros [= <- <-]. apply strip_prefix_Some in Hp. split; [exact Hp|reflexivity].
    + destruct (lazy_until_close s) as [[g' rest']|] eqn:Hl; [|discriminate].
      intros [= <- <-]. destruct (IH g' rest' eq_refl) as [-> Hno].
      split; [reflexivity|]. rewrite app_cons. cbn [contains]. rewrite Hno.
      assert (strip_prefix think_close (String c (g' +:+ "</think")) = None) as ->;
        [|reflexivity].
      apply (strip_prefix_app_None _ _ (">" +:+ rest')).
      rewrite <- app_cons, app_assoc_s.
      change ("</think" +:+ ">" +:+ rest') with (think_close +:+ rest').
      by rewrite app_cons.
Qed.

Lemma match_here_spec (s g rest : string) :
  match_here s = Some (g, rest) ->
  contains think_close g = false
  /\ (String.length g + String.length rest <= String.length s)%nat.
Proof.
  assert (forall s', lazy_until_close s' = Some (g, rest) ->
                     contains think_close g = false
                     /\ (String.length g + String.length rest <= String.length s')%nat)
    as Hlazy.
  { intros s' [-> Hno]%lazy_spec. split.
    - destruct (contains think_close g) eqn:Hg; [|reflexivity].
      by rewrite (contains_app_l _ _ "</think" Hg) in Hno.
    - rewrite !length_app_s. lia. }
  unfold match_here. destruct (strip_prefix think_open s) as [s'|] eqn:Hp; [|apply Hlazy].
  destruct (lazy_until_close s') as [r|] eqn:Hl; [|apply Hlazy].
  intros [= ->]. apply strip_prefix_Some in Hp as ->.
  destruct (Hlazy s' Hl) as [Hno Hlen]. split; [exact Hno|].
  rewrite length_app_s. lia.
Qed.

Lemma re_search_spec (s before g rest : string) :
  re_search s = Some (before, g, rest) ->
  contains think_close g = false
  /\ (String.length before + String.length g + String.length rest <= String.length s)%nat.
Proof.
  revert before. induction s as [|c s IH]; intros before; cbn [re_search].
  - destruct (match_here "") as [[g' r']|] eqn:Hm; [|discriminate].
    intros [= <- <- <-]. apply match_here_spec in Hm. simpl in *. split; [tauto|lia].
  - destruct (match_here (String c s)) as [[g' r']|] eqn:Hm.
    + intros [= <- <- <-]. apply match_here_spec in Hm. simpl in *. split; [tauto|lia].
    + destruct (re_search s) as [[[b' g'] r']|]; [|discriminate].
      intros [= <- <- <-]. destruct (IH b' eq_refl) as [Hno Hlen].
      split; [exact Hno|]. simpl. lia.
Qed.

(** X8: for every input, the content and the reasoning that
    [_extract_reasoning] returns neither start nor end with white space,
    the reasoning contains no end marker, and together they are no longer
    than the input. *)
Theorem extract_reasoning_outputs_trimmed :
  forall s : string,
    trimmed (_extract_reasoning s).1
    /\ trimmed (_extract_reasoning s).2
    /\ contains think_close (_extract_reasoning s).2 = false
    /\ (String.length (_extract_reasoning s).1 + String.length (_extract_reasoning s).2
        <= String.length s)%nat.
Proof.
  intros s. unfold _extract_reasoning, re_sub_first. cbn [fst snd].
  split; [apply strip_trimmed|].
  destruct (re_search s) as [[[before g] rest]|] eqn:Hs.
  - apply re_search_spec in Hs as [Hno Hlen].
    split; [apply strip_trimmed|]. split.
    + destruct (contains think_close (strip g)) eqn:Hc; [|reflexivity].
      apply strip_contains in Hc. congruence.
    + pose proof (strip_length (before +:+ rest)) as H1.
      pose proof (strip_length g) as H2. rewrite length_app_s in H1. lia.
  - split; [split; discriminate|]. split; [reflexivity|].
    pose proof (strip_length s). simpl. lia.
Qed.

End StripFacts.

(** ** Further properties of the tool option validation *)

Section ToolShape.
Import Tools.
Context {api : ToolOptionAPI}.

Local Abbreviation Val := (PyVal ToolParamType).

Lemma params_loop_raise (ps : list Val) (st : ToolOptionBuilder * bool) (e : PyExc) :
  params_loop ps st = Raise e ->
  (e = IndexError \/ e = TypeError \/ e = KeyError "0")
  /\ forallb (fun p => passes_checks p || loggable p) ps = false.
Proof.
  revert st. induction ps as [|p ps IH]; intros [b legal]; [discriminate|].
  cbn [params_loop forallb]. unfold param_step, passes_checks, loggable.
  destruct (check_param p) as [[[[[n t] d] r] ev]|].
  - destruct (add_param n t d r ev b); apply IH.
  - destruct (getitem0 p) as [e0|] eqn:Hg.
    + intros [= <-]. split; [|reflexivity].
      destruct p as [| | |s| |l|l|items]; simpl in Hg;
        try (injection Hg as <-; auto; fail);
        try (destruct l; [injection Hg as <-; auto|discriminate]).
      * destruct s; [injection Hg as <-; auto|discriminate].
      * destruct (existsb _ items); [discriminate|]. injection Hg as <-. auto.
    + apply IH.
Qed.

Lemma tool_step_raise (t : gmap string Val) (e : PyExc) :
  tool_step t = Raise e ->
  (e = IndexError \/ e = TypeError \/ e = KeyError "0") /\ rejections_loggable t = false.
Proof.
  unfold tool_step, rejections_loggable, parameters_of.
  destruct (py_iter (dict_get_default t "parameters" (PyList []))) as [ps|e0] eqn:Hit.
  - apply params_loop_raise.
  - intros [= <-]. split; [|reflexivity].
    destruct (dict_get_default t "parameters" (PyList [])); simpl in Hit;
      try discriminate; injection Hit as <-; auto.
Qed.

Lemma tools_loop_shape (tools : list (gmap string Val)) :
  forall acc : list ToolOption,
    (forall l, tools_loop tools acc = Return l ->
               exists l', l = acc ++ l' /\ (length l' <= length tools)%nat)
    /\ (forall e, tools_loop tools acc = Raise e ->
                  (e = IndexError \/ e = TypeError \/ e = KeyError "0")
                  /\ Exists (fun t => rejections_loggable t = false) tools).
Proof.
  induction tools as [|t tools IH]; intros acc.
  - split; [|discriminate]. intros l [= <-]. exists []. by rewrite app_nil_r.
  - cbn [tools_loop]. destruct (tool_step t) as [[b legal]|e0] eqn:Hstep.
    + destruct (IH (if legal then acc ++ [build b] else acc)) as [Hret Hraise]. split.
      * intros l Hl. destruct (Hret l Hl) as (l' & -> & Hlen). destruct legal.
        -- exists (build b :: l'). rewrite <- app_assoc. split; [reflexivity|simpl; lia].
        -- exists l'. split; [reflexivity|simpl; lia].
      * intros e He. destruct (Hraise e He) as [Hk Hex]. split; [exact Hk|].
        by apply Exists_cons_tl.
    + split; [discriminate|]. intros e [= <-].
      apply tool_step_raise in Hstep as [Hk Hlog]. split; [exact Hk|].
      by apply Exists_cons_hd.
Qed.

(** X9: [_build_tool_options] never returns an empty list: its result is
    [None] or a non-empty list of at most as many options as there are
    tools. The only exceptions it raises itself are those of the log line
    reading [param[0]] on a rejected parameter ([IndexError] on an empty
    sequence, [KeyError] on a dictionary without the key [0], [TypeError]
    on a value that cannot be subscripted) and the [TypeError] of a
    [parameters] value that cannot be iterated; each of the three is
    raised by some descriptor, and with no such tool in the list the
    function returns. *)
Theorem build_tool_options_result_shape :
  (forall (tools : option (list (gmap string Val))) (l : list ToolOption),
     _build_tool_options tools = Return (Some l) ->
     l <> [] /\ exists ts, tools = Some ts /\ (length l <= length ts)%nat)
  /\ (forall (ts : list (gmap string Val)) (e : PyExc),
        _build_tool_options (Some ts) = Raise e ->
        (e = IndexError \/ e = TypeError \/ e = KeyError "0")
        /\ Exists (fun t => rejections_loggable t = false) ts)
  /\ (forall ts : list (gmap string Val),
        Forall (fun t => rejections_loggable t = true) ts ->
        exists r, _build_tool_options (Some ts) = Return r)
  /\ _build_tool_options (Some [{[ "parameters" := PyList [PyTuple []] ]}])
     = Raise IndexError
  /\ _build_tool_options (Some [{[ "parameters" := PyList [PyInt 7] ]}])
     = Raise TypeError
  /\ _build_tool_options
       (Some [{[ "parameters" := PyList [PyDict [(PyStr "name", PyStr "city")]] ]}])
     = Raise (KeyError "0")
  /\ (exists r,
        _build_tool_options
          (Some [{[ "parameters" := PyList [PyDict [(PyInt 0, PyStr "city")]] ]}])
        = Return r).
Proof.
  split; [|split; [|split; [|split; [|split; [|split]]]]].
  7: { eexists. vm_compute. reflexivity. }
  6: { vm_compute. reflexivity. }
  5: { vm_compute. reflexivity. }
  4: { vm_compute. reflexivity. }
  - intros [[|t ts]|] l; cbn [_build_tool_options]; try discriminate.
    destruct (tools_loop (t :: ts) []) as [[|x l0]|e] eqn:Hloop; try discriminate.
    intros [= <-]. split; [discriminate|]. exists (t :: ts). split; [reflexivity|].
    destruct (proj1 (tools_loop_shape (t :: ts) []) _ Hloop) as (l' & Hl & Hlen).
    simpl in Hl. subst l'. exact Hlen.
  - intros [|t ts] e; cbn [_build_tool_options]; [discriminate|].
    destruct (tools_loop (t :: ts) []) as [[|x l0]|e0] eqn:Hloop; try discriminate.
    intros [= <-]. by apply (proj2 (tools_loop_shape (t :: ts) [])).
  - intros [|t ts] Hall; cbn [_build_tool_options]; [by eexists|].
    destruct (tools_loop (t :: ts) []) as [[|x l0]|e0] eqn:Hloop; [by eexists..|].
    apply (proj2 (tools_loop_shape (t :: ts) [])) in Hloop as [_ Hex].
    apply Exists_exists in Hex as (u & Hu & Hlog).
    rewrite Forall_forall in Hall. rewrite (Hall u Hu) in Hlog. discriminate.
Qed.

End ToolShape.

Section ReplyFacts.
Import Reasoning Edges Replies.

Lemma re_search_contains (s before g rest : string) :
  re_search s = Some (before, g, rest) -> contains think_close s = true.
Proof.
  intros Hs. destruct (contains think_close s) eqn:Hc; [reflexivity|].
  rewrite (re_search_none _ Hc) in Hs. discriminate.
Qed.

(** X20: [generate_response_async] and [generate_response_for_image]
    return the same reasoning and, but for a response without content
    (where the first returns [None] and the second the empty string), the
    same content. When the response carries a reasoning of its own the
    content is returned as it is, markers and white space included;
    otherwise content and reasoning come back trimmed, and a reasoning is
    returned only when the content holds an end marker. A voice reply is
    never an empty string. *)
Theorem replies_agree_up_to_missing_content :
  forall content reasoning_content : option string,
    (reply_async content reasoning_content).2
    = (reply_for_image content reasoning_content).2
    /\ or_empty (reply_async content reasoning_content).1
       = (reply_for_image content reasoning_content).1
    /\ ((reply_async content reasoning_content).1 = None <-> content = None)
    /\ (or_empty reasoning_content <> "" ->
        reply_for_image content reasoning_content
        = (or_empty content, or_empty reasoning_content))
    /\ (or_empty reasoning_content = "" ->
        trimmed (reply_for_image content reasoning_content).1
        /\ trimmed (reply_for_image content reasoning_content).2
        /\ ((reply_for_image content reasoning_content).2 <> "" ->
            contains think_close (or_empty content) = true))
    /\ reply_for_voice content <> Some "".
Proof.
  intros content reasoning_content.
  unfold reply_async, reply_for_image, reply_for_voice.
  destruct (or_empty reasoning_content) as [|rc rs] eqn:Hr; cbn [nonempty negb andb].
  - destruct content as [[|c s]|]; unfold or_empty, default; cbn [from_option id nonempty fst snd].
    + repeat split; try done.
    + split; [reflexivity|]. split; [reflexivity|]. split; [split; discriminate|].
      split; [done|]. split; [|discriminate]. intros _.
      unfold _extract_reasoning. cbn [fst snd].
      split; [apply strip_trimmed|].
      destruct (re_search (String c s)) as [[[before g] rest]|] eqn:Hs.
      * split; [apply strip_trimmed|]. intros _. by apply re_search_contains in Hs.
      * split; [split; discriminate|]. done.
    + repeat split; try done.
  - destruct content as [[|c s]|]; unfold or_empty, default; cbn [from_option id nonempty fst snd];
      repeat split; try done.
Qed.

End ReplyFacts.

(** ** The image proxy *)

Section ProxyNames.
Import ImageProxy.

Lemma before_last_dot_ext (h ext : string) :
  before_last_dot ext = None ->
  before_last_dot (h +:+ String "." ext) = Some h.
Proof.
  intros Hext. induction h as [|c h IH].
  - change ("" +:+ String "." ext) with (String "." ext). simpl. by rewrite Hext.
  - rewrite app_cons. cbn [before_last_dot]. by rewrite IH.
Qed.

Lemma hash_part_ext (h ext : string) :
  before_last_dot ext = None ->
  hash_part (h +:+ String "." ext) = h.
Proof. intros Hext. unfold hash_part. by rewrite before_last_dot_ext. Qed.

(** The paths of one hash share their directory part. *)
Lemma os_path_join_proxy (name : string) :
  os_path_join PROXY_DIR name
  = (match name with String "/" _ => "" | _ => "data/emoji_proxy/" end) +:+ name.
Proof.
  destruct name as [|c name]; [reflexivity|].
  destruct c as [[] [] [] [] [] [] [] []]; reflexivity.
Qed.

Lemma path_dir_same (h ext1 ext2 : string) :
  exists dir, os_path_join PROXY_DIR (h +:+ String "." ext1) = dir +:+ h +:+ String "." ext1
              /\ os_path_join PROXY_DIR (h +:+ String "." ext2) = dir +:+ h +:+ String "." ext2.
Proof.
  rewrite !os_path_join_proxy. destruct h as [|c h].
  - by exists "data/emoji_proxy/".
  - rewrite !app_cons.
    by exists (match String c h with String "/" _ => "" | _ => "data/emoji_proxy/" end).
Qed.

(** X10: the name of a hash's cache file or skip marker gives the hash
    back under the split that the cleanup applies, whatever characters the
    hash contains; the transcoder's temporary file for the hash lies in
    the same directory under the name of the cache file followed by
    [.tmp], and the split gives the cache file's name for it. *)
Theorem hash_part_of_proxy_names :
  forall h : string,
    hash_part (h +:+ ".webp") = h
    /\ hash_part (h +:+ ".skip") = h
    /\ get_cache_path h +:+ ".tmp" = os_path_join PROXY_DIR (h +:+ ".webp.tmp")
    /\ hash_part (h +:+ ".webp.tmp") = h +:+ ".webp".
Proof.
  intros h. split; [|split; [|split]].
  - by apply (hash_part_ext h "webp").
  - by apply (hash_part_ext h "skip").
  - unfold get_cache_path.
    destruct (path_dir_same h "webp" "webp.tmp") as (dir & -> & ->).
    rewrite !app_assoc_s. do 2 f_equal.
  - change (h +:+ ".webp.tmp") with (h +:+ ".webp" +:+ ".tmp").
    rewrite <- app_assoc_s. by apply (hash_part_ext (h +:+ ".webp") "tmp").
Qed.

Lemma cleanup_loop_filter (valid : gset string) (remove_ok : string -> bool)
    (files : list string) :
  forall (n : nat) (removed : list string),
    cleanup_loop valid remove_ok files n removed
    = ((n + length (List.filter (fun f => negb (bool_decide (hash_part f ∈ valid))
                                          && remove_ok f) files))%nat,
       removed ++ List.filter (fun f => negb (bool_decide (hash_part f ∈ valid))
                                        && remove_ok f) files).
Proof.
  induction files as [|f files IH]; intros n removed.
  - simpl. by rewrite Nat.add_0_r, app_nil_r.
  - cbn [cleanup_loop List.filter].
    destruct (negb (bool_decide (hash_part f ∈ valid)) && remove_ok f).
    + rewrite IH, <- app_assoc. simpl. f_equal. lia.
    + apply IH.
Qed.

(** X11: the cleanup removes only files whose name, cut at its last dot,
    is not a valid hash, and counts exactly the removals that succeeded.
    The cache file and the skip marker of a valid hash are never removed;
    when every removal succeeds, each file left has a valid hash part; and
    when the database query fails or the directory is missing, nothing is
    removed and the count is zero. *)
Theorem cleanup_removes_only_stale_files :
  forall (valid : gset string) (files : list string) (remove_ok : string -> bool),
    (_cleanup_stale_cache_sync (Some valid) (Some files) remove_ok).1
    = length (_cleanup_stale_cache_sync (Some valid) (Some files) remove_ok).2
    /\ ((_cleanup_stale_cache_sync (Some valid) (Some files) remove_ok).1 <= length files)%nat
    /\ (forall f, In f (_cleanup_stale_cache_sync (Some valid) (Some files) remove_ok).2 ->
                  In f files /\ (hash_part f ∉ valid) /\ remove_ok f = true)
    /\ (forall h, h ∈ valid ->
                  ~ In (h +:+ ".webp")
                      (_cleanup_stale_cache_sync (Some valid) (Some files) remove_ok).2
                  /\ ~ In (h +:+ ".skip")
                         (_cleanup_stale_cache_sync (Some valid) (Some files) remove_ok).2)
    /\ ((forall f, remove_ok f = true) ->
        forall f, In f files ->
                  ~ In f (_cleanup_stale_cache_sync (Some valid) (Some files) remove_ok).2 ->
                  hash_part f ∈ valid)
    /\ _cleanup_stale_cache_sync None (Some files) remove_ok = (0%nat, [])
    /\ _cleanup_stale_cache_sync (Some valid) None remove_ok = (0%nat, []).
Proof.
  intros valid files remove_ok. cbn [_cleanup_stale_cache_sync].
  rewrite cleanup_loop_filter. cbn [fst snd app Nat.add].
  assert (forall f, In f (List.filter (fun f => negb (bool_decide (hash_part f ∈ valid))
                                               && remove_ok f) files)
                    <-> In f files /\ (hash_part f ∉ valid) /\ remove_ok f = true) as Hin.
  { intros f. rewrite filter_In, andb_true_iff, negb_true_iff, bool_decide_eq_false. tauto. }
  split; [reflexivity|]. split; [apply filter_length_le|]. split; [apply Hin|].
  split; [|split; [|split; reflexivity]].
  - intros h Hh.
    pose proof (hash_part_ext h "webp" eq_refl) as Hw.
    pose proof (hash_part_ext h "skip" eq_refl) as Hs.
    split; intros (_ & Hout & _)%Hin; apply Hout; congruence.
  - intros Hok f Hf Hnot. destruct (decide (hash_part f ∈ valid)) as [|Hout]; [assumption|].
    exfalso. apply Hnot, Hin. by repeat split.
Qed.

(** X12: the temporary file of a transcode in progress is stale to the
    cleanup: for a hash [h], valid or not, the file [h.webp.tmp] of the
    cache directory is removed (when its removal succeeds) unless
    [h.webp] is itself a valid hash. *)
Theorem cleanup_removes_transcoder_temp_file :
  forall (valid : gset string) (files : list string) (remove_ok : string -> bool)
         (h : string),
    (h +:+ ".webp") ∉ valid ->
    In (h +:+ ".webp.tmp") files ->
    remove_ok (h +:+ ".webp.tmp") = true ->
    In (h +:+ ".webp.tmp")
       (_cleanup_stale_cache_sync (Some valid) (Some files) remove_ok).2.
Proof.
  intros valid files remove_ok h Hout Hin Hok. cbn [_cleanup_stale_cache_sync].
  rewrite cleanup_loop_filter. cbn [snd app].
  apply filter_In. split; [assumption|].
  rewrite Hok, andb_true_r, negb_true_iff, bool_decide_eq_false.
  change (h +:+ ".webp.tmp") with (h +:+ ".webp" +:+ ".tmp").
  rewrite <- app_assoc_s. by rewrite (hash_part_ext (h +:+ ".webp") "tmp").
Qed.

End ProxyNames.


Section PoolFacts.
Import ImageProxy.

(** [enqueue_transcode] either refuses and leaves the manager as it is, or
    appends the item and adds its hash to the pending set. *)
Lemma enqueue_cases (fs : gmap string nat) (emoji : Emoji) (self : ProxyManager) :
  (enqueue_transcode fs emoji self = (false, self))
  \/ ((emoji_hash emoji ∉ _pending_hashes self)
      /\ lower (format emoji) ∈ SUPPORTED_FORMATS
      /\ exists_ fs (get_cache_path (emoji_hash emoji)) = false
      /\ exists_ fs (get_skip_marker_path (emoji_hash emoji)) = false
      /\ exists_ fs (full_path emoji) = true
      /\ enqueue_transcode fs emoji self
         = (true,
            {| _pending_hashes := _pending_hashes self ∪ {[ emoji_hash emoji ]};
               _transcode_queue := _transcode_queue self
                                   ++ [(emoji_hash emoji, full_path emoji)];
               _workers_started := _workers_started self;
               _worker_tasks := _worker_tasks self |})).
Proof.
  unfold enqueue_transcode, get_cached_proxy_path, should_skip_transcode.
  case_bool_decide as Hfmt; [|by left]. cbn [negb].
  case_bool_decide as Hpend; [by left|].
  destruct (exists_ fs (get_cache_path (emoji_hash emoji))) eqn:Hc.
  { rewrite bool_decide_eq_true_2 by eauto. by left. }
  rewrite bool_decide_eq_false_2 by (intros [? ?]; discriminate). cbn [orb].
  destruct (exists_ fs (get_skip_marker_path (emoji_hash emoji))) eqn:Hs; [by left|].
  destruct (exists_ fs (full_path emoji)) eqn:Hf; [|by left].
  right. by repeat split.
Qed.


(** X14: with [start_workers] and [stop_workers] each running to its end,
    the manager holds its two transcoding workers and its cleanup worker
    when it is started and no task when it is stopped; starting twice does
    not add workers. *)
Theorem workers_started_once :
  forall p : Pool,
    reachable p ->
    _worker_tasks (manager p)
    = if _workers_started (manager p)
      then [WorkerTask 0; WorkerTask 1; CleanupTask]
      else [].
Proof.
  induction 1 as [|p q _ IH Hstep]; [reflexivity|].
  destruct Hstep as [fs emoji p|item rest p Hq|before after item p Hr|p|p];
    cbn [manager running set_queue _worker_tasks _workers_started]; try exact IH.
  - destruct (enqueue_cases fs emoji (manager p)) as [->|(_ & _ & _ & _ & _ & ->)];
      exact IH.
  - unfold start_workers. destruct (_workers_started (manager p)) eqn:Hs;
      cbn [negb _worker_tasks _workers_started]; rewrite ?Hs, IH; reflexivity.
  - unfold stop_workers. destruct (_workers_started (manager p)) eqn:Hs;
      cbn [negb _worker_tasks _workers_started]; rewrite ?Hs, ?IH; reflexivity.
Qed.

End PoolFacts.

Section TranscodeFacts.
Import ImageProxy.

Lemma exists_true (fs : gmap string nat) (p : string) :
  exists_ fs p = true <-> is_Some (fs !! p).
Proof. unfold exists_. apply bool_decide_eq_true. Qed.

Lemma exists_false (fs : gmap string nat) (p : string) :
  exists_ fs p = false <-> fs !! p = None.
Proof.
  unfold exists_. rewrite bool_decide_eq_false. split.
  - intros Hn. destruct (fs !! p); [exfalso; eauto|reflexivity].
  - intros -> [? ?]. discriminate.
Qed.

Lemma app_inj_s (a x y : string) : a +:+ x = a +:+ y -> x = y.
Proof.
  induction a as [|c a IH]; [trivial|]. rewrite !app_cons. intros [= H]. by apply IH.
Qed.

Lemma tmp_path_differs (p : string) : p +:+ ".tmp" <> p.
Proof.
  intros H. apply (f_equal String.length) in H. rewrite length_app_s in H.
  simpl in H. lia.
Qed.

Lemma proxy_paths_distinct (h : string) :
  get_cache_path h <> get_skip_marker_path h
  /\ get_cache_path h +:+ ".tmp" <> get_skip_marker_path h.
Proof.
  unfold get_cache_path, get_skip_marker_path.
  destruct (path_dir_same h "webp" "skip") as (dir & -> & ->).
  rewrite !app_assoc_s. split; intros H; do 2 apply app_inj_s in H; discriminate.
Qed.

(** The failure clause leaves every file but the temporary one, and
    leaves no temporary file when its removal does not fail. *)
Lemma transcode_failed_spec (flt : Faults) (temp : string) (fs : gmap string nat) :
  (transcode_failed flt temp fs).1 = (false, 0%nat, 0%nat)
  /\ (forall p, p <> temp -> (transcode_failed flt temp fs).2 !! p = fs !! p)
  /\ (remove_fails flt temp = false -> (transcode_failed flt temp fs).2 !! temp = None).
Proof.
  unfold transcode_failed. cbn [fst snd]. split; [reflexivity|].
  destruct (exists_ fs temp) eqn:He; cbn [andb].
  - destruct (remove_fails flt temp); cbn [negb]; split; try discriminate.
    + reflexivity.
    + intros p Hp. by rewrite lookup_delete_ne.
    + intros _. apply lookup_delete_eq.
  - split; [reflexivity|]. intros _. by apply exists_false.
Qed.

Lemma transcode_sync_cases (flt : Faults) (opened : option ImageFile)
    (source_path target_path : string) (fs : gmap string nat) :
  let r := _transcode_sync flt opened source_path target_path fs in
  let temp_path := target_path +:+ ".tmp" in
  (forall p, p <> target_path -> p <> temp_path -> r.2 !! p = fs !! p)
  /\ ((r.1 = (false, 0%nat, 0%nat)
       /\ (remove_fails flt temp_path = false -> r.2 !! temp_path = None)
       /\ (r.2 !! target_path = fs !! target_path
           \/ r.2 !! target_path = None
           \/ fs !! source_path = Some 0%nat))
      \/ (exists (original_size webp_size : nat) (img : ImageFile),
            r.1 = (true, original_size, webp_size)
            /\ fs !! source_path = Some original_size
            /\ original_size <> 0%nat
            /\ opened = Some img
            /\ encode img = Encoded webp_size
            /\ makedirs_fails flt = false
            /\ rename_fails flt = false
            /\ r.2 !! target_path = Some webp_size
            /\ r.2 !! temp_path = None)).
Proof.
  intros r temp_path. subst r. unfold _transcode_sync. fold temp_path.
  assert (temp_path <> target_path) as Hne by apply tmp_path_differs.
  assert (forall (g : gmap string nat) (Z : Prop),
             (forall p, p <> target_path -> p <> temp_path -> g !! p = fs !! p) ->
             (g !! target_path = fs !! target_path \/ g !! target_path = None \/ Z) ->
             (forall p, p <> target_path -> p <> temp_path ->
                        (transcode_failed flt temp_path g).2 !! p = fs !! p)
             /\ (transcode_failed flt temp_path g).1 = (false, 0%nat, 0%nat)
             /\ (remove_fails flt temp_path = false ->
                 (transcode_failed flt temp_path g).2 !! temp_path = None)
             /\ ((transcode_failed flt temp_path g).2 !! target_path = fs !! target_path
                 \/ (transcode_failed flt temp_path g).2 !! target_path = None
                 \/ Z))
    as Hfail.
  { intros g Z Hframe Htgt.
    destruct (transcode_failed_spec flt temp_path g) as (H1 & H2 & H3). split.
    - intros p Hp1 Hp2. rewrite H2 by assumption. by apply Hframe.
    - split; [assumption|]. split; [assumption|].
      rewrite H2 by (intros E; by apply Hne). exact Htgt. }
  destruct (fs !! source_path) as [original_size|] eqn:Hsrc.
  2:{ destruct (Hfail fs (@None nat = Some 0%nat)) as (F1 & F2); [trivial|by left|].
      split; [exact F1|left; exact F2]. }
  destruct (makedirs_fails flt) eqn:Hmk.
  { destruct (Hfail fs (Some original_size = Some 0%nat)) as (F1 & F2); [trivial|by left|].
    split; [exact F1|left; exact F2]. }
  destruct opened as [img|].
  2:{ destruct (Hfail fs (Some original_size = Some 0%nat)) as (F1 & F2); [trivial|by left|].
      split; [exact F1|left; exact F2]. }
  destruct (encode img) as [webp_size|[n|]] eqn:Henc.
  - assert (forall g : gmap string nat,
               (forall p, p <> target_path -> p <> temp_path -> g !! p = fs !! p) ->
               g !! target_path = None ->
               let r := (if rename_fails flt then transcode_failed flt temp_path g
                         else if (original_size =? 0)%nat
                              then transcode_failed flt temp_path
                                     (<[target_path := webp_size]> (delete temp_path g))
                              else ((true, original_size, webp_size),
                                    <[target_path := webp_size]> (delete temp_path g))) in
               (forall p, p <> target_path -> p <> temp_path -> r.2 !! p = fs !! p)
               /\ ((r.1 = (false, 0%nat, 0%nat)
                    /\ (remove_fails flt temp_path = false -> r.2 !! temp_path = None)
                    /\ (r.2 !! target_path = fs !! target_path
                        \/ r.2 !! target_path = None
                        \/ Some original_size = Some 0%nat))
                   \/ (exists (o w : nat) (img0 : ImageFile),
                         r.1 = (true, o, w)
                         /\ Some original_size = Some o
                         /\ o <> 0%nat
                         /\ Some img = Some img0
                         /\ encode img0 = Encoded w
                         /\ false = false
                         /\ rename_fails flt = false
                         /\ r.2 !! target_path = Some w
                         /\ r.2 !! temp_path = None))) as Hren.
    { intros g Hframe Hnone r. subst r.
      destruct (rename_fails flt) eqn:Hrn.
      - destruct (Hfail g (Some original_size = Some 0%nat)) as (F1 & F2);
          [assumption|right; by left|].
        split; [exact F1|left; exact F2].
      - destruct (original_size =? 0)%nat eqn:Hz.
        + apply Nat.eqb_eq in Hz. subst original_size.
          destruct (Hfail (<[target_path := webp_size]> (delete temp_path g))
                          (Some 0%nat = Some 0%nat)) as (F1 & F2).
          * intros p Hp1 Hp2. rewrite lookup_insert_ne, lookup_delete_ne by congruence.
            by apply Hframe.
          * right. by right.
          * split; [exact F1|left; exact F2].
        + apply Nat.eqb_neq in Hz. cbn [fst snd]. split.
          * intros p Hp1 Hp2. rewrite lookup_insert_ne, lookup_delete_ne by congruence.
            by apply Hframe.
          * right. exists original_size, webp_size, img.
            repeat split; try assumption; try reflexivity.
            -- apply lookup_insert_eq.
            -- rewrite lookup_insert_ne by congruence. apply lookup_delete_eq. }
    destruct (exists_ (<[temp_path := webp_size]> fs) target_path) eqn:Hex.
    + destruct (remove_fails flt target_path) eqn:Hrm.
      * destruct (Hfail (<[temp_path := webp_size]> fs) (Some original_size = Some 0%nat))
          as (F1 & F2).
        -- intros p Hp1 Hp2. by rewrite lookup_insert_ne by congruence.
        -- left. by rewrite lookup_insert_ne by congruence.
        -- split; [exact F1|left; exact F2].
      * apply Hren.
        -- intros p Hp1 Hp2. by rewrite lookup_delete_ne, lookup_insert_ne by congruence.
        -- apply lookup_delete_eq.
    + apply Hren.
      * intros p Hp1 Hp2. by rewrite lookup_insert_ne by congruence.
      * by apply exists_false.
  - destruct (Hfail (<[temp_path := n]> fs) (Some original_size = Some 0%nat)) as (F1 & F2).
    + intros p Hp1 Hp2. by rewrite lookup_insert_ne by congruence.
    + left. by rewrite lookup_insert_ne by congruence.
    + split; [exact F1|left; exact F2].
  - destruct (Hfail fs (Some original_size = Some 0%nat)) as (F1 & F2); [trivial|by left|].
    split; [exact F1|left; exact F2].
Qed.

End TranscodeFacts.

Section TranscodeOutcome.
Import ImageProxy.

(** With no failing operation, a source that is not empty and an image
    the encoder accepts, the transcoder succeeds. *)
Lemma transcode_sync_succeeds (flt : Faults) (img : ImageFile)
    (source_path target_path : string) (fs : gmap string nat) (o w : nat) :
  makedirs_fails flt = false ->
  rename_fails flt = false ->
  fs !! source_path = Some o ->
  o <> 0%nat ->
  encode img = Encoded w ->
  (exists_ fs target_path = true -> remove_fails flt target_path = false) ->
  (_transcode_sync flt (Some img) source_path target_path fs).1 = (true, o, w).
Proof.
  intros Hmk Hrn Hsrc Ho Henc Hrm. unfold _transcode_sync.
  rewrite Hsrc, Hmk, Henc, Hrn.
  apply Nat.eqb_neq in Ho. rewrite Ho.
  replace (exists_ (<[target_path +:+ ".tmp" := w]> fs) target_path)
    with (exists_ fs target_path)
    by (unfold exists_; by rewrite lookup_insert_ne by apply tmp_path_differs).
  destruct (exists_ fs target_path); [|reflexivity]. by rewrite Hrm.
Qed.

(** X15: [_transcode_sync] touches no file but its target and its
    temporary file. When it reports success, the sizes it reports are the
    size the source had, which is not zero, and the size of the target it
    installed, and no temporary file is left. When it reports failure the
    sizes are zero, and no temporary file is left unless its removal
    failed. It succeeds whenever the source is not empty, the image opens
    and is encoded, and no file operation it attempts fails. *)
Theorem transcode_sync_outcome :
  forall (flt : Faults) (opened : option ImageFile) (source_path target_path : string)
         (fs : gmap string nat),
    (forall p, p <> target_path -> p <> target_path +:+ ".tmp" ->
               (_transcode_sync flt opened source_path target_path fs).2 !! p = fs !! p)
    /\ (forall original_size webp_size,
           (_transcode_sync flt opened source_path target_path fs).1
           = (true, original_size, webp_size) ->
           fs !! source_path = Some original_size
           /\ original_size <> 0%nat
           /\ (_transcode_sync flt opened source_path target_path fs).2 !! target_path
              = Some webp_size
           /\ (_transcode_sync flt opened source_path target_path fs).2
                !! (target_path +:+ ".tmp") = None)
    /\ ((_transcode_sync flt opened source_path target_path fs).1.1.1 = false ->
        (_transcode_sync flt opened source_path target_path fs).1 = (false, 0%nat, 0%nat)
        /\ (remove_fails flt (target_path +:+ ".tmp") = false ->
            (_transcode_sync flt opened source_path target_path fs).2
              !! (target_path +:+ ".tmp") = None))
    /\ (forall img original_size webp_size,
           opened = Some img ->
           makedirs_fails flt = false ->
           rename_fails flt = false ->
           fs !! source_path = Some original_size ->
           original_size <> 0%nat ->
           encode img = Encoded webp_size ->
           (exists_ fs target_path = true -> remove_fails flt target_path = false) ->
           (_transcode_sync flt opened source_path target_path fs).1
           = (true, original_size, webp_size)).
Proof.
  intros flt opened source_path target_path fs.
  destruct (transcode_sync_cases flt opened source_path target_path fs)
    as (Hframe & [(Hr & Htmp & _)|(o & w & img & Hr & Hsrc & Ho & _ & _ & _ & _ & Ht & Htmp)]).
  - split; [exact Hframe|]. split; [|split].
    + intros o w E. rewrite Hr in E. discriminate.
    + intros _. by split.
    + intros img o w -> Hmk Hrn Hsrc Ho Henc Hrm. by apply transcode_sync_succeeds.
  - split; [exact Hframe|]. split; [|split].
    + intros o' w' E. rewrite Hr in E. injection E as <- <-. by repeat split.
    + intros E. rewrite Hr in E. discriminate.
    + intros img' o' w' -> Hmk Hrn Hsrc' Ho' Henc Hrm. by apply transcode_sync_succeeds.
Qed.

Lemma do_transcode_unchanged (flt : Faults) (opened : option ImageFile)
    (h source_path : string) (fs : gmap string nat) :
  exists_ fs source_path = false
  \/ exists_ fs (get_cache_path h) = true
  \/ exists_ fs (get_skip_marker_path h) = true ->
  _do_transcode flt opened h source_path fs = fs.
Proof.
  unfold _do_transcode. intros [->|[->| ->]]; [reflexivity| |].
  - by destruct (exists_ fs source_path).
  - destruct (exists_ fs source_path); [|reflexivity]. by rewrite orb_true_r.
Qed.

(** What [_do_transcode] leaves when it reaches the transcoder. *)
Lemma do_transcode_cases (flt : Faults) (opened : option ImageFile)
    (h source_path : string) (fs : gmap string nat) :
  exists_ fs source_path = true ->
  fs !! get_cache_path h = None ->
  fs !! get_skip_marker_path h = None ->
  let fs' := _do_transcode flt opened h source_path fs in
  let cache_path := get_cache_path h in
  let skip_path := get_skip_marker_path h in
  (forall p, p <> cache_path -> p <> cache_path +:+ ".tmp" -> p <> skip_path ->
             fs' !! p = fs !! p)
  /\ (((_transcode_sync flt opened source_path cache_path fs).1 = (false, 0%nat, 0%nat)
       /\ fs' !! skip_path = None
       /\ (fs' !! cache_path = None \/ fs !! source_path = Some 0%nat))
      \/ (exists (o w : nat) (img : ImageFile),
            fs !! source_path = Some o /\ o <> 0%nat
            /\ opened = Some img /\ encode img = Encoded w
            /\ makedirs_fails flt = false /\ rename_fails flt = false
            /\ fs' !! (cache_path +:+ ".tmp") = None
            /\ (((w < o)%nat /\ fs' !! cache_path = Some w /\ fs' !! skip_path = None)
                \/ ((o <= w)%nat
                    /\ fs' !! cache_path
                       = (if remove_fails flt cache_path then Some w else None)
                    /\ fs' !! skip_path
                       = match write_fails flt skip_path with
                         | None => Some (String.length (skip_marker_text o w))
                         | Some partial => partial
                         end)))).
Proof.
  intros Hsrc Hc Hs fs' cache_path skip_path. subst fs'. unfold _do_transcode.
  rewrite Hsrc. cbn [negb]. fold cache_path skip_path.
  rewrite (proj2 (exists_false fs cache_path)) by exact Hc.
  rewrite (proj2 (exists_false fs skip_path)) by exact Hs. cbn [orb].
  unfold transcode_to_webp.
  destruct (proxy_paths_distinct h) as (Hcs & Hts). fold cache_path skip_path in Hcs, Hts.
  pose proof (tmp_path_differs cache_path) as Htc.
  assert (skip_path <> cache_path) as Hsc by (intros E; by apply Hcs).
  assert (skip_path <> cache_path +:+ ".tmp") as Hst by (intros E; by apply Hts).
  assert (cache_path <> cache_path +:+ ".tmp") as Hct by (intros E; by apply Htc).
  destruct (transcode_sync_cases flt opened source_path cache_path fs)
    as (Hframe & [(Hr & _ & Htgt)|(o & w & img & Hr & Hsz & Ho & Hop & Henc & Hmk & Hrn & Ht & Htmp)]).
  - destruct (_transcode_sync flt opened source_path cache_path fs) as [[[ok o] w] fs1].
    cbn [fst snd] in *. injection Hr as -> -> ->. cbn [negb]. split.
    + intros p Hp1 Hp2 _. by apply Hframe.
    + left. split; [reflexivity|]. split.
      * rewrite Hframe by assumption. exact Hs.
      * destruct Htgt as [E|[E|E]]; [left; rewrite E; exact Hc|by left|by right].
  - destruct (_transcode_sync flt opened source_path cache_path fs) as [[[ok o'] w'] fs1].
    cbn [fst snd] in *. injection Hr as -> -> ->. cbn [negb].
    assert (fs1 !! skip_path = None) as Hs1 by (rewrite Hframe by assumption; exact Hs).
    destruct (o <=? w)%nat eqn:Hle.
    + apply Nat.leb_le in Hle.
      rewrite (proj2 (exists_true fs1 cache_path)) by (rewrite Ht; eauto). cbn [andb].
      set (fs2 := if negb (remove_fails flt cache_path)
                  then delete cache_path fs1 else fs1).
      assert ((forall p, p <> cache_path -> p <> cache_path +:+ ".tmp" -> fs2 !! p = fs !! p)
              /\ fs2 !! (cache_path +:+ ".tmp") = None
              /\ fs2 !! cache_path = (if remove_fails flt cache_path then Some w else None))
        as (Hframe2 & Htmp2 & Hc2).
      { subst fs2. destruct (remove_fails flt cache_path); cbn [negb].
        - by repeat split.
        - split; [|split].
          + intros p Hp1 Hp2. rewrite lookup_delete_ne by congruence. by apply Hframe.
          + by rewrite lookup_delete_ne by congruence.
          + apply lookup_delete_eq. }
      assert (forall n, (forall p, p <> cache_path -> p <> cache_path +:+ ".tmp" ->
                                   p <> skip_path ->
                                   <[skip_path := n]> fs2 !! p = fs !! p)
                        /\ <[skip_path := n]> fs2 !! (cache_path +:+ ".tmp") = None
                        /\ <[skip_path := n]> fs2 !! cache_path
                           = (if remove_fails flt cache_path then Some w else None)
                        /\ <[skip_path := n]> fs2 !! skip_path = Some n) as Hins.
      { intros n. split; [|split; [|split]].
        - intros p Hp1 Hp2 Hp3. rewrite lookup_insert_ne by congruence. by apply Hframe2.
        - by rewrite lookup_insert_ne by congruence.
        - by rewrite lookup_insert_ne by congruence.
        - apply lookup_insert_eq. }
      destruct (write_fails flt skip_path) as [[n|]|] eqn:Hwr.
      * destruct (Hins n) as (G1 & G2 & G3 & G4). split; [exact G1|].
        right. exists o, w, img. repeat split; try assumption. right. by repeat split.
      * split; [intros p Hp1 Hp2 _; by apply Hframe2|].
        right. exists o, w, img. repeat split; try assumption. right.
        split; [assumption|]. split; [assumption|].
        rewrite Hframe2 by assumption. exact Hs.
      * destruct (Hins (String.length (skip_marker_text o w))) as (G1 & G2 & G3 & G4).
        split; [exact G1|].
        right. exists o, w, img. repeat split; try assumption. right. by repeat split.
    + apply Nat.leb_gt in Hle. split; [intros p Hp1 Hp2 _; by apply Hframe|].
      right. exists o, w, img. repeat split; try assumption. left. by repeat split.
Qed.

(** X16: [_do_transcode] touches no file but the cache file, the skip
    marker and the transcoder's temporary file of its hash, and touches
    nothing when the source is missing or the hash already has a cache
    file or a skip marker. When the source is not empty and the removal of
    the cache file does not fail, a cache file it leaves is strictly
    smaller than the source, a skip marker it leaves tells that the
    transcoded file was not smaller, and it never leaves both for a hash
    that did not have both. *)
Theorem do_transcode_keeps_only_smaller_proxy :
  forall (flt : Faults) (opened : option ImageFile) (h source_path : string)
         (fs : gmap string nat),
    (forall p, p <> get_cache_path h -> p <> get_cache_path h +:+ ".tmp" ->
               p <> get_skip_marker_path h ->
               _do_transcode flt opened h source_path fs !! p = fs !! p)
    /\ (exists_ fs source_path = false
        \/ exists_ fs (get_cache_path h) = true
        \/ exists_ fs (get_skip_marker_path h) = true ->
        _do_transcode flt opened h source_path fs = fs)
    /\ (remove_fails flt (get_cache_path h) = false ->
        fs !! source_path <> Some 0%nat ->
        (forall w, fs !! get_cache_path h = None ->
                   _do_transcode flt opened h source_path fs !! get_cache_path h = Some w ->
                   exists o, fs !! source_path = Some o /\ (w < o)%nat)
        /\ (fs !! get_skip_marker_path h = None ->
            is_Some (_do_transcode flt opened h source_path fs !! get_skip_marker_path h) ->
            exists o w img, fs !! source_path = Some o /\ opened = Some img
                            /\ encode img = Encoded w /\ (o <= w)%nat)
        /\ (~ (is_Some (fs !! get_cache_path h)
               /\ is_Some (fs !! get_skip_marker_path h)) ->
            ~ (is_Some (_do_transcode flt opened h source_path fs !! get_cache_path h)
               /\ is_Some (_do_transcode flt opened h source_path fs
                             !! get_skip_marker_path h)))).
Proof.
  intros flt opened h source_path fs.
  pose proof (do_transcode_unchanged flt opened h source_path fs) as Hsame.
  pose proof (do_transcode_cases flt opened h source_path fs) as Hcases.
  cbv zeta in Hcases.
  destruct (exists_ fs source_path) eqn:Hsrc;
    [|rewrite Hsame by (by left); repeat split; try done;
      [intros w E1 E2; congruence
      |intros E1 [x E2]; congruence]].
  destruct (fs !! get_cache_path h) as [c|] eqn:Hc.
  { rewrite Hsame by (right; left; apply exists_true; rewrite Hc; eauto).
    rewrite Hc. repeat split; try done. intros E1 [x E2]. congruence. }
  destruct (fs !! get_skip_marker_path h) as [s|] eqn:Hs.
  { rewrite Hsame by (right; right; apply exists_true; rewrite Hs; eauto).
    rewrite Hc, Hs. repeat split; try done. }
  specialize (Hcases eq_refl eq_refl eq_refl) as (Hframe & Hres).
  split; [exact Hframe|]. split; [intros [E|[E|E]]; [discriminate| |];
    apply exists_true in E as [x E]; congruence|].
  intros Hrm Hnz.
  destruct Hres as [(_ & Hs' & [Hc'|Hz])|(o & w & img & Hsz & Ho & Hop & Henc & _ & _ & _ & Hres)];
    try contradiction.
  - rewrite Hs', Hc'. repeat split.
    + intros w _ E. discriminate.
    + by intros _ [x E].
    + by intros _ [[x E] _].
  - rewrite Hrm in Hres.
    destruct Hres as [(Hlt & Hc' & Hs')|(Hle & Hc' & Hs')]; rewrite Hc'; repeat split.
    + intros w' _ [= <-]. eauto.
    + rewrite Hs'. by intros _ [x E].
    + rewrite Hs'. by intros _ [_ [x E]].
    + intros w' _ E. discriminate.
    + intros _ _. exists o, w, img. by repeat split.
    + by intros _ [[x E] _].
Qed.

End TranscodeOutcome.

Section ServeFacts.
Import ImageProxy.

Lemma convert_image_mode_webp (mode : string) :
  _convert_image_mode mode = "RGB" \/ _convert_image_mode mode = "RGBA".
Proof.
  unfold _convert_image_mode.
  case_bool_decide as H1; [by right|].
  case_bool_decide as H2; cbn [negb]; [|by left].
  apply elem_of_cons in H2 as [->|H2]; [by left|].
  apply list_elem_of_singleton in H2 as ->. by right.
Qed.

(** X17: whatever the image, the frames handed to the encoder are in
    mode RGB or RGBA, there is at least one and at most
    [MAX_ANIMATION_FRAMES] of them, an animation is given one duration per
    frame, the encoder is always called, and converting a converted mode
    changes nothing. *)
Theorem encoded_frames_bounded :
  forall img : ImageFile,
    Forall (fun m => m = "RGB" \/ m = "RGBA") (frames_encoded img)
    /\ (1 <= length (frames_encoded img))%nat
    /\ (Z.of_nat (length (frames_encoded img)) <= MAX_ANIMATION_FRAMES)
    /\ length (animated_frames img).1 = length (animated_frames img).2
    /\ (encode img = save_static img \/ encode img = save_animated img)
    /\ (forall m, _convert_image_mode (_convert_image_mode m) = _convert_image_mode m).
Proof.
  intros img. unfold frames_encoded, encode, animated_frames, MAX_ANIMATION_FRAMES.
  cbn [fst snd]. rewrite !length_map, !length_seq.
  assert (forall l : list nat,
             Forall (fun m => m = "RGB" \/ m = "RGBA")
                    (List.map (fun i => _convert_image_mode (frame_mode img i)) l)) as Hall.
  { induction l as [|i l IH]; cbn [List.map]; constructor;
      [apply convert_image_mode_webp|exact IH]. }
  split; [|split; [|split; [|split; [reflexivity|split]]]].
  - destruct (is_animated img && (n_frames img >? 1)); [destruct (n_frames img >? 150)|];
      try apply Hall;
      (apply Forall_cons; split; [apply convert_image_mode_webp|apply Forall_nil_2]).
  - destruct (is_animated img && (n_frames img >? 1)) eqn:Ha;
      [destruct (n_frames img >? 150)|]; cbn [length]; try lia.
    apply andb_true_iff in Ha as [_ Ha]. rewrite length_map, length_seq. lia.
  - destruct (is_animated img && (n_frames img >? 1)) eqn:Ha;
      [destruct (n_frames img >? 150) eqn:Hb|]; cbn [length]; try lia.
    rewrite length_map, length_seq. lia.
  - destruct (is_animated img && (n_frames img >? 1)) eqn:Ha;
      [destruct (n_frames img >? 150) eqn:Hb|]; try by left.
    apply andb_true_iff in Ha as [_ Ha].
    destruct (Z.to_nat (n_frames img)) as [|k] eqn:Hk; [lia|]. by right.
  - intros m. destruct (convert_image_mode_webp m) as [-> | ->]; reflexivity.
Qed.

(** X18: [get_proxy_or_original] leaves the manager that
    [enqueue_transcode] leaves, so its own tests of the cache file and the
    skip marker change nothing; the media type it gives is never empty;
    the path it gives is the cache file when there is one and the original
    otherwise, so it exists whenever the original does. *)
Theorem get_proxy_or_original_serves_existing_file :
  forall (fs : gmap string nat) (guess : option string) (emoji : Emoji)
         (self : ProxyManager),
    (get_proxy_or_original fs guess emoji self).2 = (enqueue_transcode fs emoji self).2
    /\ (get_proxy_or_original fs guess emoji self).1.2 <> ""
    /\ (get_proxy_or_original fs guess emoji self).1.1
       = (if exists_ fs (get_cache_path (emoji_hash emoji))
          then get_cache_path (emoji_hash emoji) else full_path emoji)
    /\ (exists_ fs (full_path emoji) = true ->
        exists_ fs (get_proxy_or_original fs guess emoji self).1.1 = true)
    /\ ((get_proxy_or_original fs guess emoji self).1.2 = "image/webp"
        \/ (exists_ fs (get_cache_path (emoji_hash emoji)) = false
            /\ (get_proxy_or_original fs guess emoji self).1.2
               = match guess with
                 | Some (String c s) => String c s
                 | _ => "application/octet-stream"
                 end)).
Proof.
  intros fs guess emoji self.
  unfold get_proxy_or_original, enqueue_transcode, get_cached_proxy_path,
    should_skip_transcode.
  destruct (exists_ fs (get_cache_path (emoji_hash emoji))) eqn:Hc; cbn [fst snd].
  - rewrite (bool_decide_eq_true_2
               (is_Some (Some (get_cache_path (emoji_hash emoji))))) by eauto.
    cbn [orb].
    split; [|split; [discriminate|split; [reflexivity|split; [intros _; exact Hc|by left]]]].
    by destruct (negb _), (bool_decide (emoji_hash emoji ∈ _pending_hashes self)).
  - assert (match guess with
            | Some (String c s) => String c s
            | _ => "application/octet-stream"
            end <> "") as Hmime by (by destruct guess as [[|c s]|]).
    destruct (exists_ fs (get_skip_marker_path (emoji_hash emoji))) eqn:Hs; cbn [fst snd].
    + rewrite orb_true_r.
      split; [|split; [exact Hmime|split; [reflexivity|split; [trivial|right; by split]]]].
      by destruct (negb _), (bool_decide (emoji_hash emoji ∈ _pending_hashes self)).
    + split; [reflexivity|].
      split; [exact Hmime|split; [reflexivity|split; [trivial|right; by split]]].
Qed.

(** X19: once an item has been transcoded with no failing file operation
    (from a source that is not empty and an image the encoder accepts),
    its hash has a cache file or a skip marker, so asking for the emoji
    again does not enqueue it and leaves the manager as it is; for a hash
    that had neither, the cache file is served when it is smaller than the
    original and the original is served otherwise. *)
Theorem transcoded_emoji_is_not_enqueued_again :
  forall (flt : Faults) (img : ImageFile) (o w : nat) (emoji : Emoji)
         (fs : gmap string nat) (guess : option string) (self : ProxyManager),
    makedirs_fails flt = false ->
    rename_fails flt = false ->
    remove_fails flt (get_cache_path (emoji_hash emoji)) = false ->
    write_fails flt (get_skip_marker_path (emoji_hash emoji)) = None ->
    fs !! full_path emoji = Some o ->
    o <> 0%nat ->
    encode img = Encoded w ->
    enqueue_transcode
      (_do_transcode flt (Some img) (emoji_hash emoji) (full_path emoji) fs) emoji self
    = (false, self)
    /\ (get_proxy_or_original
          (_do_transcode flt (Some img) (emoji_hash emoji) (full_path emoji) fs)
          guess emoji self).2 = self
    /\ (fs !! get_cache_path (emoji_hash emoji) = None ->
        fs !! get_skip_marker_path (emoji_hash emoji) = None ->
        (get_proxy_or_original
           (_do_transcode flt (Some img) (emoji_hash emoji) (full_path emoji) fs)
           guess emoji self).1.1
        = if (w <? o)%nat then get_cache_path (emoji_hash emoji) else full_path emoji).
Proof.
  intros flt img o w emoji fs guess self Hmk Hrn Hrm Hwr Hsrc Ho Henc.
  set (fs' := _do_transcode flt (Some img) (emoji_hash emoji) (full_path emoji) fs).
  assert ((exists_ fs' (get_cache_path (emoji_hash emoji)) = true
           \/ exists_ fs' (get_skip_marker_path (emoji_hash emoji)) = true)
          /\ (fs !! get_cache_path (emoji_hash emoji) = None ->
              fs !! get_skip_marker_path (emoji_hash emoji) = None ->
              exists_ fs' (get_cache_path (emoji_hash emoji)) = (w <? o)%nat))
    as [Hdone Hfresh].
  { subst fs'.
    destruct (fs !! get_cache_path (emoji_hash emoji)) as [c|] eqn:Hc.
    { rewrite do_transcode_unchanged
        by (right; left; apply exists_true; rewrite Hc; eauto).
      split; [|discriminate]. left. apply exists_true. rewrite Hc. eauto. }
    destruct (fs !! get_skip_marker_path (emoji_hash emoji)) as [s|] eqn:Hs.
    { rewrite do_transcode_unchanged
        by (right; right; apply exists_true; rewrite Hs; eauto).
      split; [|discriminate]. right. apply exists_true. rewrite Hs. eauto. }
    pose proof (transcode_sync_succeeds flt img (full_path emoji)
                  (get_cache_path (emoji_hash emoji)) fs o w Hmk Hrn Hsrc Ho Henc
                  (fun _ => Hrm)) as Hok.
    destruct (do_transcode_cases flt (Some img) (emoji_hash emoji) (full_path emoji) fs)
      as (_ & Hres); try assumption.
    { apply exists_true. rewrite Hsrc. eauto. }
    destruct (transcode_sync_cases flt (Some img) (full_path emoji)
                (get_cache_path (emoji_hash emoji)) fs)
      as (_ & [(E & _)|(o' & w' & img' & E & _ & _ & _ & _ & _ & _ & Hc1 & _)]);
      [rewrite Hok in E; discriminate|].
    rewrite Hok in E. injection E as <- <-.
    assert (_do_transcode flt (Some img) (emoji_hash emoji) (full_path emoji) fs
              !! get_cache_path (emoji_hash emoji)
            = if (w <? o)%nat then Some w else None) as Hc'.
    { unfold _do_transcode, transcode_to_webp.
      rewrite (proj2 (exists_true fs (full_path emoji))) by (rewrite Hsrc; eauto).
      rewrite (proj2 (exists_false fs _)) by exact Hc.
      rewrite (proj2 (exists_false fs _)) by exact Hs. cbn [negb orb].
      destruct (_transcode_sync flt (Some img) (full_path emoji)
                  (get_cache_path (emoji_hash emoji)) fs) as [[[ok o1] w1] fs1].
      cbn [fst snd] in Hok, Hc1. injection Hok as -> -> ->. cbn [negb].
      rewrite Nat.ltb_antisym. destruct (o <=? w)%nat; cbn [negb]; [|exact Hc1].
      rewrite (proj2 (exists_true fs1 _)) by (rewrite Hc1; eauto).
      rewrite Hrm, Hwr. cbn [andb negb].
      rewrite lookup_insert_ne by (apply not_eq_sym, proxy_paths_distinct).
      apply lookup_delete_eq. }
    assert (_do_transcode flt (Some img) (emoji_hash emoji) (full_path emoji) fs
              !! get_skip_marker_path (emoji_hash emoji) = None ->
            (w <? o)%nat = true) as Hs'.
    { destruct Hres as [(E & _)|(o2 & w2 & img2 & Hsz & _ & Hop & Henc' & _ & _ & _ & Hres)].
      - rewrite Hok in E. discriminate.
      - rewrite Hsrc in Hsz. injection Hsz as <-. injection Hop as <-.
        rewrite Henc in Henc'. injection Henc' as <-. rewrite Hwr in Hres.
        destruct Hres as [(Hlt & _)|(_ & _ & ->)]; [intros _; by apply Nat.ltb_lt|].
        discriminate. }
    split.
    - destruct (w <? o)%nat eqn:Hlt.
      + left. apply exists_true. rewrite Hc'. eauto.
      + right. apply exists_true.
        destruct (_do_transcode flt (Some img) (emoji_hash emoji) (full_path emoji) fs
                    !! get_skip_marker_path (emoji_hash emoji)); [eauto|].
        by specialize (Hs' eq_refl).
    - intros _ _. destruct (w <? o)%nat.
      + apply exists_true. rewrite Hc'. eauto.
      + by apply exists_false. }
  assert (enqueue_transcode fs' emoji self = (false, self)) as Henq.
  { unfold enqueue_transcode, get_cached_proxy_path, should_skip_transcode.
    destruct (negb _); [reflexivity|].
    destruct (bool_decide (emoji_hash emoji ∈ _pending_hashes self)); [reflexivity|].
    destruct Hdone as [-> | ->].
    - by rewrite bool_decide_eq_true_2 by eauto.
    - by rewrite orb_true_r. }
  split; [exact Henq|]. split.
  - unfold get_proxy_or_original, get_cached_proxy_path, should_skip_transcode.
    destruct (exists_ fs' (get_cache_path (emoji_hash emoji))); [reflexivity|].
    destruct (exists_ fs' (get_skip_marker_path (emoji_hash emoji))); [reflexivity|].
    by rewrite Henq.
  - intros Hc Hs. specialize (Hfresh Hc Hs).
    unfold get_proxy_or_original, get_cached_proxy_path, should_skip_transcode.
    rewrite Hfresh. destruct (w <? o)%nat; [reflexivity|].
    by destruct (exists_ fs' (get_skip_marker_path (emoji_hash emoji))).
Qed.

End ServeFacts.

(** ** Concrete runs for the properties above *)

Section MoreRuns.
Import Dispatcher Observe ImageProxy.

(** X2 on a request whose first model answers 401 and whose second model
    succeeds. *)
Lemma execute_request_keeps_table_frame_witness :
  (model_usage (set_usage (init ["a"; "b"] "chat")
                  [("a", (0, 1, 0)); ("b", (0, 0, 0))])).*1
  = (model_usage (init ["a"; "b"] "chat")).*1.
Proof.
  eapply (fun Hrun =>
            proj1 (proj2 (proj2
              (@execute_request_keeps_table_frame scripted RESPONSE
                 (prompt_factory "hello") tt None None 10%nat (init ["a"; "b"] "chat") _
                 (start [Raise (RespNotOkException 401); Return "ok"]) _ _ Hrun)))).
  vm_compute. reflexivity.
Defined.

(** X3 on a request whose first model answers 401 and whose factory raises
    for the client of the second: the first model is penalised, the second
    keeps its in-flight penalty. *)
Lemma request_penalises_each_model_once_witness :
  exists (penalised : gset string) (leaked : option string),
    (forall m,
       dict_get m (model_usage (set_usage (init ["a"; "b"] "chat")
                                  [("a", (0, 1, 0)); ("b", (0, 0, 1))]))
       = if bool_decide (m ∈ penalised)
         then bump <$> dict_get m (model_usage (init ["a"; "b"] "chat"))
         else if bool_decide (leaked = Some m)
              then hold <$> dict_get m (model_usage (init ["a"; "b"] "chat"))
              else dict_get m (model_usage (init ["a"; "b"] "chat")))
    /\ (forall m, leaked = Some m ->
          (m ∉ penalised)
          /\ exists cl e,
               @build_messages scripted
                 (Some (fun cl => if String.eqb (provider_name (client_provider cl)) "b"
                                  then Raise (OtherException "unsupported image")
                                  else Return ["hello"])) cl = Raise e
               /\ Raise (OtherException "unsupported image")
                  = (Raise e : Outcome (string * ModelInfo)))
    /\ (@factory_returns scripted
          (Some (fun cl => if String.eqb (provider_name (client_provider cl)) "b"
                           then Raise (OtherException "unsupported image")
                           else Return ["hello"])) -> leaked = None)
    /\ (forall (resp : string) (mi : ModelInfo),
          (Raise (OtherException "unsupported image") : Outcome (string * ModelInfo))
          = Return (resp, mi) ->
          (name mi ∉ penalised)
          /\ leaked = None
          /\ dict_get (name mi)
               (model_usage (set_usage (init ["a"; "b"] "chat")
                               [("a", (0, 1, 0)); ("b", (0, 0, 1))]))
             = dict_get (name mi) (model_usage (init ["a"; "b"] "chat"))).
Proof.
  eapply (@request_penalises_each_model_once scripted RESPONSE
            (Some (fun cl => if String.eqb (provider_name (client_provider cl)) "b"
                             then Raise (OtherException "unsupported image")
                             else Return ["hello"]))
            tt None None 10%nat (init ["a"; "b"] "chat") _
            (start [Raise (RespNotOkException 401); Return "unused"])).
  - apply init_usage_nonneg.
  - vm_compute. reflexivity.
Defined.

(** X4 on two models that answer 401: each is selected once. *)
Lemma request_selects_each_model_at_most_once_witness :
  exists evs,
    [EvSelect "a"; chat_call "a" ["hello"]; EvSelect "b"; chat_call "b" ["hello"]]
    = trace (start [Raise (RespNotOkException 401); Raise (RespNotOkException 401)]) ++ evs
    /\ NoDup (@selected_models scripted evs)
    /\ (forall m, In m (@selected_models scripted evs)
                  -> In m (model_usage (init ["a"; "b"] "chat")).*1)
    /\ (length (@selected_models scripted evs)
        <= length (model_list (init ["a"; "b"] "chat")))%nat.
Proof.
  eapply (@request_selects_each_model_at_most_once scripted RESPONSE
            (prompt_factory "hello") tt None None 10%nat (init ["a"; "b"] "chat") _
            (start [Raise (RespNotOkException 401); Raise (RespNotOkException 401)])
            (@Build_Env scripted []
               [EvSelect "a"; chat_call "a" ["hello"];
                EvSelect "b"; chat_call "b" ["hello"]])).
  vm_compute. reflexivity.
Defined.

(** X5 on a provider that answers 401. *)
Lemma attempt_raises_only_wrapped_failures_witness :
  ModelAttemptFailed HardError (Some (RespNotOkException 401)) = CancelledError
  \/ ModelAttemptFailed HardError (Some (RespNotOkException 401))
     = ModelAttemptFailed NotAttempted None
  \/ (exists e0, ModelAttemptFailed HardError (Some (RespNotOkException 401))
                 = ModelAttemptFailed RetriesExhausted (Some e0)
                 /\ is_transient e0 = true)
  \/ (exists e0, ModelAttemptFailed HardError (Some (RespNotOkException 401))
                 = ModelAttemptFailed HardError (Some e0)
                 /\ is_transient e0 = false).
Proof.
  eapply (@attempt_raises_only_wrapped_failures scripted (@get_model_info scripted "a")
            (@get_provider scripted "a") (client_of "a") RESPONSE ["hello"] tt None None
            5%nat None (start [Raise (RespNotOkException 401)])).
  vm_compute. reflexivity.
Defined.

(** X6 on a provider with three retries that answers 413, 503 and then
    succeeds, with more passes allowed than the budget needs. *)
Lemma attempt_ends_within_budget_witness :
  exists o env',
    @_attempt_request_on_model scripted (@get_model_info scripted "a")
      (@get_provider scripted "a") (client_of "a") RESPONSE ["hello"] tt None None
      9 None (start [too_large; Raise (RespNotOkException 503); Return "ok"])
    = Some (o, env')
    /\ @_attempt_request_on_model scripted (@get_model_info scripted "a")
         (@get_provider scripted "a") (client_of "a") RESPONSE ["hello"] tt None None
         (Z.to_nat (max_retry (@get_provider scripted "a")) + 1) None
         (start [too_large; Raise (RespNotOkException 503); Return "ok"])
       = Some (o, env')
    /\ (@count scripted is_call (trace env')
        <= @count scripted is_call
             (trace (start [too_large; Raise (RespNotOkException 503); Return "ok"]))
           + Z.to_nat (max_retry (@get_provider scripted "a")) + 1)%nat.
Proof.
  apply (@attempt_ends_within_budget scripted (@get_model_info scripted "a")
           (@get_provider scripted "a") (client_of "a") RESPONSE ["hello"] tt None None
           9%nat None (start [too_large; Raise (RespNotOkException 503); Return "ok"])).
  - right. reflexivity.
  - vm_compute. lia.
Defined.

(** X7 on the backend whose compressor returns no message: a thousand
    passes do not end the attempt. *)
Lemma attempt_spins_on_empty_compression_witness :
  @_attempt_request_on_model stubborn (@get_model_info stubborn "a")
    (@get_provider stubborn "a") (@endpoint stubborn "chat" "a").2 RESPONSE ["hello"] tt
    None None 1000 None (@Build_Env stubborn tt [])
  = None.
Proof.
  apply (@attempt_spins_on_empty_compression stubborn (@get_model_info stubborn "a")
           (@get_provider stubborn "a") (@endpoint stubborn "chat" "a").2 ["hello"] tt).
  - reflexivity.
  - reflexivity.
  - intros req w. reflexivity.
  - reflexivity.
Defined.

(** X12 on the temporary file of hash [abc] while [abc] is a valid hash. *)
Lemma cleanup_removes_transcoder_temp_file_witness :
  In ("abc" +:+ ".webp.tmp")
     (_cleanup_stale_cache_sync (Some {["abc"]}) (Some ["abc.webp"; "abc.webp.tmp"])
        (fun _ => true)).2.
Proof.
  apply (cleanup_removes_transcoder_temp_file {["abc"]} ["abc.webp"; "abc.webp.tmp"]
           (fun _ => true) "abc").
  - intros E%elem_of_singleton. discriminate.
  - right. left. reflexivity.
  - reflexivity.
Defined.


(** X14 on a pool started twice after an enqueue. *)
Lemma workers_started_once_witness :
  [] ++ List.map WorkerTask (seq 0 MAX_CONCURRENT_TRANSCODE) ++ [CleanupTask]
  = [WorkerTask 0; WorkerTask 1; CleanupTask].
Proof.
  refine (workers_started_once
           {| manager := start_workers
                           (start_workers (enqueue_transcode sample_fs sample_emoji
                                             new_manager).2);
              running := [] |} _).
  eapply reach_step; [eapply reach_step; [eapply reach_step; [apply reach_new|]|]|].
  - apply (step_enqueue sample_fs sample_emoji).
  - apply step_start.
  - apply step_start.
Defined.

(** X19 on a still image that transcodes to a smaller file. *)
Lemma transcoded_emoji_is_not_enqueued_again_witness :
  enqueue_transcode
    (_do_transcode no_faults (Some (still_image (Encoded 100)))
       (emoji_hash sample_emoji) (full_path sample_emoji) sample_fs)
    sample_emoji new_manager
  = (false, new_manager)
  /\ (get_proxy_or_original
        (_do_transcode no_faults (Some (still_image (Encoded 100)))
           (emoji_hash sample_emoji) (full_path sample_emoji) sample_fs)
        (Some "image/png") sample_emoji new_manager).2 = new_manager
  /\ (sample_fs !! get_cache_path (emoji_hash sample_emoji) = None ->
      sample_fs !! get_skip_marker_path (emoji_hash sample_emoji) = None ->
      (get_proxy_or_original
         (_do_transcode no_faults (Some (still_image (Encoded 100)))
            (emoji_hash sample_emoji) (full_path sample_emoji) sample_fs)
         (Some "image/png") sample_emoji new_manager).1.1
      = if (100 <? 2048)%nat then get_cache_path (emoji_hash sample_emoji)
        else full_path sample_emoji).
Proof.
  apply (transcoded_emoji_is_not_enqueued_again no_faults (still_image (Encoded 100))
           2048 100 sample_emoji sample_fs (Some "image/png") new_manager);
    try reflexivity.
  discriminate.
Defined.

End MoreRuns.
